(** * Raptor TCP server: connection table, handle codec and lifecycle

    A shallow embedding of [core/linux/tcp_server.cc] and
    [core/windows/tcp_server.cc].  The two files share the handle
    validator and the message plumbing and differ in the accept path, in
    the guards of the eviction helper and of the I/O event handlers, and
    in the set of worker threads; the platform code lives in the modules
    [Linux] and [Windows] below.  The dispatcher thread, the listening
    addresses and the client of [core/linux/tcp_client.cc] (module
    [Client]) follow the two builds.

    Conventions of the embedding
    - unsigned machine integers are [Z] with the wrap-around written out;
      slot positions ([uint32_t] values used to subscript [_mgr]) are [nat];
    - [std::vector] is a [list] read with [!!]; a subscript outside the
      vector, a call through a null pointer, [erase] on an iterator that
      designates no element and [front] on an empty list are undefined
      behaviour in C++ and are reported as a [Fault];
    - the collaborators whose code is not part of these files (listener,
      send/receive threads, [Connection], logger, clock) are not modelled:
      what they return is an argument of the operation, what the server
      asks of them is appended to the [effects] of the state. *)

From Stdlib Require Import ZArith Lia Bool Sorted.
From stdpp Require Import base list option.

Local Open Scope Z_scope.

(** ** Faults and outcomes *)

Inductive fault : Set :=
| NullPointer      (* call through a null [Connection*] / [shared_ptr] *)
| OutOfRange       (* [_mgr[index]] with [index >= _mgr.size()] *)
| InvalidIterator  (* [erase] of [end()], of a singular or of a stale iterator *)
| EmptyList.       (* [front()] of an empty [std::list] *)

Inductive outcome (A : Type) : Type :=
| Ok (a : A)
| Fault (f : fault).
Arguments Ok {A} a.
Arguments Fault {A} f.

#[global] Instance outcome_ret : MRet outcome := fun A a => Ok a.
#[global] Instance outcome_bind : MBind outcome := fun A B k m =>
  match m with
  | Ok a => k a
  | Fault f => Fault f
  end.

(** ** Connection identifier codec *)

Definition ConnectionId := Z.

Definition u16 (x : Z) : Z := Z.land x 0xffff.
Definition u32 (x : Z) : Z := Z.land x 0xffffffff.

(** Modelled from the spec: [core::BuildConnectionId], [core::GetMagicNumber]
    and [core::GetUserId] are declared in a header that is not among the
    sources; the layout is the one of the data model,
    [[magic:16 | listen_port:16 | slot_index:32]], the arguments being
    converted to [uint16_t], [uint16_t] and [uint32_t] at the call. *)
Definition BuildConnectionId (magic listen_port : Z) (index : Z) : ConnectionId :=
  Z.lor (Z.shiftl (u16 magic) 48)
        (Z.lor (Z.shiftl (u16 listen_port) 32) (u32 index)).

Definition GetMagicNumber (cid : ConnectionId) : Z := u16 (Z.shiftr cid 48).
Definition GetListenPort (cid : ConnectionId) : Z := u16 (Z.shiftr cid 32).
Definition GetUserId (cid : ConnectionId) : Z := u32 cid.

(** [constexpr uint32_t InvalidIndex = static_cast<uint32_t>(-1);] *)
Definition InvalidIndex : Z := u32 (-1).

(** ** Data model *)

(** Modelled from the spec: [RaptorOptions] is declared in a header that is
    not among the sources; these are the two fields the server reads, with
    the types the external interfaces give them
    ([{ max_connections: u32, connection_timeout: seconds }]). *)
Record RaptorOptions : Set := {
  max_connections : Z;      (* uint32_t *)
  connection_timeout : Z    (* seconds *)
}.

(** The [Connection] object is a collaborator; the server only creates it,
    hands it its handle, socket and protocol, and reads it back. *)
Record Connection : Set := {
  conn_cid : ConnectionId;
  conn_sock : Z
}.

(** [std::multimap<time_t, uint32_t>]: the entries in iteration order, each
    with the identity of its tree node, and the next fresh node identity.
    An iterator designates a node, or is [end()], or is singular
    (value-initialised, as in the slots made by [resize]). *)
Record TimeoutEntry : Set := {
  te_deadline : Z;
  te_index : nat;
  te_node : nat
}.

Record TimeoutRecord : Set := {
  tr_entries : list TimeoutEntry;
  tr_fresh : nat
}.

Inductive iterator : Set :=
| It (node : nat)
| End
| Singular.

(** [using ConnectionData = std::pair<Connection*, TimeoutRecord::iterator>] *)
Abbreviation ConnectionData := (option Connection * iterator)%type.

Inductive MessageType : Set := kNewConnection | kRecvAMessage | kCloseClient.

Record TcpMessageNode : Set := {
  msg_type : MessageType;
  msg_cid : ConnectionId;
  msg_slice : list Z
}.

(** Listener, send/receive thread or [Thread]: only whether it was started
    and whether it was shut down (joined) is kept. *)
Record Worker : Set := {
  w_started : bool;
  w_stopped : bool
}.

Inductive raptor_error : Set :=
| RAPTOR_ERROR_NONE
| RAPTOR_ERROR (code : nat).

Definition err_already_running : raptor_error := RAPTOR_ERROR 1.
Definition err_start_listener : raptor_error := RAPTOR_ERROR 2.
Definition err_start_recv_thread : raptor_error := RAPTOR_ERROR 3.
Definition err_start_send_thread : raptor_error := RAPTOR_ERROR 4.
Definition err_start_rs_thread : raptor_error := RAPTOR_ERROR 5.

(** What the server asks of its collaborators. *)
Inductive effect : Set :=
| LogMaxConnections (max : Z)
| LogInvalidIndex (cid : ConnectionId)
| LogPostRecvFailed
| LogPostSendFailed
| SocketShutdown (sock : Z)                     (* raptor_set_socket_shutdown *)
| ConnInit (cid : ConnectionId) (sock : Z)      (* Connection::Init *)
| ConnSetProtocol (cid : ConnectionId)
| ConnShutdown (cid : ConnectionId) (notify : bool)
| ConnSend (cid : ConnectionId) (len : Z)
| ConnRecvEvent (cid : ConnectionId)
| ConnSendEvent (cid : ConnectionId)
| ConnAsyncRecv (cid : ConnectionId)
| EngineAdd (sock : Z) (cid : ConnectionId)     (* _rs_thread->Add *)
| CvSignal.

(** The members of [class TcpServer].  [_recv_thread] and [_send_thread]
    are the epoll build's, [_rs_thread] the IOCP build's; a build leaves
    the other's members null. *)
Record TcpServer : Set := {
  _shutdown : bool;
  _options : RaptorOptions;
  _listener : option Worker;
  _recv_thread : option Worker;
  _send_thread : option Worker;
  _rs_thread : option Worker;
  _mq_thd : Worker;
  _mpscq : list TcpMessageNode;
  _count : Z;
  _mgr : list ConnectionData;
  _timeout_record_list : TimeoutRecord;
  _free_index_list : list nat;
  _magic_number : Z;
  _last_timeout_time : Z;
  effects : list effect
}.

(** [enum { RESERVED_CONNECTION_COUNT = 100 };] *)
Definition RESERVED_CONNECTION_COUNT : nat := 100.

(** ** Validation of a handle: [TcpServer::CheckConnectionId] *)

(** [core::InvalidConnectionId] is declared with the codec, in the header
    that is not among the sources, and the data model leaves its value open
    (all-ones or zero): it is a parameter of everything that validates a
    handle. *)
Section Validate.
Variable InvalidConnectionId : ConnectionId.

Definition CheckConnectionId (s : TcpServer) (cid : ConnectionId) : Z :=
  let failure := InvalidIndex in
  if cid =? InvalidConnectionId then failure
  else
    let magic := GetMagicNumber cid in
    if negb (magic =? _magic_number s) then failure
    else
      let uid := GetUserId cid in
      if uid >=? max_connections (_options s) then failure
      else uid.
End Validate.

(** ** Field updates *)

Definition set_shutdown (b : bool) (s : TcpServer) : TcpServer :=
  {| _shutdown := b; _options := _options s; _listener := _listener s;
     _recv_thread := _recv_thread s; _send_thread := _send_thread s;
     _rs_thread := _rs_thread s; _mq_thd := _mq_thd s; _mpscq := _mpscq s;
     _count := _count s; _mgr := _mgr s;
     _timeout_record_list := _timeout_record_list s;
     _free_index_list := _free_index_list s;
     _magic_number := _magic_number s;
     _last_timeout_time := _last_timeout_time s; effects := effects s |}.

Definition set_options (o : RaptorOptions) (s : TcpServer) : TcpServer :=
  {| _shutdown := _shutdown s; _options := o; _listener := _listener s;
     _recv_thread := _recv_thread s; _send_thread := _send_thread s;
     _rs_thread := _rs_thread s; _mq_thd := _mq_thd s; _mpscq := _mpscq s;
     _count := _count s; _mgr := _mgr s;
     _timeout_record_list := _timeout_record_list s;
     _free_index_list := _free_index_list s;
     _magic_number := _magic_number s;
     _last_timeout_time := _last_timeout_time s; effects := effects s |}.

Definition set_listener (w : option Worker) (s : TcpServer) : TcpServer :=
  {| _shutdown := _shutdown s; _options := _options s; _listener := w;
     _recv_thread := _recv_thread s; _send_thread := _send_thread s;
     _rs_thread := _rs_thread s; _mq_thd := _mq_thd s; _mpscq := _mpscq s;
     _count := _count s; _mgr := _mgr s;
     _timeout_record_list := _timeout_record_list s;
     _free_index_list := _free_index_list s;
     _magic_number := _magic_number s;
     _last_timeout_time := _last_timeout_time s; effects := effects s |}.

Definition set_recv_thread (w : option Worker) (s : TcpServer) : TcpServer :=
  {| _shutdown := _shutdown s; _options := _options s; _listener := _listener s;
     _recv_thread := w; _send_thread := _send_thread s;
     _rs_thread := _rs_thread s; _mq_thd := _mq_thd s; _mpscq := _mpscq s;
     _count := _count s; _mgr := _mgr s;
     _timeout_record_list := _timeout_record_list s;
     _free_index_list := _free_index_list s;
     _magic_number := _magic_number s;
     _last_timeout_time := _last_timeout_time s; effects := effects s |}.

Definition set_send_thread (w : option Worker) (s : TcpServer) : TcpServer :=
  {| _shutdown := _shutdown s; _options := _options s; _listener := _listener s;
     _recv_thread := _recv_thread s; _send_thread := w;
     _rs_thread := _rs_thread s; _mq_thd := _mq_thd s; _mpscq := _mpscq s;
     _count := _count s; _mgr := _mgr s;
     _timeout_record_list := _timeout_record_list s;
     _free_index_list := _free_index_list s;
     _magic_number := _magic_number s;
     _last_timeout_time := _last_timeout_time s; effects := effects s |}.

Definition set_rs_thread (w : option Worker) (s : TcpServer) : TcpServer :=
  {| _shutdown := _shutdown s; _options := _options s; _listener := _listener s;
     _recv_thread := _recv_thread s; _send_thread := _send_thread s;
     _rs_thread := w; _mq_thd := _mq_thd s; _mpscq := _mpscq s;
     _count := _count s; _mgr := _mgr s;
     _timeout_record_list := _timeout_record_list s;
     _free_index_list := _free_index_list s;
     _magic_number := _magic_number s;
     _last_timeout_time := _last_timeout_time s; effects := effects s |}.

Definition set_mq_thd (w : Worker) (s : TcpServer) : TcpServer :=
  {| _shutdown := _shutdown s; _options := _options s; _listener := _listener s;
     _recv_thread := _recv_thread s; _send_thread := _send_thread s;
     _rs_thread := _rs_thread s; _mq_thd := w; _mpscq := _mpscq s;
     _count := _count s; _mgr := _mgr s;
     _timeout_record_list := _timeout_record_list s;
     _free_index_list := _free_index_list s;
     _magic_number := _magic_number s;
     _last_timeout_time := _last_timeout_time s; effects := effects s |}.

Definition set_mpscq (q : list TcpMessageNode) (s : TcpServer) : TcpServer :=
  {| _shutdown := _shutdown s; _options := _options s; _listener := _listener s;
     _recv_thread := _recv_thread s; _send_thread := _send_thread s;
     _rs_thread := _rs_thread s; _mq_thd := _mq_thd s; _mpscq := q;
     _count := _count s; _mgr := _mgr s;
     _timeout_record_list := _timeout_record_list s;
     _free_index_list := _free_index_list s;
     _magic_number := _magic_number s;
     _last_timeout_time := _last_timeout_time s; effects := effects s |}.

Definition set_count (c : Z) (s : TcpServer) : TcpServer :=
  {| _shutdown := _shutdown s; _options := _options s; _listener := _listener s;
     _recv_thread := _recv_thread s; _send_thread := _send_thread s;
     _rs_thread := _rs_thread s; _mq_thd := _mq_thd s; _mpscq := _mpscq s;
     _count := c; _mgr := _mgr s;
     _timeout_record_list := _timeout_record_list s;
     _free_index_list := _free_index_list s;
     _magic_number := _magic_number s;
     _last_timeout_time := _last_timeout_time s; effects := effects s |}.

Definition set_mgr (m : list ConnectionData) (s : TcpServer) : TcpServer :=
  {| _shutdown := _shutdown s; _options := _options s; _listener := _listener s;
     _recv_thread := _recv_thread s; _send_thread := _send_thread s;
     _rs_thread := _rs_thread s; _mq_thd := _mq_thd s; _mpscq := _mpscq s;
     _count := _count s; _mgr := m;
     _timeout_record_list := _timeout_record_list s;
     _free_index_list := _free_index_list s;
     _magic_number := _magic_number s;
     _last_timeout_time := _last_timeout_time s; effects := effects s |}.

Definition set_timeout_record_list (t : TimeoutRecord) (s : TcpServer) : TcpServer :=
  {| _shutdown := _shutdown s; _options := _options s; _listener := _listener s;
     _recv_thread := _recv_thread s; _send_thread := _send_thread s;
     _rs_thread := _rs_thread s; _mq_thd := _mq_thd s; _mpscq := _mpscq s;
     _count := _count s; _mgr := _mgr s;
     _timeout_record_list := t;
     _free_index_list := _free_index_list s;
     _magic_number := _magic_number s;
     _last_timeout_time := _last_timeout_time s; effects := effects s |}.

Definition set_free_index_list (f : list nat) (s : TcpServer) : TcpServer :=
  {| _shutdown := _shutdown s; _options := _options s; _listener := _listener s;
     _recv_thread := _recv_thread s; _send_thread := _send_thread s;
     _rs_thread := _rs_thread s; _mq_thd := _mq_thd s; _mpscq := _mpscq s;
     _count := _count s; _mgr := _mgr s;
     _timeout_record_list := _timeout_record_list s;
     _free_index_list := f;
     _magic_number := _magic_number s;
     _last_timeout_time := _last_timeout_time s; effects := effects s |}.

Definition set_magic_number (m : Z) (s : TcpServer) : TcpServer :=
  {| _shutdown := _shutdown s; _options := _options s; _listener := _listener s;
     _recv_thread := _recv_thread s; _send_thread := _send_thread s;
     _rs_thread := _rs_thread s; _mq_thd := _mq_thd s; _mpscq := _mpscq s;
     _count := _count s; _mgr := _mgr s;
     _timeout_record_list := _timeout_record_list s;
     _free_index_list := _free_index_list s;
     _magic_number := m;
     _last_timeout_time := _last_timeout_time s; effects := effects s |}.

Definition set_last_timeout_time (t : Z) (s : TcpServer) : TcpServer :=
  {| _shutdown := _shutdown s; _options := _options s; _listener := _listener s;
     _recv_thread := _recv_thread s; _send_thread := _send_thread s;
     _rs_thread := _rs_thread s; _mq_thd := _mq_thd s; _mpscq := _mpscq s;
     _count := _count s; _mgr := _mgr s;
     _timeout_record_list := _timeout_record_list s;
     _free_index_list := _free_index_list s;
     _magic_number := _magic_number s;
     _last_timeout_time := t; effects := effects s |}.

(** One more request to a collaborator. *)
Definition emit (e : effect) (s : TcpServer) : TcpServer :=
  {| _shutdown := _shutdown s; _options := _options s; _listener := _listener s;
     _recv_thread := _recv_thread s; _send_thread := _send_thread s;
     _rs_thread := _rs_thread s; _mq_thd := _mq_thd s; _mpscq := _mpscq s;
     _count := _count s; _mgr := _mgr s;
     _timeout_record_list := _timeout_record_list s;
     _free_index_list := _free_index_list s;
     _magic_number := _magic_number s;
     _last_timeout_time := _last_timeout_time s;
     effects := effects s ++ [e] |}.

(** ** The timeout index *)

(** [multimap::insert]: the new entry goes after the entries whose key is
    not greater (upper bound of the equal range). *)
Fixpoint insert_sorted (e : TimeoutEntry) (l : list TimeoutEntry) : list TimeoutEntry :=
  match l with
  | [] => [e]
  | x :: l' =>
      if te_deadline e <? te_deadline x then e :: x :: l'
      else x :: insert_sorted e l'
  end.

Definition tr_insert (deadline : Z) (index : nat) (tr : TimeoutRecord)
  : iterator * TimeoutRecord :=
  let n := tr_fresh tr in
  (It n,
   {| tr_entries :=
        insert_sorted {| te_deadline := deadline; te_index := index; te_node := n |}
                      (tr_entries tr);
      tr_fresh := S n |}).

Definition is_node (n : nat) (e : TimeoutEntry) : bool := Nat.eqb (te_node e) n.

Definition tr_find (n : nat) (tr : TimeoutRecord) : option TimeoutEntry :=
  List.find (is_node n) (tr_entries tr).

(** [multimap::erase(iterator)]. *)
Definition tr_erase (it : iterator) (tr : TimeoutRecord) : outcome TimeoutRecord :=
  match it with
  | It n =>
      if existsb (is_node n) (tr_entries tr)
      then Ok {| tr_entries := List.filter (fun e => negb (is_node n e)) (tr_entries tr);
                 tr_fresh := tr_fresh tr |}
      else Fault InvalidIterator
  | End | Singular => Fault InvalidIterator
  end.

Definition tr_clear (tr : TimeoutRecord) : TimeoutRecord :=
  {| tr_entries := []; tr_fresh := tr_fresh tr |}.

Definition tr_begin (tr : TimeoutRecord) : iterator :=
  match tr_entries tr with
  | [] => End
  | e :: _ => It (te_node e)
  end.

(** [++it] for an iterator on node [n]. *)
Fixpoint succ_of (n : nat) (l : list TimeoutEntry) : iterator :=
  match l with
  | [] => End
  | e :: l' =>
      if is_node n e
      then match l' with [] => End | e' :: _ => It (te_node e') end
      else succ_of n l'
  end.

(** ** The slot table *)

(** [_mgr[index]] *)
Definition slot_at (index : nat) (s : TcpServer) : outcome ConnectionData :=
  match _mgr s !! index with
  | Some d => Ok d
  | None => Fault OutOfRange
  end.

(** [_mgr[index].first = c] *)
Definition set_first (index : nat) (c : option Connection) (s : TcpServer)
  : outcome TcpServer :=
  d ← slot_at index s;
  Ok (set_mgr (<[index := (c, d.2)]> (_mgr s)) s).

(** [_mgr[index].second = it] *)
Definition set_second (index : nat) (it : iterator) (s : TcpServer)
  : outcome TcpServer :=
  d ← slot_at index s;
  Ok (set_mgr (<[index := (d.1, it)]> (_mgr s)) s).

(** [_timeout_record_list.erase(it)] *)
Definition erase_timeout (it : iterator) (s : TcpServer) : outcome TcpServer :=
  tr ← tr_erase it (_timeout_record_list s);
  Ok (set_timeout_record_list tr s).

(** [_mgr[index].second = _timeout_record_list.insert({deadline, index})] *)
Definition insert_timeout (deadline : Z) (index : nat) (s : TcpServer)
  : outcome TcpServer :=
  let '(it, tr) := tr_insert deadline index (_timeout_record_list s) in
  set_second index it (set_timeout_record_list tr s).

(** [_free_index_list.push_back(index)] *)
Definition push_free (index : nat) (s : TcpServer) : TcpServer :=
  set_free_index_list (_free_index_list s ++ [index]) s.

(** [vector::resize(n)]: keeps the first [n] elements and pads with
    value-initialised pairs. *)
Definition resize (n : nat) (l : list ConnectionData) : list ConnectionData :=
  take n l ++ replicate (n - length l)%nat (None, Singular).

(** [Connection::Shutdown(notify)] on [_mgr[index].first]. *)
Definition shutdown_conn (index : nat) (notify : bool) (s : TcpServer)
  : outcome TcpServer :=
  d ← slot_at index s;
  match d.1 with
  | Some c => Ok (emit (ConnShutdown (conn_cid c) notify) s)
  | None => Fault NullPointer
  end.

(** The growth step of [OnNewConnection], the same text in both builds:
    [resize(expand)], then the [for] loop that seeds the added slots. *)
Fixpoint seed_slots (idxs : list nat) (s : TcpServer) : outcome TcpServer :=
  match idxs with
  | [] => Ok s
  | i :: rest =>
      s ← set_first i None s;
      s ← set_second i End s;
      seed_slots rest (push_free i s)
  end.

Definition grow (s : TcpServer) : outcome TcpServer :=
  let count := length (_mgr s) in
  let expand :=
    if Z.of_nat count * 2 <? max_connections (_options s)
    then (count * 2)%nat
    else Z.to_nat (max_connections (_options s)) in
  seed_slots (seq count (expand - count))
             (set_mgr (resize expand (_mgr s)) s).

(** The loop of [TcpServer::OnCheckingEvent], over the statements [evict]
    that follow [++it].  [fuel] bounds the number of iterations. *)
Fixpoint sweep (evict : nat -> TcpServer -> outcome TcpServer)
         (fuel : nat) (current : Z) (it : iterator) (s : TcpServer)
  : option (outcome TcpServer) :=
  match fuel with
  | O => None
  | S fuel' =>
      match it with
      | End => Some (Ok s)
      | Singular => Some (Fault InvalidIterator)
      | It n =>
          match tr_find n (_timeout_record_list s) with
          | None => Some (Fault InvalidIterator)
          | Some e =>
              if te_deadline e >? current then Some (Ok s)
              else
                let index := te_index e in
                let it' := succ_of n (tr_entries (_timeout_record_list s)) in
                match evict index s with
                | Ok s' => sweep evict fuel' current it' s'
                | Fault f => Some (Fault f)
                end
          end
      end
  end.

(** ** Event egress: the three producers of the handoff queue *)

Definition push_message (m : TcpMessageNode) (s : TcpServer) : TcpServer :=
  emit CvSignal (set_count (u32 (_count s + 1)) (set_mpscq (_mpscq s ++ [m]) s)).

Definition OnConnectionArrived (cid : ConnectionId) (s : TcpServer) : TcpServer :=
  push_message {| msg_type := kNewConnection; msg_cid := cid; msg_slice := [] |} s.

Definition OnDataReceived (cid : ConnectionId) (slice : list Z) (s : TcpServer)
  : TcpServer :=
  push_message {| msg_type := kRecvAMessage; msg_cid := cid; msg_slice := slice |} s.

Definition OnConnectionClosed (cid : ConnectionId) (s : TcpServer) : TcpServer :=
  push_message {| msg_type := kCloseClient; msg_cid := cid; msg_slice := [] |} s.

(** The drain at the end of [Shutdown]: every node popped by
    [PopAndCheckEnd] takes one off [_count]. *)
Fixpoint drain (q : list TcpMessageNode) (count : Z) : Z :=
  match q with
  | [] => count
  | _ :: q' => drain q' (u32 (count - 1))
  end.

(** The [for (auto& obj : _mgr)] loop of [Shutdown]. *)
Fixpoint shutdown_all (l : list ConnectionData) (s : TcpServer) : TcpServer :=
  match l with
  | [] => s
  | obj :: l' =>
      match obj.1 with
      | Some c => shutdown_all l' (emit (ConnShutdown (conn_cid c) false) s)
      | None => shutdown_all l' s
      end
  end.

Definition new_worker : Worker := {| w_started := false; w_stopped := false |}.
Definition start_worker (w : Worker) : Worker :=
  {| w_started := true; w_stopped := w_stopped w |}.
Definition stop_worker (w : Worker) : Worker :=
  {| w_started := w_started w; w_stopped := true |}.

Definition is_error (e : raptor_error) : bool :=
  match e with RAPTOR_ERROR_NONE => false | RAPTOR_ERROR _ => true end.

(** [TcpServer::TcpServer]: only [_shutdown] is set by the constructor, the
    containers are empty and the pointers null. *)
Definition constructed : TcpServer :=
  {| _shutdown := true;
     _options := {| max_connections := 0; connection_timeout := 0 |};
     _listener := None; _recv_thread := None; _send_thread := None;
     _rs_thread := None; _mq_thd := new_worker; _mpscq := []; _count := 0;
     _mgr := []; _timeout_record_list := {| tr_entries := []; tr_fresh := O |};
     _free_index_list := []; _magic_number := 0; _last_timeout_time := 0;
     effects := [] |}.

(** ** The epoll build: [core/linux/tcp_server.cc] *)

Module Linux.
Section WithSentinel.
Variable InvalidConnectionId : ConnectionId.
Local Abbreviation validate := (CheckConnectionId InvalidConnectionId).

(** [listener_e], [recv_e], [send_e]: what the three [Init] calls of the
    collaborators return; [now]: the value of [Now()]. *)
Definition Init (listener_e recv_e send_e : raptor_error) (now : Z)
           (options : RaptorOptions) (s : TcpServer)
  : raptor_error * TcpServer :=
  if negb (_shutdown s) then (err_already_running, s)
  else
    let s := set_listener (Some new_worker) s in
    let s := set_recv_thread (Some new_worker) s in
    let s := set_send_thread (Some new_worker) s in
    if is_error listener_e then (listener_e, s)
    else if is_error recv_e then (recv_e, s)
    else if is_error send_e then (send_e, s)
    else
      let s := set_shutdown false s in
      let s := set_options options s in
      let s := set_count 0 s in
      let s := set_mq_thd new_worker s in
      let s := set_mgr (resize RESERVED_CONNECTION_COUNT (_mgr s)) s in
      let s := foldl (fun s i => push_free i s) s
                     (seq 0 RESERVED_CONNECTION_COUNT) in
      let n := now in
      let s := set_magic_number (u16 (Z.land (Z.shiftr n 16) 0xffff)) s in
      let s := set_last_timeout_time n s in
      (RAPTOR_ERROR_NONE, s).

(** [listener_ok], [recv_ok], [send_ok]: what [StartListening] and the
    two [Start] calls return. *)
Definition Start (listener_ok recv_ok send_ok : bool) (s : TcpServer)
  : outcome (raptor_error * TcpServer) :=
  match _listener s with
  | None => Fault NullPointer
  | Some l =>
      if negb listener_ok then Ok (err_start_listener, s)
      else
        let s := set_listener (Some (start_worker l)) s in
        match _recv_thread s with
        | None => Fault NullPointer
        | Some r =>
            if negb recv_ok then Ok (err_start_recv_thread, s)
            else
              let s := set_recv_thread (Some (start_worker r)) s in
              match _send_thread s with
              | None => Fault NullPointer
              | Some w =>
                  if negb send_ok then Ok (err_start_send_thread, s)
                  else
                    let s := set_send_thread (Some (start_worker w)) s in
                    let s := set_mq_thd (start_worker (_mq_thd s)) s in
                    Ok (RAPTOR_ERROR_NONE, s)
              end
        end
  end.

Definition Shutdown (s : TcpServer) : outcome TcpServer :=
  if negb (_shutdown s) then
    let s := set_shutdown true s in
    match _listener s, _recv_thread s, _send_thread s with
    | Some l, Some r, Some w =>
        let s := set_listener (Some (stop_worker l)) s in
        let s := set_recv_thread (Some (stop_worker r)) s in
        let s := set_send_thread (Some (stop_worker w)) s in
        let s := emit CvSignal s in
        let s := set_mq_thd (stop_worker (_mq_thd s)) s in
        let s := set_timeout_record_list (tr_clear (_timeout_record_list s)) s in
        let s := set_free_index_list [] s in
        let s := shutdown_all (_mgr s) s in
        let s := set_mgr [] s in
        let s := set_count (drain (_mpscq s) (_count s)) s in
        let s := set_mpscq [] s in
        Ok s
    | _, _, _ => Fault NullPointer
    end
  else Ok s.

(** [TcpServer::~TcpServer] *)
Definition destructor (s : TcpServer) : outcome TcpServer :=
  if negb (_shutdown s) then Shutdown s else Ok s.

(** [conn_send]: what [Connection::Send] returns. *)
Definition Send (conn_send : bool) (cid : ConnectionId) (len : Z)
           (s : TcpServer) : outcome (bool * TcpServer) :=
  let index := validate s cid in
  if index =? InvalidIndex then Ok (false, s)
  else
    d ← slot_at (Z.to_nat index) s;
    match d.1 with
    | Some c => Ok (conn_send, emit (ConnSend (conn_cid c) len) s)
    | None => Ok (false, s)
    end.

Definition DeleteConnection (index : nat) (s : TcpServer) : outcome TcpServer :=
  s ← set_first index None s;
  d ← slot_at index s;
  s ← erase_timeout d.2 s;
  s ← set_second index End s;
  Ok (push_free index s).

Definition CloseConnection (cid : ConnectionId) (s : TcpServer)
  : outcome (bool * TcpServer) :=
  let index := validate s cid in
  if index =? InvalidIndex then Ok (false, s)
  else
    let i := Z.to_nat index in
    d ← slot_at i s;
    match d.1 with
    | Some c =>
        s ← shutdown_conn i false s;
        s ← DeleteConnection i s;
        Ok (true, s)
    | None => Ok (true, s)
    end.

(** [now]: the value of [Now()]. *)
Definition OnNewConnection (now : Z) (sock : Z) (listen_port : Z)
           (s : TcpServer) : outcome TcpServer :=
  if bool_decide (_free_index_list s = [])
     && (Z.of_nat (length (_mgr s)) >=? max_connections (_options s))
  then
    Ok (emit (SocketShutdown sock)
             (emit (LogMaxConnections (max_connections (_options s))) s))
  else
    s ← (if bool_decide (_free_index_list s = []) then grow s else Ok s);
    match _free_index_list s with
    | [] => Fault EmptyList
    | index :: rest =>
        let s := set_free_index_list rest s in
        let cid := BuildConnectionId (_magic_number s) listen_port (Z.of_nat index) in
        let deadline_seconds := now + connection_timeout (_options s) in
        s ← set_first index (Some {| conn_cid := cid; conn_sock := sock |}) s;
        let s := emit (ConnSetProtocol cid) s in
        let s := emit (ConnInit cid sock) s in
        insert_timeout deadline_seconds index s
    end.

Definition OnErrorEvent (cid : ConnectionId) (s : TcpServer) : outcome TcpServer :=
  let index := validate s cid in
  if index =? InvalidIndex then Ok (emit (LogInvalidIndex cid) s)
  else
    let i := Z.to_nat index in
    d ← slot_at i s;
    match d.1 with
    | Some c =>
        s ← shutdown_conn i true s;
        DeleteConnection i s
    | None => Ok s
    end.

(** [recv_ok]: what [Connection::DoRecvEvent] returns. *)
Definition OnRecvEvent (recv_ok : bool) (now : Z) (cid : ConnectionId)
           (s : TcpServer) : outcome TcpServer :=
  let index := validate s cid in
  if index =? InvalidIndex then Ok (emit (LogInvalidIndex cid) s)
  else
    let i := Z.to_nat index in
    d ← slot_at i s;
    match d.1 with
    | None => Fault NullPointer
    | Some c =>
        let s := emit (ConnRecvEvent (conn_cid c)) s in
        if negb recv_ok then
          let s := emit LogPostRecvFailed s in
          s ← shutdown_conn i true s;
          DeleteConnection i s
        else
          let deadline_seconds := now + connection_timeout (_options s) in
          d ← slot_at i s;
          s ← erase_timeout d.2 s;
          insert_timeout deadline_seconds i s
    end.

(** [send_ok]: what [Connection::DoSendEvent] returns. *)
Definition OnSendEvent (send_ok : bool) (now : Z) (cid : ConnectionId)
           (s : TcpServer) : outcome TcpServer :=
  let index := validate s cid in
  if index =? InvalidIndex then Ok (emit (LogInvalidIndex cid) s)
  else
    let i := Z.to_nat index in
    d ← slot_at i s;
    match d.1 with
    | None => Fault NullPointer
    | Some c =>
        let s := emit (ConnSendEvent (conn_cid c)) s in
        if negb send_ok then
          let s := emit LogPostSendFailed s in
          s ← shutdown_conn i true s;
          DeleteConnection i s
        else
          let deadline_seconds := now + connection_timeout (_options s) in
          d ← slot_at i s;
          s ← erase_timeout d.2 s;
          insert_timeout deadline_seconds i s
    end.

(** The statements of the sweep loop after [++it]. *)
Definition evict (index : nat) (s : TcpServer) : outcome TcpServer :=
  s ← shutdown_conn index true s;
  DeleteConnection index s.

(** "At least 1s to check once". *)
Definition OnCheckingEvent (current : Z) (s : TcpServer)
  : option (outcome TcpServer) :=
  if current - _last_timeout_time s <? 1 then Some (Ok s)
  else
    let s := set_last_timeout_time current s in
    sweep evict (S (length (tr_entries (_timeout_record_list s)))) current
          (tr_begin (_timeout_record_list s)) s.
End WithSentinel.
End Linux.

(** ** The IOCP build: [core/windows/tcp_server.cc] *)

Module Windows.
Section WithSentinel.
Variable InvalidConnectionId : ConnectionId.
Local Abbreviation validate := (CheckConnectionId InvalidConnectionId).

(** [listener_e], [rs_e]: what the two [Init] calls of the collaborators
    return; [now]: the value of [Now()]. *)
Definition Init (listener_e rs_e : raptor_error) (now : Z)
           (options : RaptorOptions) (s : TcpServer)
  : raptor_error * TcpServer :=
  if negb (_shutdown s) then (err_already_running, s)
  else
    let s := set_listener (Some new_worker) s in
    let s := set_rs_thread (Some new_worker) s in
    if is_error listener_e then (listener_e, s)
    else if is_error rs_e then (rs_e, s)
    else
      let s := set_shutdown false s in
      let s := set_options options s in
      let s := set_count 0 s in
      let s := set_mq_thd new_worker s in
      let s := set_mgr (resize RESERVED_CONNECTION_COUNT (_mgr s)) s in
      let s := foldl (fun s i => push_free i s) s
                     (seq 0 RESERVED_CONNECTION_COUNT) in
      let n := now in
      let s := set_magic_number (u16 (Z.land (Z.shiftr n 16) 0xffff)) s in
      let s := set_last_timeout_time n s in
      (RAPTOR_ERROR_NONE, s).

Definition Start (listener_ok rs_ok : bool) (s : TcpServer)
  : outcome (raptor_error * TcpServer) :=
  match _listener s with
  | None => Fault NullPointer
  | Some l =>
      if negb listener_ok then Ok (err_start_listener, s)
      else
        let s := set_listener (Some (start_worker l)) s in
        match _rs_thread s with
        | None => Fault NullPointer
        | Some r =>
            if negb rs_ok then Ok (err_start_rs_thread, s)
            else
              let s := set_rs_thread (Some (start_worker r)) s in
              let s := set_mq_thd (start_worker (_mq_thd s)) s in
              Ok (RAPTOR_ERROR_NONE, s)
        end
  end.

Definition Shutdown (s : TcpServer) : outcome TcpServer :=
  if negb (_shutdown s) then
    let s := set_shutdown true s in
    match _listener s, _rs_thread s with
    | Some l, Some r =>
        let s := set_listener (Some (stop_worker l)) s in
        let s := set_rs_thread (Some (stop_worker r)) s in
        let s := emit CvSignal s in
        let s := set_mq_thd (stop_worker (_mq_thd s)) s in
        let s := set_timeout_record_list (tr_clear (_timeout_record_list s)) s in
        let s := set_free_index_list [] s in
        let s := shutdown_all (_mgr s) s in
        let s := set_mgr [] s in
        let s := set_count (drain (_mpscq s) (_count s)) s in
        let s := set_mpscq [] s in
        Ok s
    | _, _ => Fault NullPointer
    end
  else Ok s.

Definition destructor (s : TcpServer) : outcome TcpServer :=
  if negb (_shutdown s) then Shutdown s else Ok s.

Definition GetConnection (index : nat) (s : TcpServer) : outcome (option Connection) :=
  d ← slot_at index s;
  Ok d.1.

(** [conn_send]: what [Connection::SendWithHeader] returns. *)
Definition SendWithHeader (conn_send : bool) (cid : ConnectionId)
           (hdr_len data_len : Z) (s : TcpServer) : outcome (bool * TcpServer) :=
  let index := validate s cid in
  if index =? InvalidIndex then Ok (false, s)
  else
    con ← GetConnection (Z.to_nat index) s;
    match con with
    | Some c => Ok (conn_send, emit (ConnSend (conn_cid c) (hdr_len + data_len)) s)
    | None => Ok (false, s)
    end.

Definition Send (conn_send : bool) (cid : ConnectionId) (len : Z)
           (s : TcpServer) : outcome (bool * TcpServer) :=
  SendWithHeader conn_send cid 0 len s.

Definition DeleteConnection (index : nat) (s : TcpServer) : outcome TcpServer :=
  d ← slot_at index s;
  match d.1 with
  | None => Ok s
  | Some _ =>
      s ← set_first index None s;
      d ← slot_at index s;
      s ← erase_timeout d.2 s;
      s ← set_second index End s;
      Ok (push_free index s)
  end.

Definition RefreshTime (now : Z) (index : nat) (s : TcpServer) : outcome TcpServer :=
  d ← slot_at index s;
  match d.1 with
  | None => Ok s
  | Some _ =>
      let deadline_seconds := now + connection_timeout (_options s) in
      s ← erase_timeout d.2 s;
      insert_timeout deadline_seconds index s
  end.

Definition CloseConnection (cid : ConnectionId) (s : TcpServer)
  : outcome (bool * TcpServer) :=
  let index := validate s cid in
  if index =? InvalidIndex then Ok (false, s)
  else
    let i := Z.to_nat index in
    con ← GetConnection i s;
    match con with
    | Some c =>
        let s := emit (ConnShutdown (conn_cid c) false) s in
        s ← DeleteConnection i s;
        Ok (true, s)
    | None => Ok (true, s)
    end.

(** [now]: the value of [Now()]; [async_recv]: what [Connection::AsyncRecv]
    returns. *)
Definition OnNewConnection (async_recv : bool) (now : Z) (sock : Z)
           (listen_port : Z) (s : TcpServer) : outcome TcpServer :=
  if bool_decide (_free_index_list s = [])
     && (Z.of_nat (length (_mgr s)) >=? max_connections (_options s))
  then
    Ok (emit (SocketShutdown sock)
             (emit (LogMaxConnections (max_connections (_options s))) s))
  else
    s ← (if bool_decide (_free_index_list s = []) then grow s else Ok s);
    match _free_index_list s with
    | [] => Fault EmptyList
    | index :: rest =>
        let s := set_free_index_list rest s in
        let cid := BuildConnectionId (_magic_number s) (u16 listen_port)
                                     (Z.of_nat index) in
        let deadline_second := now + connection_timeout (_options s) in
        let conn := {| conn_cid := cid; conn_sock := sock |} in
        let s := emit (ConnInit cid sock) s in
        let s := emit (ConnSetProtocol cid) s in
        match _rs_thread s with
        | None => Fault NullPointer
        | Some _ =>
            let s := emit (EngineAdd sock cid) s in
            let s := emit (ConnAsyncRecv cid) s in
            if async_recv then
              let s := emit (ConnShutdown cid true) s in
              Ok (push_free index s)
            else
              s ← set_first index (Some conn) s;
              insert_timeout deadline_second index s
        end
    end.

Definition OnErrorEvent (cid : ConnectionId) (s : TcpServer) : outcome TcpServer :=
  let index := validate s cid in
  if index =? InvalidIndex then Ok (emit (LogInvalidIndex cid) s)
  else
    let i := Z.to_nat index in
    con ← GetConnection i s;
    match con with
    | Some c =>
        let s := emit (ConnShutdown (conn_cid c) true) s in
        DeleteConnection i s
    | None => Ok s
    end.

(** [recv_ok]: what [Connection::OnRecvEvent] returns. *)
Definition OnRecvEvent (recv_ok : bool) (now : Z) (cid : ConnectionId)
           (s : TcpServer) : outcome TcpServer :=
  let index := validate s cid in
  if index =? InvalidIndex then Ok (emit (LogInvalidIndex cid) s)
  else
    let i := Z.to_nat index in
    con ← GetConnection i s;
    match con with
    | None => Ok s
    | Some c =>
        let s := emit (ConnRecvEvent (conn_cid c)) s in
        if recv_ok then RefreshTime now i s
        else
          let s := emit (ConnShutdown (conn_cid c) true) s in
          s ← DeleteConnection i s;
          Ok (emit LogPostRecvFailed s)
    end.

(** [send_ok]: what [Connection::OnSendEvent] returns. *)
Definition OnSendEvent (send_ok : bool) (now : Z) (cid : ConnectionId)
           (s : TcpServer) : outcome TcpServer :=
  let index := validate s cid in
  if index =? InvalidIndex then Ok (emit (LogInvalidIndex cid) s)
  else
    let i := Z.to_nat index in
    con ← GetConnection i s;
    match con with
    | None => Ok s
    | Some c =>
        let s := emit (ConnSendEvent (conn_cid c)) s in
        if send_ok then RefreshTime now i s
        else
          let s := emit (ConnShutdown (conn_cid c) true) s in
          s ← DeleteConnection i s;
          Ok (emit LogPostSendFailed s)
    end.

(** The statements of the sweep loop after [++it]. *)
Definition evict (index : nat) (s : TcpServer) : outcome TcpServer :=
  s ← shutdown_conn index true s;
  s ← set_first index None s;
  d ← slot_at index s;
  s ← erase_timeout d.2 s;
  s ← set_second index End s;
  Ok (push_free index s).

(** "At least 3s to check once". *)
Definition OnCheckingEvent (current : Z) (s : TcpServer)
  : option (outcome TcpServer) :=
  if current - _last_timeout_time s <? 3 then Some (Ok s)
  else
    let s := set_last_timeout_time current s in
    sweep evict (S (length (tr_entries (_timeout_record_list s)))) current
          (tr_begin (_timeout_record_list s)) s.
End WithSentinel.
End Windows.

(** ** Concrete servers used by the examples *)

(** The all-ones sentinel (the data model allows all-ones or zero). *)
Definition sentinel_ones : ConnectionId := 0xffffffffffffffff.

Definition options_of (max timeout : Z) : RaptorOptions :=
  {| max_connections := max; connection_timeout := timeout |}.

(** A server of the epoll build after a successful [Init] at time [now]. *)
Definition linux_server (now max timeout : Z) : TcpServer :=
  (Linux.Init RAPTOR_ERROR_NONE RAPTOR_ERROR_NONE RAPTOR_ERROR_NONE now
              (options_of max timeout) constructed).2.

(** A server of the IOCP build after a successful [Init] at time [now]. *)
Definition windows_server (now max timeout : Z) : TcpServer :=
  (Windows.Init RAPTOR_ERROR_NONE RAPTOR_ERROR_NONE now
                (options_of max timeout) constructed).2.

(** ** Consistency of the timeout index with the slot table *)

(** The slot named by a timeout entry holds a connection, and the iterator
    kept in the slot designates that entry (invariants I2 and I3 of the
    data model, seen from the index). *)
Definition live_at (s : TcpServer) (e : TimeoutEntry) : Prop :=
  exists c, _mgr s !! te_index e = Some (Some c, It (te_node e)).

Definition deadline_le (a b : TimeoutEntry) : Prop :=
  te_deadline a <= te_deadline b.

Record timeouts_wf (s : TcpServer) : Prop := {
  wf_nodes : NoDup (map te_node (tr_entries (_timeout_record_list s)));
  wf_sorted : StronglySorted deadline_le (tr_entries (_timeout_record_list s));
  wf_live : Forall (live_at s) (tr_entries (_timeout_record_list s))
}.

(** The whole table invariant (I1 to I4): the index is consistent, node
    identities are below the next fresh one, every live slot has its entry,
    an empty slot keeps no iterator into the index, and the free list names
    the empty slots, once each. *)
Record table_wf (s : TcpServer) : Prop := {
  twf_timeouts : timeouts_wf s;
  twf_fresh : Forall (fun e => (te_node e < tr_fresh (_timeout_record_list s))%nat)
                     (tr_entries (_timeout_record_list s));
  twf_slots : forall i c it, _mgr s !! i = Some (Some c, it) ->
      exists e : TimeoutEntry,
        e ∈ tr_entries (_timeout_record_list s) /\
        it = It (te_node e) /\ te_index e = i;
  twf_empty : forall i it, _mgr s !! i = Some (None, it) ->
      (it = End \/ it = Singular) /\ i ∈ _free_index_list s;
  twf_free : Forall (fun i => exists it, _mgr s !! i = Some (None, it))
                    (_free_index_list s);
  twf_free_nodup : NoDup (_free_index_list s)
}.

Definition expired (current : Z) (e : TimeoutEntry) : bool :=
  te_deadline e <=? current.

(** The entries the sweep loop visits before its [break]. *)
Fixpoint expired_prefix (current : Z) (l : list TimeoutEntry) : list TimeoutEntry :=
  match l with
  | [] => []
  | e :: l' => if expired current e then e :: expired_prefix current l' else []
  end.

(** What one iteration of the sweep leaves behind for the entry [e]. *)
Definition evicted (s : TcpServer) (e : TimeoutEntry) : TcpServer :=
  let s1 := match _mgr s !! te_index e with
            | Some (Some c, _) => emit (ConnShutdown (conn_cid c) true) s
            | _ => s
            end in
  push_free (te_index e)
    (set_mgr (<[te_index e := (None, End)]> (_mgr s1))
       (set_timeout_record_list
          {| tr_entries :=
               List.filter (fun x => negb (is_node (te_node e) x))
                           (tr_entries (_timeout_record_list s1));
             tr_fresh := tr_fresh (_timeout_record_list s1) |} s1)).

(** The [Connection::Shutdown(true)] calls of a sweep, in order. *)
Fixpoint shutdown_calls (mgr : list ConnectionData) (l : list TimeoutEntry)
  : list effect :=
  match l with
  | [] => []
  | e :: l' =>
      match mgr !! te_index e with
      | Some (Some c, _) => ConnShutdown (conn_cid c) true :: shutdown_calls mgr l'
      | _ => shutdown_calls mgr l'
      end
  end.

(** The slot table once the slots of the entries [l] are emptied. *)
Definition clear_slots (mgr : list ConnectionData) (l : list TimeoutEntry)
  : list ConnectionData :=
  foldl (fun m e => <[te_index e := (None, End)]> m) mgr l.

(** ** The lifecycle of the state-machine diagram, read off the members *)

Inductive phase : Set := Fresh | Initialised | Running | Stopped.

Definition phase_of (s : TcpServer) : phase :=
  if _shutdown s then
    match _listener s with None => Fresh | Some _ => Stopped end
  else if w_started (_mq_thd s) then Running else Initialised.

(** ** The magic number *)

(** [_magic_number] as [Init] computes it from [Now()]. *)
Definition magic_of_time (now : Z) : Z := u16 (Z.land (Z.shiftr now 16) 0xffff).

(** How many of the restart delays [1 .. window] seconds after an [Init] at
    [t1] give the restarted server the magic of the first run. *)
Definition collisions (t1 : Z) (window : nat) : nat :=
  length (List.filter (fun d => magic_of_time (t1 + Z.of_nat d) =? magic_of_time t1)
                      (seq 1 window)).

(** ** Reachable states *)

Definition table_empty (s : TcpServer) : Prop :=
  _mgr s = [] /\ _free_index_list s = [] /\
  tr_entries (_timeout_record_list s) = [].

(** The invariant of the server: the table is consistent, and it is empty
    while the server is shut down. *)
Definition server_inv (s : TcpServer) : Prop :=
  table_wf s /\ (_shutdown s = true -> table_empty s).

(** The members that only [Init], [Start] and [Shutdown] assign. *)
Definition lifecycle (s : TcpServer)
  : bool * option Worker * option Worker * option Worker * option Worker :=
  (_shutdown s, _listener s, _recv_thread s, _send_thread s, _rs_thread s).

(** What an operation other than those three keeps. *)
Definition keeps (s s' : TcpServer) : Prop :=
  lifecycle s' = lifecycle s /\
  (table_wf s -> table_wf s') /\
  (table_empty s -> table_empty s').

(** The collaborators of each build exist. *)
Definition linux_workers (s : TcpServer) : Prop :=
  is_Some (_listener s) /\ is_Some (_recv_thread s) /\ is_Some (_send_thread s).

Definition windows_workers (s : TcpServer) : Prop :=
  is_Some (_listener s) /\ is_Some (_rs_thread s).

Section Reachable.
Variable InvalidConnectionId : ConnectionId.

(** One call, on the epoll build, of a public operation, of an acceptor or
    I/O callback, or of an egress notification, that returns. *)
Inductive linux_step : TcpServer -> TcpServer -> Prop :=
| lstep_Init le re se now o s :
    linux_step s (Linux.Init le re se now o s).2
| lstep_Start lo ro so s e s' :
    Linux.Start lo ro so s = Ok (e, s') -> linux_step s s'
| lstep_Shutdown s s' :
    Linux.Shutdown s = Ok s' -> linux_step s s'
| lstep_Send ok cid len s b s' :
    Linux.Send InvalidConnectionId ok cid len s = Ok (b, s') -> linux_step s s'
| lstep_CloseConnection cid s b s' :
    Linux.CloseConnection InvalidConnectionId cid s = Ok (b, s') -> linux_step s s'
| lstep_OnNewConnection now sock port s s' :
    Linux.OnNewConnection now sock port s = Ok s' -> linux_step s s'
| lstep_OnErrorEvent cid s s' :
    Linux.OnErrorEvent InvalidConnectionId cid s = Ok s' -> linux_step s s'
| lstep_OnRecvEvent ok now cid s s' :
    Linux.OnRecvEvent InvalidConnectionId ok now cid s = Ok s' -> linux_step s s'
| lstep_OnSendEvent ok now cid s s' :
    Linux.OnSendEvent InvalidConnectionId ok now cid s = Ok s' -> linux_step s s'
| lstep_OnCheckingEvent current s s' :
    Linux.OnCheckingEvent current s = Some (Ok s') -> linux_step s s'
| lstep_OnConnectionArrived cid s :
    linux_step s (OnConnectionArrived cid s)
| lstep_OnDataReceived cid slice s :
    linux_step s (OnDataReceived cid slice s)
| lstep_OnConnectionClosed cid s :
    linux_step s (OnConnectionClosed cid s).

Inductive linux_reachable : TcpServer -> Prop :=
| lreach_constructed : linux_reachable constructed
| lreach_step s s' :
    linux_reachable s -> linux_step s s' -> linux_reachable s'.
(** The same for the IOCP build. *)
Inductive windows_step : TcpServer -> TcpServer -> Prop :=
| wstep_Init le re now o s :
    windows_step s (Windows.Init le re now o s).2
| wstep_Start lo ro s e s' :
    Windows.Start lo ro s = Ok (e, s') -> windows_step s s'
| wstep_Shutdown s s' :
    Windows.Shutdown s = Ok s' -> windows_step s s'
| wstep_SendWithHeader ok cid hdr_len data_len s b s' :
    Windows.SendWithHeader InvalidConnectionId ok cid hdr_len data_len s
    = Ok (b, s') -> windows_step s s'
| wstep_CloseConnection cid s b s' :
    Windows.CloseConnection InvalidConnectionId cid s = Ok (b, s') ->
    windows_step s s'
| wstep_OnNewConnection async_recv now sock port s s' :
    Windows.OnNewConnection async_recv now sock port s = Ok s' ->
    windows_step s s'
| wstep_OnErrorEvent cid s s' :
    Windows.OnErrorEvent InvalidConnectionId cid s = Ok s' -> windows_step s s'
| wstep_OnRecvEvent ok now cid s s' :
    Windows.OnRecvEvent InvalidConnectionId ok now cid s = Ok s' ->
    windows_step s s'
| wstep_OnSendEvent ok now cid s s' :
    Windows.OnSendEvent InvalidConnectionId ok now cid s = Ok s' ->
    windows_step s s'
| wstep_OnCheckingEvent current s s' :
    Windows.OnCheckingEvent current s = Some (Ok s') -> windows_step s s'
| wstep_OnConnectionArrived cid s :
    windows_step s (OnConnectionArrived cid s)
| wstep_OnDataReceived cid slice s :
    windows_step s (OnDataReceived cid slice s)
| wstep_OnConnectionClosed cid s :
    windows_step s (OnConnectionClosed cid s).

Inductive windows_reachable : TcpServer -> Prop :=
| wreach_constructed : windows_reachable constructed
| wreach_step s s' :
    windows_reachable s -> windows_step s s' -> windows_reachable s'.
End Reachable.

(** ** Scenarios *)

(** Three clients in sequence on a server of the epoll build initialised
    with [max_connections = 2]. *)
Definition cap_two : TcpServer := linux_server 1700000000 2 60.

Definition three_clients : outcome TcpServer :=
  s ← Linux.OnNewConnection 1700000001 11 8080 cap_two;
  s ← Linux.OnNewConnection 1700000002 12 8080 s;
  Linux.OnNewConnection 1700000003 13 8080 s.

(** A server with room for a thousand connections, of which the table
    holds the first hundred slots. *)
Definition cap_thousand : TcpServer := linux_server 1700000000 1000 60.
Definition cap_thousand_win : TcpServer := windows_server 1700000000 1000 60.

(** The handle with the magic of [s], port 8080 and slot [index]. *)
Definition handle (s : TcpServer) (index : Z) : ConnectionId :=
  BuildConnectionId (_magic_number s) 8080 index.

(** One client accepted, then its slot evicted. *)
Definition accepted_once : outcome TcpServer :=
  Linux.OnNewConnection 1700000001 11 8080 cap_thousand.

(** A running server: [Init], then [Start] with every stage succeeding. *)
Definition started : outcome (raptor_error * TcpServer) :=
  Linux.Start true true true cap_thousand.

(** The lifecycle guard on [start] as the state machine words it. *)
Definition start_rejected_outside_Initialised : Prop :=
  forall (listener_ok recv_ok send_ok : bool) (s : TcpServer),
    phase_of s <> Initialised ->
    exists e, is_error e = true /\
              Linux.Start listener_ok recv_ok send_ok s = Ok (e, s).

(** [Init] at [t1], [Shutdown], [Init] again at [t2]: the server after the
    restart boundary. *)
Definition restarted (t1 t2 : Z) : outcome TcpServer :=
  s ← Linux.Shutdown (linux_server t1 1000 60);
  Ok (Linux.Init RAPTOR_ERROR_NONE RAPTOR_ERROR_NONE RAPTOR_ERROR_NONE t2
                 (options_of 1000 60) s).2.

(** The server of [started]. *)
Definition running : TcpServer :=
  match started with
  | Ok (_, s) => s
  | Fault _ => constructed
  end.

(** The same on the IOCP build. *)
Definition started_win : outcome (raptor_error * TcpServer) :=
  Windows.Start true true cap_thousand_win.

Definition running_win : TcpServer :=
  match started_win with
  | Ok (_, s) => s
  | Fault _ => constructed
  end.

Definition windows_start_rejected_outside_Initialised : Prop :=
  forall (listener_ok rs_ok : bool) (s : TcpServer),
    phase_of s <> Initialised ->
    exists e, is_error e = true /\
              Windows.Start listener_ok rs_ok s = Ok (e, s).

(** Three clients with deadlines 61, 62 and 63 seconds after the epoch of
    the example, on the table of [cap_thousand]. *)
Definition three_live : outcome TcpServer :=
  s ← Linux.OnNewConnection 1700000001 11 8080 cap_thousand;
  s ← Linux.OnNewConnection 1700000002 12 8080 s;
  Linux.OnNewConnection 1700000003 13 8080 s.

(** The state inside an [outcome], [constructed] standing for a fault. *)
Definition state_of (m : outcome TcpServer) : TcpServer :=
  match m with Ok s => s | Fault _ => constructed end.

(** ** What the table operations leave alone *)

(** The members that no acceptor or I/O callback, no sweep and no eviction
    assigns. *)
Definition untouched (s : TcpServer)
  : bool * RaptorOptions * option Worker * option Worker * option Worker *
    option Worker * Worker * list TcpMessageNode * Z * Z :=
  (_shutdown s, _options s, _listener s, _recv_thread s, _send_thread s,
   _rs_thread s, _mq_thd s, _mpscq s, _count s, _magic_number s).

(** The handle of [c] is the one [OnNewConnection] builds for slot [i] with
    the magic of [s]. *)
Definition built_here (s : TcpServer) (i : nat) (c : Connection) : Prop :=
  exists port : Z,
    conn_cid c = BuildConnectionId (_magic_number s) port (Z.of_nat i).

(** What those operations may do to the slot table: it does not shrink, it
    grows at most to [max_connections], and a connection found in a slot
    was there before or was built for this slot. *)
Definition evolves (s s' : TcpServer) : Prop :=
  untouched s' = untouched s /\
  (length (_mgr s) <= length (_mgr s'))%nat /\
  Z.of_nat (length (_mgr s'))
  <= Z.max (Z.of_nat (length (_mgr s))) (max_connections (_options s)) /\
  forall i c it, _mgr s' !! i = Some (Some c, it) ->
    (exists it0, _mgr s !! i = Some (Some c, it0)) \/ built_here s i c.

(** Every connection of the table carries the handle built for its slot. *)
Definition handles_wf (s : TcpServer) : Prop :=
  forall i c it, _mgr s !! i = Some (Some c, it) -> built_here s i c.

(** The number of slots never exceeds the larger of the reserved count and
    [max_connections]. *)
Definition within_capacity (s : TcpServer) : Prop :=
  Z.of_nat (length (_mgr s))
  <= Z.max (Z.of_nat RESERVED_CONNECTION_COUNT) (max_connections (_options s)).

Definition is_live (d : ConnectionData) : bool :=
  match d.1 with Some _ => true | None => false end.

(** The number of connections the table holds. *)
Definition live_count (s : TcpServer) : nat :=
  length (List.filter is_live (_mgr s)).

(** The [Connection::Shutdown(false)] calls of [Shutdown], in slot order. *)
Definition shutdown_notices (l : list ConnectionData) : list effect :=
  flat_map (fun d : ConnectionData =>
              match d.1 with
              | Some c => [ConnShutdown (conn_cid c) false]
              | None => []
              end) l.

(** Several requests to the collaborators, in order. *)
Definition emit_all (es : list effect) (s : TcpServer) : TcpServer :=
  {| _shutdown := _shutdown s; _options := _options s; _listener := _listener s;
     _recv_thread := _recv_thread s; _send_thread := _send_thread s;
     _rs_thread := _rs_thread s; _mq_thd := _mq_thd s; _mpscq := _mpscq s;
     _count := _count s; _mgr := _mgr s;
     _timeout_record_list := _timeout_record_list s;
     _free_index_list := _free_index_list s;
     _magic_number := _magic_number s;
     _last_timeout_time := _last_timeout_time s;
     effects := effects s ++ es |}.

(** [Shutdown] on a server that is not shut down, member by member. *)
Definition after_Shutdown (s s' : TcpServer) : Prop :=
  _shutdown s' = true /\ _options s' = _options s /\
  _magic_number s' = _magic_number s /\
  _last_timeout_time s' = _last_timeout_time s /\
  _mgr s' = [] /\ _free_index_list s' = [] /\
  tr_entries (_timeout_record_list s') = [] /\
  _mpscq s' = [] /\ _count s' = drain (_mpscq s) (_count s) /\
  effects s' = effects s ++ CvSignal :: shutdown_notices (_mgr s) /\
  w_stopped (_mq_thd s') = true.


(** The table, the options and the clock members right after a successful
    [Init] called at [now] with [options]. *)
Definition initialised (now : Z) (options : RaptorOptions) (s : TcpServer) : Prop :=
  _shutdown s = false /\
  _mgr s = replicate RESERVED_CONNECTION_COUNT (None, Singular) /\
  _free_index_list s = seq 0 RESERVED_CONNECTION_COUNT /\
  tr_entries (_timeout_record_list s) = [] /\
  _options s = options /\ _count s = 0 /\
  _magic_number s = magic_of_time now /\ _last_timeout_time s = now.

(** An operation returns: it does not run into undefined behaviour. *)
Definition returns {A : Type} (m : outcome A) : Prop := exists a, m = Ok a.

(** ** The dispatcher: [TcpServer::MessageQueueThread] and [TcpServer::Dispatch] *)

(** The calls on [ITcpServerService]. *)
Inductive callback : Set :=
| OnConnected (cid : ConnectionId)
| OnMessageReceived (cid : ConnectionId) (data : list Z) (len : Z)
| OnClosed (cid : ConnectionId).

(** [TcpServer::Dispatch].  The [default] branch of the [switch] logs an
    unknown message type; [MessageType] has the three enumerators only. *)
Definition Dispatch (msg : TcpMessageNode) : callback :=
  match msg_type msg with
  | kNewConnection => OnConnected (msg_cid msg)
  | kRecvAMessage =>
      OnMessageReceived (msg_cid msg) (msg_slice msg)
                        (Z.of_nat (length (msg_slice msg)))
  | kCloseClient => OnClosed (msg_cid msg)
  end.

(** One turn of the outer loop of [MessageQueueThread]: the thread leaves
    the loop when [_shutdown] is set, waits on the condition variable while
    [_count] is zero, and otherwise pops; a node that was popped takes one
    off [_count] and is dispatched. *)
Inductive turn : Set :=
| Exited
| Waiting
| Popped (cb : option callback) (s : TcpServer).

Definition MessageQueueThread_turn (s : TcpServer) : turn :=
  if _shutdown s then Exited
  else if _count s =? 0 then Waiting
  else
    match _mpscq s with
    | [] => Popped None s
    | msg :: q =>
        Popped (Some (Dispatch msg))
               (set_count (u32 (_count s - 1)) (set_mpscq q s))
    end.

(** The thread, for at most [fuel] turns: the callbacks it made, in order,
    and the state it left. *)
Fixpoint MessageQueueThread (fuel : nat) (s : TcpServer)
  : list callback * TcpServer :=
  match fuel with
  | O => ([], s)
  | S fuel' =>
      match MessageQueueThread_turn s with
      | Exited | Waiting => ([], s)
      | Popped cb s' =>
          let '(cbs, s'') := MessageQueueThread fuel' s' in
          (match cb with Some c => c :: cbs | None => cbs end, s'')
      end
  end.

(** The three egress notifications of a connection. *)
Inductive notification : Set :=
| Arrived (cid : ConnectionId)
| Received (cid : ConnectionId) (slice : list Z)
| Closed (cid : ConnectionId).

(** The message a notification queues. *)
Definition message_of (n : notification) : TcpMessageNode :=
  match n with
  | Arrived cid => {| msg_type := kNewConnection; msg_cid := cid; msg_slice := [] |}
  | Received cid slice =>
      {| msg_type := kRecvAMessage; msg_cid := cid; msg_slice := slice |}
  | Closed cid => {| msg_type := kCloseClient; msg_cid := cid; msg_slice := [] |}
  end.

Definition notify (s : TcpServer) (n : notification) : TcpServer :=
  match n with
  | Arrived cid => OnConnectionArrived cid s
  | Received cid slice => OnDataReceived cid slice s
  | Closed cid => OnConnectionClosed cid s
  end.

(** The callback the service is owed for a notification. *)
Definition callback_of (n : notification) : callback :=
  match n with
  | Arrived cid => OnConnected cid
  | Received cid slice => OnMessageReceived cid slice (Z.of_nat (length slice))
  | Closed cid => OnClosed cid
  end.

(** The states of a server at work: the calls of the reachable states,
    where no notification arrives while the server is shut down (it has no
    connection then), interleaved with the turns of the dispatcher. *)
Inductive serving (step : TcpServer -> TcpServer -> Prop) : TcpServer -> Prop :=
| serving_constructed : serving step constructed
| serving_call s s' :
    serving step s -> step s s' ->
    (_shutdown s = true -> _mpscq s' = _mpscq s) ->
    serving step s'
| serving_turn s cb s' :
    serving step s -> MessageQueueThread_turn s = Popped cb s' ->
    serving step s'.

(** What a call does to the handoff queue and its counter. *)
Definition queue_step (s s' : TcpServer) : Prop :=
  (_shutdown s' = _shutdown s /\ _mpscq s' = _mpscq s /\ _count s' = _count s) \/
  (_shutdown s = true /\ _shutdown s' = false /\
   _mpscq s' = _mpscq s /\ _count s' = 0) \/
  (_shutdown s = false /\ _shutdown s' = true /\
   _mpscq s' = [] /\ _count s' = drain (_mpscq s) (_count s)) \/
  (exists m, s' = push_message m s).

(** ** Listening addresses: [TcpServer::AddListeningPort] and [AddListening] *)

(** A [RefCountedPtr<Status>] with the messages [AppendMessage] has added
    to it; a message is named by the code of the error it was taken from. *)
Inductive Status : Set :=
| StatusNone
| StatusError (code : nat) (appended : list nat).

Definition err_uninitialized : nat := 6.
Definition err_invalid_parameters : nat := 7.

(** The [for] loop over the resolved addresses, [ret] being the status so
    far: [answers] holds, for each address in turn, what
    [TcpListener::AddListeningPort] returns. *)
Fixpoint add_ports (answers : list raptor_error) (ret : Status) : Status :=
  match answers with
  | [] => ret
  | err :: rest =>
      match err with
      | RAPTOR_ERROR_NONE => add_ports rest ret
      | RAPTOR_ERROR code =>
          match ret with
          | StatusNone => add_ports rest (StatusError code [])
          | StatusError first appended =>
              add_ports rest (StatusError first (appended ++ [code]))
          end
      end
  end.

(** The body after the guards, the same text in both builds: [resolve_e]
    is what [raptor_blocking_resolve_address] returns.  The listener is
    subscripted once per address. *)
Definition add_resolved (resolve_e : raptor_error) (answers : list raptor_error)
           (s : TcpServer) : outcome Status :=
  match resolve_e with
  | RAPTOR_ERROR code => Ok (StatusError code [])
  | RAPTOR_ERROR_NONE =>
      match answers, _listener s with
      | [], _ => Ok StatusNone
      | _ :: _, None => Fault NullPointer
      | _ :: _, Some _ => Ok (add_ports answers StatusNone)
      end
  end.

(** Epoll build; [addr_is_null]: whether [addr] is a null pointer. *)
Definition AddListeningPort (addr_is_null : bool) (resolve_e : raptor_error)
           (answers : list raptor_error) (s : TcpServer) : outcome Status :=
  if _shutdown s then Ok (StatusError err_uninitialized [])
  else if addr_is_null then Ok (StatusError err_invalid_parameters [])
  else add_resolved resolve_e answers s.

(** IOCP build: the address is handed to the resolver unchecked. *)
Definition AddListening (resolve_e : raptor_error)
           (answers : list raptor_error) (s : TcpServer) : outcome Status :=
  if _shutdown s then Ok (StatusError err_uninitialized [])
  else add_resolved resolve_e answers s.

(** The codes of the answers that are errors, in order. *)
Definition failures (answers : list raptor_error) : list nat :=
  flat_map (fun e => match e with
                     | RAPTOR_ERROR_NONE => []
                     | RAPTOR_ERROR code => [code]
                     end) answers.

(** ** The client: [core/linux/tcp_client.cc] *)

(** The functions that own no socket call are embedded: [Init],
    [Connect] with [AsyncConnect], [Send], [IsOnline] and [Shutdown].
    [WorkThread], [DoRecv] and [DoSend] are made of [select], [recv] and
    [send] and of the operations of [SliceBuffer] and [Protocol], whose
    code is not among the sources. *)
Module Client.

(** A [Slice]: its bytes. *)
Definition Slice : Set := list Z.

(** The members of [class TcpClient].  A [SliceBuffer] is the sequence of
    the slices [AddSlice] has been given since the last [ClearBuffer]. *)
Record TcpClient : Set := {
  _shutdown : bool;
  _is_connected : bool;
  _fd : Z;
  _thd : Worker;
  _snd_buffer : list Slice;
  _rcv_buffer : list Slice;
  effects : list effect
}.

Definition err_already_running : raptor_error := RAPTOR_ERROR 8.
Definition err_not_initialized : raptor_error := RAPTOR_ERROR 9.
Definition err_invalid_parameter : raptor_error := RAPTOR_ERROR 10.
Definition err_posix_connect : raptor_error := RAPTOR_ERROR 11.

(** [TcpClient::TcpClient]: [_is_connected] is not initialised. *)
Definition constructed (is_connected : bool) : TcpClient :=
  {| _shutdown := true; _is_connected := is_connected; _fd := -1;
     _thd := new_worker; _snd_buffer := []; _rcv_buffer := []; effects := [] |}.

Definition Init (c : TcpClient) : raptor_error * TcpClient :=
  if negb (_shutdown c) then (err_already_running, c)
  else
    (RAPTOR_ERROR_NONE,
     {| _shutdown := false; _is_connected := false; _fd := _fd c;
        _thd := start_worker new_worker;
        _snd_buffer := _snd_buffer c; _rcv_buffer := _rcv_buffer c;
        effects := effects c |}).

Definition set_fd (fd : Z) (c : TcpClient) : TcpClient :=
  {| _shutdown := _shutdown c; _is_connected := _is_connected c; _fd := fd;
     _thd := _thd c; _snd_buffer := _snd_buffer c; _rcv_buffer := _rcv_buffer c;
     effects := effects c |}.

Definition emit (e : effect) (c : TcpClient) : TcpClient :=
  {| _shutdown := _shutdown c; _is_connected := _is_connected c; _fd := _fd c;
     _thd := _thd c; _snd_buffer := _snd_buffer c; _rcv_buffer := _rcv_buffer c;
     effects := effects c ++ [e] |}.

(** The values of [errno] the code tells apart. *)
Inductive errno : Set := EINTR | EWOULDBLOCK | EINPROGRESS | EOTHER.

Definition is_EINTR (e : errno) : bool :=
  match e with EINTR => true | _ => false end.

(** The [do ... while (err < 0 && errno == EINTR)] around [connect]:
    [attempts] holds, for each call in turn, what [connect] returns and the
    value of [errno] after it.  [None]: the loop has not ended within the
    attempts given. *)
Fixpoint connect_loop (attempts : list (Z * errno)) : option (Z * errno) :=
  match attempts with
  | [] => None
  | (err, e) :: rest =>
      if (err <? 0) && is_EINTR e then connect_loop rest else Some (err, e)
  end.

(** [prepare]: what [raptor_tcp_client_prepare_socket] returns, and the
    socket it made; [new_fd] is [&_fd]. *)
Definition AsyncConnect (prepare : raptor_error * Z) (attempts : list (Z * errno))
           (c : TcpClient) : option (raptor_error * TcpClient) :=
  let c := set_fd (-1) c in
  let '(result, sock_fd) := prepare in
  if is_error result then Some (result, c)
  else
    match connect_loop attempts with
    | None => None
    | Some (_, e) =>
        match e with
        | EWOULDBLOCK | EINPROGRESS => Some (RAPTOR_ERROR_NONE, set_fd sock_fd c)
        | _ => Some (err_posix_connect, emit (SocketShutdown sock_fd) c)
        end
    end.

(** [addr_empty]: whether [addr] is the empty string; [resolve]: what
    [raptor_blocking_resolve_address] returns and the number of addresses
    it found.  [None]: the call does not return ([RAPTOR_ASSERT] fails, or
    the connect loop has not ended). *)
Definition Connect (addr_empty : bool) (resolve : raptor_error * nat)
           (prepare : raptor_error * Z) (attempts : list (Z * errno))
           (c : TcpClient) : option (raptor_error * TcpClient) :=
  if _shutdown c then Some (err_not_initialized, c)
  else if addr_empty then Some (err_invalid_parameter, c)
  else
    let '(e, naddrs) := resolve in
    if is_error e then Some (e, c)
    else if (0 <? naddrs)%nat then AsyncConnect prepare attempts c
    else None.

Definition IsOnline (c : TcpClient) : bool := negb (_fd c =? -1).

(** [build_header] is [Protocol::BuildPackageHeader]; [buff] holds the
    [len] bytes at the pointer. *)
Definition Send (build_header : Z -> Slice) (buff : Slice) (c : TcpClient)
  : bool * TcpClient :=
  if negb (IsOnline c) then (false, c)
  else
    let hdr := build_header (Z.of_nat (length buff)) in
    (true,
     {| _shutdown := _shutdown c; _is_connected := _is_connected c; _fd := _fd c;
        _thd := _thd c; _snd_buffer := (_snd_buffer c ++ [hdr]) ++ [buff];
        _rcv_buffer := _rcv_buffer c; effects := effects c |}).

Definition Shutdown (c : TcpClient) : TcpClient :=
  if negb (_shutdown c) then
    {| _shutdown := true; _is_connected := _is_connected c; _fd := -1;
       _thd := stop_worker (_thd c); _snd_buffer := []; _rcv_buffer := [];
       effects := effects c ++ [SocketShutdown (_fd c)] |}
  else c.

(** The calls of [Send] for the buffers [buffs], in order: what each
    returned, and the client they leave. *)
Fixpoint send_all (build_header : Z -> Slice) (buffs : list Slice)
         (c : TcpClient) : list bool * TcpClient :=
  match buffs with
  | [] => ([], c)
  | buff :: rest =>
      let '(b, c1) := Send build_header buff c in
      let '(bs, c2) := send_all build_header rest c1 in
      (b :: bs, c2)
  end.

(** The slices a call of [Send] queues for [buff]. *)
Definition framed (build_header : Z -> Slice) (buff : Slice) : list Slice :=
  [build_header (Z.of_nat (length buff)); buff].
End Client.

(** ** Scenarios of the further properties *)

(** The table of [three_live], the handle of its second client and that
    client's connection. *)
Definition live3 : TcpServer := state_of three_live.
Definition handle1 : ConnectionId := handle cap_thousand 1.
Definition conn1 : Connection := {| conn_cid := handle1; conn_sock := 12 |}.

(** A fourth client, four seconds after [Init]. *)
Definition fourth_accepted : TcpServer :=
  state_of (Linux.OnNewConnection 1700000004 14 8080 live3).
Definition conn3 : Connection :=
  {| conn_cid := handle cap_thousand 3; conn_sock := 14 |}.

(** The sweep of [live3] at second 62. *)
Definition swept : TcpServer :=
  match Linux.OnCheckingEvent 1700000062 live3 with
  | Some (Ok s) => s
  | _ => constructed
  end.

(** The second client closed by the application, active at second 10, and
    failed by an error event. *)
Definition closed_one : TcpServer :=
  match Linux.CloseConnection sentinel_ones handle1 live3 with
  | Ok (_, s) => s
  | Fault _ => constructed
  end.
Definition refreshed_one : TcpServer :=
  state_of (Linux.OnRecvEvent sentinel_ones true 1700000010 handle1 live3).
Definition errored_one : TcpServer :=
  state_of (Linux.OnErrorEvent sentinel_ones handle1 live3).

(** [live3] shut down. *)
Definition shut_down : TcpServer := state_of (Linux.Shutdown live3).

(** A notification that arrives after [Shutdown], and [Init] after it. *)
Definition queued_while_shut_down : TcpServer :=
  OnConnectionArrived handle1 shut_down.
Definition initialised_over_a_queue : TcpServer :=
  (Linux.Init RAPTOR_ERROR_NONE RAPTOR_ERROR_NONE RAPTOR_ERROR_NONE
              1700000100 (options_of 8 60) queued_while_shut_down).2.

(** One notification on the initialised server. *)
Definition notified : TcpServer := OnConnectionArrived handle1 cap_thousand.

(** Three notifications of one connection. *)
Definition three_notifications : list notification :=
  [Arrived handle1; Received handle1 [104; 105]; Closed handle1].

(** A client that is initialised and holds the socket 5; a protocol whose
    header is the length of the payload. *)
Definition client_running : Client.TcpClient :=
  Client.set_fd 5 (Client.Init (Client.constructed false)).2.
Definition client_initialised : Client.TcpClient :=
  (Client.Init (Client.constructed false)).2.
Definition length_header (len : Z) : Client.Slice := [len].

(** Clients accepted one after the other on one listening port. *)
Fixpoint accept_each (now listen_port : Z) (socks : list Z) (s : TcpServer)
  : outcome TcpServer :=
  match socks with
  | [] => Ok s
  | sock :: rest =>
      s1 ← Linux.OnNewConnection now sock listen_port s;
      accept_each now listen_port rest s1
  end.

(** After the second client of [live3] was closed, ninety-eight more
    clients arrive: the free list comes round to the slot that was freed. *)
Definition slot_reused : TcpServer :=
  state_of (accept_each 1700000020 8080
                        (map Z.of_nat (seq 101 98)) closed_one).
Definition conn1_again : Connection := {| conn_cid := handle1; conn_sock := 198 |}.

(** A hundred clients, one for every reserved slot, on a server with room
    for a thousand connections and on one with room for a hundred and
    fifty. *)
Definition hundred_clients (s : TcpServer) : TcpServer :=
  state_of (accept_each 1700000001 8080 (map Z.of_nat (seq 11 100)) s).
Definition cap_150 : TcpServer := linux_server 1700000000 150 60.

(** * Properties *)

(** ** The codec and the validator *)

Lemma u32_range (x : Z) : 0 <= u32 x < 2 ^ 32.
Proof.
  unfold u32. change 0xffffffff with (Z.ones 32).
  rewrite Z.land_ones by lia. apply Z.mod_pos_bound. lia.
Qed.

Lemma u16_range (x : Z) : 0 <= u16 x < 2 ^ 16.
Proof.
  unfold u16. change 0xffff with (Z.ones 16).
  rewrite Z.land_ones by lia. apply Z.mod_pos_bound. lia.
Qed.

Lemma u32_small (x : Z) : 0 <= x < 2 ^ 32 -> u32 x = x.
Proof.
  intros H. unfold u32. change 0xffffffff with (Z.ones 32).
  rewrite Z.land_ones by lia. apply Z.mod_small. lia.
Qed.

Lemma u16_small (x : Z) : 0 <= x < 2 ^ 16 -> u16 x = x.
Proof.
  intros H. unfold u16. change 0xffff with (Z.ones 16).
  rewrite Z.land_ones by lia. apply Z.mod_small. lia.
Qed.

Lemma InvalidIndex_value : InvalidIndex = 2 ^ 32 - 1.
Proof. reflexivity. Qed.

Section ValidateFacts.
Variable InvalidConnectionId : ConnectionId.
Local Abbreviation validate := (CheckConnectionId InvalidConnectionId).

Lemma Check_cases (s : TcpServer) (cid : ConnectionId) :
  (validate s cid = InvalidIndex /\
   (cid = InvalidConnectionId \/ GetMagicNumber cid <> _magic_number s \/
    max_connections (_options s) <= GetUserId cid)) \/
  (validate s cid = GetUserId cid /\
   cid <> InvalidConnectionId /\ GetMagicNumber cid = _magic_number s /\
   GetUserId cid < max_connections (_options s)).
Proof.
  unfold CheckConnectionId.
  destruct (Z.eqb_spec cid InvalidConnectionId) as [->|Hne]; [left; auto|].
  destruct (Z.eqb_spec (GetMagicNumber cid) (_magic_number s)) as [Hm|Hm]; simpl;
    [|left; auto].
  destruct (Z.geb_spec (GetUserId cid) (max_connections (_options s))) as [Hu|Hu];
    [left; split; auto; right; right; lia|right; repeat split; auto; lia].
Qed.

(** C3.  With [max_connections] a [uint32_t], [CheckConnectionId] returns
    [InvalidIndex] exactly when the handle is the invalid sentinel, or its
    magic field is not the server's magic, or its embedded index is at
    least [max_connections]; in every other case it returns the embedded
    index. *)
Theorem CheckConnectionId_spec (s : TcpServer) (cid : ConnectionId) :
  0 <= max_connections (_options s) < 2 ^ 32 ->
  (validate s cid = InvalidIndex <->
   cid = InvalidConnectionId \/ GetMagicNumber cid <> _magic_number s \/
   max_connections (_options s) <= GetUserId cid) /\
  (validate s cid <> InvalidIndex -> validate s cid = GetUserId cid).
Proof.
  intros Hmax.
  pose proof (u32_range cid) as Hr. fold (GetUserId cid) in Hr.
  destruct (Check_cases s cid) as [[E H]|[E (H1 & H2 & H3)]].
  - split; [split; auto|congruence].
  - split; [|auto]. rewrite E, InvalidIndex_value. split.
    + intros E'. lia.
    + intros [?|[?|?]]; [congruence|congruence|lia].
Qed.

(** A validated index is below [max_connections]. *)
Lemma Check_valid_bound (s : TcpServer) (cid : ConnectionId) :
  validate s cid <> InvalidIndex ->
  0 <= validate s cid < max_connections (_options s).
Proof.
  intros H. pose proof (u32_range cid) as Hr. fold (GetUserId cid) in Hr.
  destruct (Check_cases s cid) as [[E _]|[E (_ & _ & H3)]]; [congruence|].
  rewrite E. lia.
Qed.
End ValidateFacts.

Lemma bits_above (x n k : Z) :
  0 <= x < 2 ^ k -> k <= n -> 0 <= k -> Z.testbit x n = false.
Proof.
  intros Hx Hn Hk.
  destruct (Z.eq_dec x 0) as [->|Hnz]; [apply Z.bits_0|].
  apply Z.bits_above_log2; [lia|].
  apply Z.lt_le_trans with k; [apply Z.log2_lt_pow2; lia|lia].
Qed.

(** The fields come back out of a handle (R1). *)
Lemma GetUserId_Build (m p i : Z) :
  GetUserId (BuildConnectionId m p i) = u32 i.
Proof.
  unfold GetUserId, BuildConnectionId.
  pose proof (u16_range m). pose proof (u16_range p). pose proof (u32_range i).
  apply Z.bits_inj'. intros n Hn.
  unfold u32 at 1. change 0xffffffff with (Z.ones 32).
  rewrite Z.land_spec, !Z.lor_spec.
  destruct (Z.ltb_spec n 32) as [Hlt|Hge].
  - rewrite Z.ones_spec_low by lia.
    rewrite !Z.shiftl_spec_low by lia. simpl. apply andb_true_r.
  - rewrite Z.ones_spec_high by lia. rewrite andb_false_r.
    symmetry. apply (bits_above (u32 i) n 32); lia.
Qed.

Lemma GetMagicNumber_Build (m p i : Z) :
  GetMagicNumber (BuildConnectionId m p i) = u16 m.
Proof.
  unfold GetMagicNumber, BuildConnectionId.
  pose proof (u16_range m). pose proof (u16_range p). pose proof (u32_range i).
  apply Z.bits_inj'. intros n Hn.
  unfold u16 at 1. change 0xffff with (Z.ones 16).
  rewrite Z.land_spec, Z.shiftr_spec, !Z.lor_spec by lia.
  rewrite !Z.shiftl_spec by lia.
  rewrite (bits_above (u32 i) (n + 48) 32) by lia.
  rewrite (bits_above (u16 p) (n + 48 - 32) 16) by lia.
  rewrite !orb_false_r. replace (n + 48 - 48) with n by lia.
  destruct (Z.ltb_spec n 16) as [Hlt|Hge].
  - rewrite Z.ones_spec_low by lia. apply andb_true_r.
  - rewrite Z.ones_spec_high by lia. rewrite andb_false_r.
    symmetry. apply (bits_above (u16 m) n 16); lia.
Qed.

Lemma GetListenPort_Build (m p i : Z) :
  GetListenPort (BuildConnectionId m p i) = u16 p.
Proof.
  unfold GetListenPort, BuildConnectionId.
  pose proof (u16_range m). pose proof (u16_range p). pose proof (u32_range i).
  apply Z.bits_inj'. intros n Hn.
  unfold u16 at 1. change 0xffff with (Z.ones 16).
  rewrite Z.land_spec, Z.shiftr_spec, !Z.lor_spec by lia.
  rewrite !Z.shiftl_spec by lia.
  rewrite (bits_above (u32 i) (n + 32) 32) by lia.
  rewrite orb_false_r. replace (n + 32 - 32) with n by lia.
  destruct (Z.ltb_spec n 16) as [Hlt|Hge].
  - rewrite Z.ones_spec_low by lia. rewrite andb_true_r.
    rewrite (Z.testbit_neg_r (u16 m) (n + 32 - 48)) by lia. reflexivity.
  - rewrite Z.ones_spec_high by lia. rewrite andb_false_r.
    symmetry. apply (bits_above (u16 p) n 16); lia.
Qed.

(** ** The expired sweep *)

Lemma filter_all {A} (f : A -> bool) (l : list A) :
  Forall (fun x => f x = true) l -> List.filter f l = l.
Proof.
  induction 1 as [|x l Hx _ IH]; simpl; [reflexivity|].
  rewrite Hx, IH. reflexivity.
Qed.

Lemma filter_none {A} (f : A -> bool) (l : list A) :
  Forall (fun x => f x = false) l -> List.filter f l = [].
Proof.
  induction 1 as [|x l Hx _ IH]; simpl; [reflexivity|].
  rewrite Hx, IH. reflexivity.
Qed.

Lemma is_node_true (n : nat) (e : TimeoutEntry) : is_node n e = true <-> te_node e = n.
Proof. unfold is_node. apply Nat.eqb_eq. Qed.

Lemma node_elem_of (e : TimeoutEntry) (l : list TimeoutEntry) :
  e ∈ l -> te_node e ∈ map te_node l.
Proof. intros H. apply list_elem_of_In, in_map, list_elem_of_In, H. Qed.

Lemma erase_head (e : TimeoutEntry) (rest : list TimeoutEntry) :
  NoDup (map te_node (e :: rest)) ->
  List.filter (fun x => negb (is_node (te_node e) x)) (e :: rest) = rest.
Proof.
  simpl. intros Hnd. apply list.NoDup_cons in Hnd as [Hnotin _].
  unfold is_node at 1. rewrite Nat.eqb_refl. simpl.
  apply filter_all. apply list.Forall_forall. intros x Hx.
  apply negb_true_iff. apply not_true_is_false. rewrite is_node_true.
  intros Heq. apply Hnotin. rewrite <- Heq. apply node_elem_of, Hx.
Qed.

Lemma expired_prefix_sorted (current : Z) (l : list TimeoutEntry) :
  StronglySorted deadline_le l ->
  expired_prefix current l = List.filter (expired current) l.
Proof.
  induction 1 as [|e l Hs IH Hall]; simpl; [reflexivity|].
  destruct (expired current e) eqn:He; [rewrite IH; reflexivity|].
  symmetry. apply filter_none.
  eapply Forall_impl; [|exact Hall]. intros x Hx. unfold expired, deadline_le in *.
  apply Z.leb_gt. apply Z.leb_gt in He. lia.
Qed.

Lemma unexpired_suffix_sorted (current : Z) (l : list TimeoutEntry) :
  StronglySorted deadline_le l ->
  drop (length (expired_prefix current l)) l
  = List.filter (fun e => negb (expired current e)) l.
Proof.
  induction 1 as [|e l Hs IH Hall]; simpl; [reflexivity|].
  destruct (expired current e) eqn:He; simpl; [exact IH|].
  f_equal. symmetry. apply filter_all.
  eapply Forall_impl; [|exact Hall]. intros x Hx. unfold expired, deadline_le in *.
  apply negb_true_iff. apply Z.leb_gt. apply Z.leb_gt in He. lia.
Qed.

(** One iteration on the head of a consistent index. *)
Lemma evict_live (s : TcpServer) (e : TimeoutEntry) (c : Connection) :
  _mgr s !! te_index e = Some (Some c, It (te_node e)) ->
  existsb (is_node (te_node e)) (tr_entries (_timeout_record_list s)) = true ->
  Linux.evict (te_index e) s = Ok (evicted s e).
Proof.
  intros Hslot Hex.
  pose proof (lookup_lt_Some _ _ _ Hslot) as Hlt.
  unfold Linux.evict, shutdown_conn, slot_at, evicted. rewrite Hslot. simpl.
  unfold Linux.DeleteConnection, set_first, slot_at. simpl. rewrite Hslot. simpl.
  rewrite list_lookup_insert_eq by exact Hlt. simpl.
  unfold erase_timeout, tr_erase. simpl. rewrite Hex. simpl.
  unfold set_second, slot_at. simpl.
  rewrite list_lookup_insert_eq by exact Hlt. simpl.
  rewrite list_insert_insert_eq. reflexivity.
Qed.

Lemma windows_evict_eq : Windows.evict = Linux.evict.
Proof. reflexivity. Qed.

Lemma live_at_index_inj (s : TcpServer) (e1 e2 : TimeoutEntry) :
  live_at s e1 -> live_at s e2 -> te_index e1 = te_index e2 ->
  te_node e1 = te_node e2.
Proof.
  intros [c1 H1] [c2 H2] Heq. rewrite Heq in H1. congruence.
Qed.

Lemma evicted_entries (s : TcpServer) (e : TimeoutEntry) (rest : list TimeoutEntry) :
  tr_entries (_timeout_record_list s) = e :: rest ->
  NoDup (map te_node (e :: rest)) ->
  tr_entries (_timeout_record_list (evicted s e)) = rest.
Proof.
  intros Hl Hnd. unfold evicted.
  destruct (_mgr s !! te_index e) as [[[c|] it]|]; simpl; rewrite Hl;
    apply erase_head, Hnd.
Qed.

Lemma evicted_mgr (s : TcpServer) (e : TimeoutEntry) :
  _mgr (evicted s e) = <[te_index e := (None, End)]> (_mgr s).
Proof.
  unfold evicted. destruct (_mgr s !! te_index e) as [[[c|] it]|]; reflexivity.
Qed.

Lemma evicted_wf (s : TcpServer) (e : TimeoutEntry) (rest : list TimeoutEntry) :
  tr_entries (_timeout_record_list s) = e :: rest ->
  timeouts_wf s -> timeouts_wf (evicted s e).
Proof.
  intros Hl [Hnd Hs Hlive]. rewrite Hl in Hnd, Hs, Hlive.
  pose proof (evicted_entries s e rest Hl Hnd) as Hrest.
  simpl in Hnd. apply list.NoDup_cons in Hnd as [Hnotin Hnd'].
  apply StronglySorted_inv in Hs as [Hs' _].
  apply list.Forall_cons in Hlive as [He Hr].
  split; rewrite Hrest; [exact Hnd'|exact Hs'|].
  apply list.Forall_forall. intros x Hx.
  destruct (proj1 (list.Forall_forall _ _) Hr x Hx) as [c Hc].
  exists c. rewrite evicted_mgr.
  rewrite list_lookup_insert_ne; [exact Hc|].
  intros Heq. apply Hnotin.
  rewrite (live_at_index_inj s e x He (ex_intro _ c Hc) Heq).
  apply node_elem_of, Hx.
Qed.

Lemma sweep_expired (current : Z) (l : list TimeoutEntry) :
  forall (fuel : nat) (s : TcpServer),
    tr_entries (_timeout_record_list s) = l ->
    timeouts_wf s ->
    (length l < fuel)%nat ->
    sweep Linux.evict fuel current (tr_begin (_timeout_record_list s)) s
    = Some (Ok (foldl evicted s (expired_prefix current l))).
Proof.
  induction l as [|e rest IH]; intros fuel s Hl Hwf Hfuel;
    (destruct fuel as [|fuel]; [simpl in Hfuel; lia|]).
  - unfold tr_begin. rewrite Hl. reflexivity.
  - unfold tr_begin. rewrite Hl. simpl.
    unfold tr_find. rewrite Hl. simpl.
    unfold is_node at 1. rewrite Nat.eqb_refl.
    unfold expired. rewrite Z.gtb_ltb.
    destruct (Z.ltb_spec current (te_deadline e)) as [Hgt|Hle];
      destruct (Z.leb_spec (te_deadline e) current) as [Hle'|Hgt']; try lia;
      [reflexivity|].
    destruct Hwf as [Hnd Hs Hlive].
    pose proof Hlive as Hlive'. rewrite Hl in Hlive'.
    apply list.Forall_cons in Hlive' as [[c Hc] _].
    rewrite (evict_live s e c Hc)
      by (rewrite Hl; simpl; unfold is_node; rewrite Nat.eqb_refl; reflexivity).
    pose proof (evicted_wf s e rest Hl (Build_timeouts_wf s Hnd Hs Hlive)) as Hwf'.
    rewrite Hl in Hnd.
    pose proof (evicted_entries s e rest Hl Hnd) as Hrest.
    specialize (IH fuel (evicted s e) Hrest Hwf' ltac:(simpl in Hfuel; lia)).
    unfold tr_begin in IH. rewrite Hrest in IH.
    unfold is_node. rewrite Nat.eqb_refl. simpl. exact IH.
Qed.

Lemma wf_index_distinct (s : TcpServer) (e : TimeoutEntry) (rest : list TimeoutEntry) :
  timeouts_wf s ->
  tr_entries (_timeout_record_list s) = e :: rest ->
  Forall (fun x => te_index x <> te_index e) rest.
Proof.
  intros [Hnd _ Hlive] Hl. rewrite Hl in Hnd, Hlive.
  simpl in Hnd. apply list.NoDup_cons in Hnd as [Hnotin _].
  apply list.Forall_cons in Hlive as [He Hr].
  apply list.Forall_forall. intros x Hx Heq. apply Hnotin.
  rewrite (live_at_index_inj s e x He (proj1 (list.Forall_forall _ _) Hr x Hx)
             (eq_sym Heq)).
  apply node_elem_of, Hx.
Qed.

Lemma shutdown_calls_insert (mgr : list ConnectionData) (i : nat)
      (d : ConnectionData) (l : list TimeoutEntry) :
  Forall (fun x => te_index x <> i) l ->
  shutdown_calls (<[i := d]> mgr) l = shutdown_calls mgr l.
Proof.
  induction 1 as [|x l Hx _ IH]; [reflexivity|].
  cbn [shutdown_calls].
  rewrite list_lookup_insert_ne by congruence. rewrite IH. reflexivity.
Qed.

Lemma clear_slots_other (l : list TimeoutEntry) :
  forall (mgr : list ConnectionData) (i : nat),
    i ∉ map te_index l -> clear_slots mgr l !! i = mgr !! i.
Proof.
  induction l as [|e l IH]; intros mgr i Hi; [reflexivity|].
  simpl in Hi. apply not_elem_of_cons in Hi as [Hne Hi].
  unfold clear_slots in *. simpl. rewrite IH by exact Hi.
  apply list_lookup_insert_ne. congruence.
Qed.

Lemma clear_slots_cleared (l : list TimeoutEntry) :
  forall (mgr : list ConnectionData) (i : nat),
    i ∈ map te_index l -> (i < length mgr)%nat ->
    clear_slots mgr l !! i = Some (None, End).
Proof.
  induction l as [|e l IH]; intros mgr i Hi Hlt; simpl in Hi.
  - apply elem_of_nil in Hi. destruct Hi.
  - destruct (decide (i ∈ map te_index l)) as [Hin|Hnotin].
    + unfold clear_slots in *. simpl. apply IH; [exact Hin|].
      rewrite length_insert. exact Hlt.
    + apply elem_of_cons in Hi as [->|Hin]; [|contradiction].
      unfold clear_slots. simpl.
      rewrite (clear_slots_other l _ _ Hnotin).
      apply list_lookup_insert_eq, Hlt.
Qed.

(** The state after the evictions of a prefix of a consistent index. *)
Lemma foldl_evicted (p : list TimeoutEntry) :
  forall (s : TcpServer) (rest : list TimeoutEntry),
    tr_entries (_timeout_record_list s) = p ++ rest ->
    timeouts_wf s ->
    let s' := foldl evicted s p in
    tr_entries (_timeout_record_list s') = rest /\
    _free_index_list s' = _free_index_list s ++ map te_index p /\
    _mgr s' = clear_slots (_mgr s) p /\
    effects s' = effects s ++ shutdown_calls (_mgr s) p /\
    _last_timeout_time s' = _last_timeout_time s /\
    timeouts_wf s'.
Proof.
  induction p as [|e p IH]; intros s rest Hl Hwf; simpl.
  - rewrite !app_nil_r. simpl in Hl.
    repeat (split; [first [reflexivity|assumption]|]). assumption.
  - simpl in Hl.
    pose proof (wf_index_distinct s e _ Hwf Hl) as Hdist.
    pose proof (evicted_wf s e _ Hl Hwf) as Hwf'.
    assert (Hrest : tr_entries (_timeout_record_list (evicted s e)) = p ++ rest).
    { apply evicted_entries; [exact Hl|]. rewrite <- Hl. apply Hwf. }
    destruct (IH (evicted s e) rest Hrest Hwf') as (E1 & E2 & E3 & E4 & E5 & E6).
    destruct Hwf as [_ _ Hlive]. rewrite Hl in Hlive.
    apply list.Forall_cons in Hlive as [[c Hc] _].
    split; [exact E1|]. split; [|split; [|split; [|split; [|exact E6]]]].
    + rewrite E2. unfold evicted. rewrite Hc. simpl.
      rewrite <- app_assoc. reflexivity.
    + rewrite E3, evicted_mgr. reflexivity.
    + rewrite E4, evicted_mgr.
      rewrite shutdown_calls_insert
        by (apply list.Forall_app in Hdist as [Hd _]; exact Hd).
      cbn [shutdown_calls]. unfold evicted. rewrite Hc. simpl.
      rewrite <- app_assoc. reflexivity.
    + rewrite E5. unfold evicted. rewrite Hc. reflexivity.
Qed.

Lemma expired_prefix_split (current : Z) (l : list TimeoutEntry) :
  l = expired_prefix current l ++ drop (length (expired_prefix current l)) l.
Proof.
  induction l as [|e l IH]; simpl; [reflexivity|].
  destruct (expired current e); simpl; [f_equal; exact IH|reflexivity].
Qed.

Lemma StronglySorted_filter {A} (R : A -> A -> Prop) (f : A -> bool) (l : list A) :
  StronglySorted R l -> StronglySorted R (List.filter f l).
Proof.
  induction 1 as [|x l Hs IH Hall]; simpl; [constructor|].
  destruct (f x); [|exact IH]. constructor; [exact IH|].
  apply list.Forall_forall. intros y Hy.
  apply list_elem_of_In, filter_In in Hy as [Hy _].
  apply (proj1 (List.Forall_forall _ _) Hall y Hy).
Qed.

Lemma node_inj (l : list TimeoutEntry) (a b : TimeoutEntry) :
  NoDup (map te_node l) -> a ∈ l -> b ∈ l -> te_node a = te_node b -> a = b.
Proof.
  induction l as [|x l IH]; intros Hnd Ha Hb Heq.
  - apply elem_of_nil in Ha. destruct Ha.
  - simpl in Hnd. apply list.NoDup_cons in Hnd as [Hnotin Hnd].
    apply elem_of_cons in Ha as [->|Ha]; apply elem_of_cons in Hb as [->|Hb].
    + reflexivity.
    + exfalso. apply Hnotin. rewrite Heq. apply node_elem_of, Hb.
    + exfalso. apply Hnotin. rewrite <- Heq. apply node_elem_of, Ha.
    + apply IH; assumption.
Qed.

Lemma wf_index_inj (s : TcpServer) (a b : TimeoutEntry) :
  timeouts_wf s ->
  a ∈ tr_entries (_timeout_record_list s) ->
  b ∈ tr_entries (_timeout_record_list s) ->
  te_index a = te_index b -> a = b.
Proof.
  intros [Hnd _ Hlive] Ha Hb Heq.
  apply (node_inj _ a b Hnd Ha Hb).
  apply (live_at_index_inj s); [| |exact Heq];
    apply (proj1 (list.Forall_forall _ _) Hlive); assumption.
Qed.

Lemma timeouts_wf_set_last (t : Z) (s : TcpServer) :
  timeouts_wf s -> timeouts_wf (set_last_timeout_time t s).
Proof. intros [H1 H2 H3]. split; assumption. Qed.

Lemma elem_of_filter_list {A} (f : A -> bool) (l : list A) (x : A) :
  x ∈ List.filter f l <-> x ∈ l /\ f x = true.
Proof. rewrite !list_elem_of_In. apply filter_In. Qed.

Lemma index_elem_of (e : TimeoutEntry) (l : list TimeoutEntry) :
  e ∈ l -> te_index e ∈ map te_index l.
Proof. intros H. apply list_elem_of_In, in_map, list_elem_of_In, H. Qed.

(** C7.  On a consistent table, a sweep that is past the rate limit (one
    second on the epoll build, three on the IOCP build) returns, and it has
    evicted exactly the entries whose deadline is not after [current], in
    the ascending order of the index: their slots are empty, their indices
    went to the back of the free list in that order and their connections
    were shut down in that order.  Every entry with a later deadline is
    still in the index and its slot is untouched. *)
Theorem OnCheckingEvent_evicts_expired (current : Z) (s : TcpServer) :
  timeouts_wf s ->
  1 <= current - _last_timeout_time s ->
  let entries := tr_entries (_timeout_record_list s) in
  let due := List.filter (expired current) entries in
  exists s',
    Linux.OnCheckingEvent current s = Some (Ok s') /\
    (3 <= current - _last_timeout_time s ->
     Windows.OnCheckingEvent current s = Some (Ok s')) /\
    tr_entries (_timeout_record_list s')
    = List.filter (fun e => negb (expired current e)) entries /\
    _free_index_list s' = _free_index_list s ++ map te_index due /\
    effects s' = effects s ++ shutdown_calls (_mgr s) due /\
    StronglySorted deadline_le due /\
    (forall e, e ∈ due -> _mgr s' !! te_index e = Some (None, End)) /\
    (forall i, i ∉ map te_index due -> _mgr s' !! i = _mgr s !! i) /\
    (forall e, e ∈ entries -> current < te_deadline e ->
               e ∈ tr_entries (_timeout_record_list s') /\ live_at s' e) /\
    timeouts_wf s'.
Proof.
  intros Hwf Hrate entries due.
  set (s0 := set_last_timeout_time current s).
  pose proof (timeouts_wf_set_last current s Hwf) as Hwf0. fold s0 in Hwf0.
  pose proof (wf_sorted s Hwf) as Hsorted. fold entries in Hsorted.
  set (p := expired_prefix current entries).
  assert (Hp : p = due) by apply expired_prefix_sorted, Hsorted.
  pose proof (sweep_expired current entries (S (length entries)) s0 eq_refl Hwf0
                            ltac:(lia)) as Hsweep.
  fold p in Hsweep.
  destruct (foldl_evicted p s0 (drop (length p) entries)
                          (expired_prefix_split current entries) Hwf0)
    as (E1 & E2 & E3 & E4 & E5 & E6).
  exists (foldl evicted s0 p).
  assert (Hlin : Linux.OnCheckingEvent current s = Some (Ok (foldl evicted s0 p))).
  { unfold Linux.OnCheckingEvent.
    destruct (Z.ltb_spec (current - _last_timeout_time s) 1); [lia|exact Hsweep]. }
  split; [exact Hlin|].
  split.
  { intros H3. unfold Windows.OnCheckingEvent.
    destruct (Z.ltb_spec (current - _last_timeout_time s) 3); [lia|exact Hsweep]. }
  assert (Hmgr : forall i, i ∉ map te_index due ->
                           _mgr (foldl evicted s0 p) !! i = _mgr s !! i).
  { intros i Hi. rewrite E3. rewrite Hp. apply clear_slots_other, Hi. }
  split; [rewrite E1; apply unexpired_suffix_sorted, Hsorted|].
  split; [rewrite E2, Hp; reflexivity|].
  split; [rewrite E4, Hp; reflexivity|].
  split; [apply StronglySorted_filter, Hsorted|].
  split.
  { intros e He. rewrite E3, Hp.
    apply clear_slots_cleared; [apply index_elem_of, He|].
    apply elem_of_filter_list in He as [He _].
    destruct (proj1 (list.Forall_forall _ _) (wf_live s Hwf) e He) as [c Hc].
    apply (lookup_lt_Some _ _ _ Hc). }
  split; [exact Hmgr|].
  split; [|exact E6].
  intros e He Hlate.
  assert (Hin : e ∈ tr_entries (_timeout_record_list (foldl evicted s0 p))).
  { rewrite E1. unfold p.
    rewrite (unexpired_suffix_sorted current entries Hsorted).
    apply elem_of_filter_list. split; [exact He|].
    unfold expired. apply negb_true_iff, Z.leb_gt. lia. }
  split; [exact Hin|].
  apply (proj1 (list.Forall_forall _ _) (wf_live _ E6) e Hin).
Qed.

(** ** The sweep loop needs no more fuel than it is given *)

Lemma filter_shrinks {A} (f : A -> bool) (l : list A) :
  existsb f l = true ->
  (length (List.filter (fun x => negb (f x)) l) < length l)%nat.
Proof.
  induction l as [|x l IH]; simpl; [discriminate|].
  pose proof (List.filter_length_le (fun x => negb (f x)) l) as Hle.
  destruct (f x); simpl; [lia|]. intros H. specialize (IH H). lia.
Qed.

Lemma erase_timeout_shrinks (it : iterator) (s s' : TcpServer) :
  erase_timeout it s = Ok s' ->
  (length (tr_entries (_timeout_record_list s'))
   < length (tr_entries (_timeout_record_list s)))%nat.
Proof.
  unfold erase_timeout, tr_erase.
  destruct it as [n| |]; simpl; try discriminate.
  destruct (existsb (is_node n) (tr_entries (_timeout_record_list s))) eqn:He;
    simpl; [|discriminate].
  intros [= <-]. simpl. apply filter_shrinks, He.
Qed.

Lemma set_first_timeouts (i : nat) (c : option Connection) (s s' : TcpServer) :
  set_first i c s = Ok s' -> _timeout_record_list s' = _timeout_record_list s.
Proof.
  unfold set_first, slot_at. destruct (_mgr s !! i); simpl; [|discriminate].
  intros [= <-]. reflexivity.
Qed.

Lemma set_second_timeouts (i : nat) (it : iterator) (s s' : TcpServer) :
  set_second i it s = Ok s' -> _timeout_record_list s' = _timeout_record_list s.
Proof.
  unfold set_second, slot_at. destruct (_mgr s !! i); simpl; [|discriminate].
  intros [= <-]. reflexivity.
Qed.

Lemma shutdown_conn_timeouts (i : nat) (b : bool) (s s' : TcpServer) :
  shutdown_conn i b s = Ok s' -> _timeout_record_list s' = _timeout_record_list s.
Proof.
  unfold shutdown_conn, slot_at.
  destruct (_mgr s !! i) as [[[c|] it]|]; simpl; try discriminate.
  intros [= <-]. reflexivity.
Qed.

Lemma evict_shrinks (index : nat) (s s' : TcpServer) :
  Linux.evict index s = Ok s' ->
  (length (tr_entries (_timeout_record_list s'))
   < length (tr_entries (_timeout_record_list s)))%nat.
Proof.
  unfold Linux.evict, Linux.DeleteConnection.
  destruct (shutdown_conn index true s) as [s1|] eqn:H1; simpl; [|discriminate].
  destruct (set_first index None s1) as [s2|] eqn:H2; simpl; [|discriminate].
  destruct (slot_at index s2) as [d|]; simpl; [|discriminate].
  destruct (erase_timeout d.2 s2) as [s3|] eqn:H3; simpl; [|discriminate].
  destruct (set_second index End s3) as [s4|] eqn:H4; simpl; [|discriminate].
  intros [= <-]. simpl.
  rewrite (set_second_timeouts _ _ _ _ H4).
  apply erase_timeout_shrinks in H3.
  rewrite (set_first_timeouts _ _ _ _ H2), (shutdown_conn_timeouts _ _ _ _ H1) in H3.
  exact H3.
Qed.

Lemma sweep_fuel (current : Z) (fuel : nat) :
  forall (it : iterator) (s : TcpServer),
    (length (tr_entries (_timeout_record_list s)) < fuel)%nat ->
    sweep Linux.evict fuel current it s <> None.
Proof.
  induction fuel as [|fuel IH]; intros it s Hlen; [lia|].
  simpl. destruct it as [n| |]; try discriminate.
  destruct (tr_find n (_timeout_record_list s)) as [e|]; [|discriminate].
  destruct (te_deadline e >? current); [discriminate|].
  destruct (Linux.evict (te_index e) s) as [s'|] eqn:He; [|discriminate].
  apply IH. apply evict_shrinks in He. lia.
Qed.

(** On every state, consistent or not, the sweep of either build ends: in a
    state or in a fault. *)
Lemma OnCheckingEvent_returns (current : Z) (s : TcpServer) :
  Linux.OnCheckingEvent current s <> None /\
  Windows.OnCheckingEvent current s <> None.
Proof.
  unfold Linux.OnCheckingEvent, Windows.OnCheckingEvent. split.
  - destruct (current - _last_timeout_time s <? 1); [discriminate|].
    apply sweep_fuel. simpl. lia.
  - destruct (current - _last_timeout_time s <? 3); [discriminate|].
    apply sweep_fuel. simpl. lia.
Qed.

(** ** Accepting connections *)

(** B1: with no free index and a table that has reached [max_connections],
    the accept is logged, the socket is shut down and nothing else changes
    (the same text in both builds). *)
Lemma OnNewConnection_refused (async_recv : bool) (now sock listen_port : Z)
      (s : TcpServer) :
  _free_index_list s = [] ->
  max_connections (_options s) <= Z.of_nat (length (_mgr s)) ->
  let s' := emit (SocketShutdown sock)
                 (emit (LogMaxConnections (max_connections (_options s))) s) in
  Linux.OnNewConnection now sock listen_port s = Ok s' /\
  Windows.OnNewConnection async_recv now sock listen_port s = Ok s' /\
  _mgr s' = _mgr s /\ _free_index_list s' = _free_index_list s /\
  _timeout_record_list s' = _timeout_record_list s.
Proof.
  intros Hfree Hfull s'.
  split; [|split; [|repeat split; reflexivity]];
    unfold Linux.OnNewConnection, Windows.OnNewConnection;
    rewrite bool_decide_eq_true_2 by exact Hfree;
    (destruct (Z.geb_spec (Z.of_nat (length (_mgr s)))
                          (max_connections (_options s))); [|lia]);
    reflexivity.
Qed.

(** With a free index at hand the test on [max_connections] is not made:
    the epoll build installs the connection in the slot at the front of
    the free list, whatever [max_connections] is. *)
Lemma linux_OnNewConnection_installs (now sock listen_port : Z) (s : TcpServer)
      (index : nat) (rest : list nat) :
  _free_index_list s = index :: rest ->
  (index < length (_mgr s))%nat ->
  exists s',
    Linux.OnNewConnection now sock listen_port s = Ok s' /\
    _mgr s' = <[index := (Some {| conn_cid := BuildConnectionId (_magic_number s)
                                                listen_port (Z.of_nat index);
                                  conn_sock := sock |},
                          It (tr_fresh (_timeout_record_list s)))]> (_mgr s) /\
    _free_index_list s' = rest /\
    _timeout_record_list s'
    = (tr_insert (now + connection_timeout (_options s)) index
                 (_timeout_record_list s)).2.
Proof.
  intros Hfree Hlt. unfold Linux.OnNewConnection. rewrite Hfree.
  rewrite bool_decide_eq_false_2 by discriminate. simpl.
  rewrite Hfree.
  destruct (lookup_lt_is_Some_2 _ _ Hlt) as [d Hd].
  unfold set_first, slot_at. simpl. rewrite Hd. simpl.
  unfold insert_timeout, set_second, slot_at. simpl.
  rewrite list_lookup_insert_eq by exact Hlt. simpl.
  rewrite list_insert_insert_eq.
  eexists. repeat split; reflexivity.
Qed.

(** The two branches after [conn->AsyncRecv()] in the IOCP build. *)
Lemma windows_OnNewConnection_branches (async_recv : bool)
      (now sock listen_port : Z) (s : TcpServer) (index : nat) (rest : list nat)
      (w : Worker) :
  _free_index_list s = index :: rest ->
  (index < length (_mgr s))%nat ->
  _rs_thread s = Some w ->
  let cid := BuildConnectionId (_magic_number s) (u16 listen_port) (Z.of_nat index) in
  exists s',
    Windows.OnNewConnection async_recv now sock listen_port s = Ok s' /\
    if async_recv then
      _mgr s' = _mgr s /\
      _free_index_list s' = rest ++ [index] /\
      _timeout_record_list s' = _timeout_record_list s /\
      effects s' = effects s ++ [ConnInit cid sock; ConnSetProtocol cid;
                                 EngineAdd sock cid; ConnAsyncRecv cid;
                                 ConnShutdown cid true]
    else
      _mgr s' = <[index := (Some {| conn_cid := cid; conn_sock := sock |},
                            It (tr_fresh (_timeout_record_list s)))]> (_mgr s) /\
      _free_index_list s' = rest /\
      _timeout_record_list s'
      = (tr_insert (now + connection_timeout (_options s)) index
                   (_timeout_record_list s)).2 /\
      effects s' = effects s ++ [ConnInit cid sock; ConnSetProtocol cid;
                                 EngineAdd sock cid; ConnAsyncRecv cid].
Proof.
  intros Hfree Hlt Hrs cid. unfold Windows.OnNewConnection. rewrite Hfree.
  rewrite bool_decide_eq_false_2 by discriminate. simpl.
  rewrite Hfree, Hrs. fold cid.
  destruct async_recv.
  - eexists. split; [reflexivity|]. simpl.
    rewrite <- !app_assoc. repeat split; reflexivity.
  - destruct (lookup_lt_is_Some_2 _ _ Hlt) as [d Hd].
    unfold set_first, slot_at. simpl. rewrite Hd. simpl.
    unfold insert_timeout, set_second, slot_at. simpl.
    rewrite list_lookup_insert_eq by exact Hlt. simpl.
    rewrite list_insert_insert_eq.
    eexists. split; [reflexivity|]. simpl.
    rewrite <- !app_assoc. repeat split; reflexivity.
Qed.

Lemma foldl_push_free (l : list nat) :
  forall t : TcpServer,
    foldl (fun s i => push_free i s) t l
    = set_free_index_list (_free_index_list t ++ l) t.
Proof.
  induction l as [|i l IH]; intros t.
  - simpl. rewrite app_nil_r. destruct t; reflexivity.
  - cbn [foldl]. rewrite IH. unfold push_free, set_free_index_list.
    cbn. rewrite <- app_assoc. reflexivity.
Qed.

(** What a successful [Init] reserves does not depend on the options. *)
Lemma Init_reserves (now : Z) (options : RaptorOptions) (s : TcpServer) :
  _shutdown s = true -> _mgr s = [] -> _free_index_list s = [] ->
  let s' := (Linux.Init RAPTOR_ERROR_NONE RAPTOR_ERROR_NONE RAPTOR_ERROR_NONE
                        now options s).2 in
  _mgr s' = replicate RESERVED_CONNECTION_COUNT (None, Singular) /\
  _free_index_list s' = seq 0 RESERVED_CONNECTION_COUNT /\
  _options s' = options /\ _shutdown s' = false /\
  _magic_number s' = magic_of_time now.
Proof.
  intros Hsh Hmgr Hfree. unfold Linux.Init. rewrite Hsh.
  generalize RESERVED_CONNECTION_COUNT as n. intros n.
  cbn [negb is_error]. rewrite foldl_push_free.
  cbn [snd _mgr _free_index_list _options _shutdown _magic_number
       set_last_timeout_time set_magic_number set_free_index_list set_mgr
       set_mq_thd set_count set_options set_shutdown set_send_thread
       set_recv_thread set_listener].
  rewrite Hmgr, Hfree. unfold resize. rewrite take_nil, Nat.sub_0_r.
  repeat split; reflexivity.
Qed.

(** Closed goals about the scenarios are settled by evaluation. *)
Ltac by_evaluation :=
  intros;
  repeat match goal with |- _ /\ _ => split end;
  try match goal with
      | |- _ = _ => vm_compute; reflexivity
      | |- _ > _ => vm_compute; reflexivity
      | |- _ <> _ => vm_compute; discriminate
      end.

(** C1.  On the epoll build, after [Init] with [max_connections = 2] the
    third of three clients is not refused: the free list still holds 98 of
    the 100 reserved indices, so the capacity test is skipped, slot 2 is
    populated, the socket is not shut down and nothing is logged; the
    handle given to that client carries index 2 and is rejected by the
    validator of the same server. *)
Theorem third_client_accepted_at_cap_two :
  exists s3,
    three_clients = Ok s3 /\
    _mgr s3 !! 2%nat = Some (Some {| conn_cid := handle cap_two 2; conn_sock := 13 |},
                             It 2%nat) /\
    effects s3 = [ConnSetProtocol (handle cap_two 0); ConnInit (handle cap_two 0) 11;
                  ConnSetProtocol (handle cap_two 1); ConnInit (handle cap_two 1) 12;
                  ConnSetProtocol (handle cap_two 2); ConnInit (handle cap_two 2) 13] /\
    _free_index_list s3 = seq 3 97 /\
    length (_mgr s3) = 100%nat /\
    max_connections (_options s3) = 2 /\
    CheckConnectionId sentinel_ones s3 (handle cap_two 2) = InvalidIndex.
Proof.
  exists (state_of three_clients). by_evaluation.
Qed.

(** C2.  On the IOCP build the branch taken when [AsyncRecv] returns [true]
    shuts the connection down and gives the index back, and the branch
    taken when it returns [false] populates the slot and inserts the
    timeout entry; the epoll build posts no receive in [OnNewConnection]
    and always populates the slot. *)
Theorem windows_first_receive_branches :
  let cid := handle cap_thousand_win 0 in
  (exists s1,
      Windows.OnNewConnection true 1700000001 11 8080 cap_thousand_win = Ok s1 /\
      _mgr s1 !! 0%nat = Some (None, Singular) /\
      tr_entries (_timeout_record_list s1) = [] /\
      _free_index_list s1 = seq 1 99 ++ [0%nat] /\
      effects s1 = [ConnInit cid 11; ConnSetProtocol cid; EngineAdd 11 cid;
                    ConnAsyncRecv cid; ConnShutdown cid true]) /\
  (exists s1,
      Windows.OnNewConnection false 1700000001 11 8080 cap_thousand_win = Ok s1 /\
      _mgr s1 !! 0%nat = Some (Some {| conn_cid := cid; conn_sock := 11 |}, It 0%nat) /\
      tr_entries (_timeout_record_list s1)
      = [{| te_deadline := 1700000061; te_index := 0; te_node := 0 |}] /\
      _free_index_list s1 = seq 1 99 /\
      effects s1 = [ConnInit cid 11; ConnSetProtocol cid; EngineAdd 11 cid;
                    ConnAsyncRecv cid]) /\
  (exists s1,
      Linux.OnNewConnection 1700000001 11 8080 cap_thousand = Ok s1 /\
      _mgr s1 !! 0%nat = Some (Some {| conn_cid := cid; conn_sock := 11 |}, It 0%nat) /\
      effects s1 = [ConnSetProtocol cid; ConnInit cid 11]).
Proof.
  split; [|split].
  - exists (state_of (Windows.OnNewConnection true 1700000001 11 8080 cap_thousand_win)).
    by_evaluation.
  - exists (state_of (Windows.OnNewConnection false 1700000001 11 8080 cap_thousand_win)).
    by_evaluation.
  - exists (state_of (Linux.OnNewConnection 1700000001 11 8080 cap_thousand)).
    by_evaluation.
Qed.

(** ** Operations that take a handle *)

Section Handles.
Variable InvalidConnectionId : ConnectionId.
Local Abbreviation validate := (CheckConnectionId InvalidConnectionId).

(** [Send] answers [false] and changes nothing when the handle fails
    validation, and when the validated index designates an empty slot of
    the table (both builds). *)
Lemma Send_false (conn_send : bool) (cid : ConnectionId) (len : Z) (s : TcpServer) :
  validate s cid = InvalidIndex \/
  (exists it, _mgr s !! Z.to_nat (validate s cid) = Some (None, it)) ->
  Linux.Send InvalidConnectionId conn_send cid len s = Ok (false, s) /\
  Windows.Send InvalidConnectionId conn_send cid len s = Ok (false, s).
Proof.
  unfold Linux.Send, Windows.Send, Windows.SendWithHeader, Windows.GetConnection,
    slot_at.
  intros [E|[it Hit]].
  - rewrite E. split; reflexivity.
  - destruct (validate s cid =? InvalidIndex); [split; reflexivity|].
    rewrite Hit. split; reflexivity.
Qed.

(** A validated index that is not below the length of the table makes
    [Send] subscript [_mgr] out of range (both builds). *)
Lemma Send_out_of_range (conn_send : bool) (cid : ConnectionId) (len : Z)
      (s : TcpServer) :
  validate s cid <> InvalidIndex ->
  (length (_mgr s) <= Z.to_nat (validate s cid))%nat ->
  Linux.Send InvalidConnectionId conn_send cid len s = Fault OutOfRange /\
  Windows.Send InvalidConnectionId conn_send cid len s = Fault OutOfRange.
Proof.
  intros Hv Hlen.
  unfold Linux.Send, Windows.Send, Windows.SendWithHeader, Windows.GetConnection,
    slot_at.
  destruct (Z.eqb_spec (validate s cid) InvalidIndex) as [E|_]; [contradiction|].
  rewrite (lookup_ge_None_2 _ _ Hlen). split; reflexivity.
Qed.

(** The I/O event handlers of the IOCP build return at once on a validated
    handle whose slot is empty. *)
Lemma windows_io_event_empty_slot (ok : bool) (now : Z) (cid : ConnectionId)
      (s : TcpServer) (it : iterator) :
  validate s cid <> InvalidIndex ->
  _mgr s !! Z.to_nat (validate s cid) = Some (None, it) ->
  Windows.OnRecvEvent InvalidConnectionId ok now cid s = Ok s /\
  Windows.OnSendEvent InvalidConnectionId ok now cid s = Ok s.
Proof.
  intros Hv Hslot.
  unfold Windows.OnRecvEvent, Windows.OnSendEvent, Windows.GetConnection, slot_at.
  destruct (Z.eqb_spec (validate s cid) InvalidIndex) as [E|_]; [contradiction|].
  rewrite Hslot. split; reflexivity.
Qed.

(** The same handlers of the epoll build call through the null pointer. *)
Lemma linux_io_event_empty_slot (ok : bool) (now : Z) (cid : ConnectionId)
      (s : TcpServer) (it : iterator) :
  validate s cid <> InvalidIndex ->
  _mgr s !! Z.to_nat (validate s cid) = Some (None, it) ->
  Linux.OnRecvEvent InvalidConnectionId ok now cid s = Fault NullPointer /\
  Linux.OnSendEvent InvalidConnectionId ok now cid s = Fault NullPointer.
Proof.
  intros Hv Hslot.
  unfold Linux.OnRecvEvent, Linux.OnSendEvent, slot_at.
  destruct (Z.eqb_spec (validate s cid) InvalidIndex) as [E|_]; [contradiction|].
  rewrite Hslot. split; reflexivity.
Qed.
End Handles.

(** ** Eviction *)

(** [DeleteConnection] of the IOCP build leaves an empty slot alone. *)
Lemma windows_DeleteConnection_empty (index : nat) (s : TcpServer) (it : iterator) :
  _mgr s !! index = Some (None, it) -> Windows.DeleteConnection index s = Ok s.
Proof.
  intros H. unfold Windows.DeleteConnection, slot_at. rewrite H. reflexivity.
Qed.

(** Hence a second eviction of the same slot changes nothing there. *)
Lemma windows_DeleteConnection_twice (index : nat) (s s1 : TcpServer) :
  Windows.DeleteConnection index s = Ok s1 ->
  Windows.DeleteConnection index s1 = Ok s1.
Proof.
  unfold Windows.DeleteConnection at 1. unfold slot_at.
  destruct (_mgr s !! index) as [[[c|] it]|] eqn:Hslot; simpl; [| |discriminate].
  - pose proof (lookup_lt_Some _ _ _ Hslot) as Hlt.
    unfold set_first, slot_at. simpl. rewrite Hslot. simpl.
    rewrite list_lookup_insert_eq by exact Hlt. simpl.
    destruct (erase_timeout it _) as [s2|f] eqn:He; simpl; [|discriminate].
    assert (Hm : _mgr s2 = <[index := (None, it)]> (_mgr s)).
    { unfold erase_timeout in He.
      destruct (tr_erase it _); simpl in He; [|discriminate].
      injection He as <-. reflexivity. }
    unfold set_second, slot_at. rewrite Hm.
    rewrite list_lookup_insert_eq by exact Hlt. simpl.
    intros [= <-].
    apply (windows_DeleteConnection_empty index _ End). simpl.
    rewrite list_insert_insert_eq.
    apply list_lookup_insert_eq. exact Hlt.
  - intros [= <-]. apply (windows_DeleteConnection_empty index s it Hslot).
Qed.



(** On an empty slot the epoll build erases an iterator that designates no
    entry of the index. *)
Lemma linux_DeleteConnection_empty (index : nat) (s : TcpServer) (it : iterator) :
  _mgr s !! index = Some (None, it) ->
  it = End \/ it = Singular ->
  Linux.DeleteConnection index s = Fault InvalidIterator.
Proof.
  intros Hslot Hit.
  pose proof (lookup_lt_Some _ _ _ Hslot) as Hlt.
  unfold Linux.DeleteConnection, set_first, slot_at. rewrite Hslot. simpl.
  rewrite list_lookup_insert_eq by exact Hlt. simpl.
  destruct Hit as [-> | ->]; reflexivity.
Qed.

(** C4.  [Send] with a handle that the validator accepts but whose index
    is not below the current length of the table subscripts [_mgr] out of
    range: index 500 with [max_connections = 1000] on the hundred slots that
    [Init] reserves (both builds), and any index after [Shutdown] has
    cleared the table. *)
Theorem Send_subscripts_beyond_the_table :
  let cid := handle cap_thousand 500 in
  CheckConnectionId sentinel_ones cap_thousand cid = 500 /\
  length (_mgr cap_thousand) = 100%nat /\
  Linux.Send sentinel_ones true cid 5 cap_thousand = Fault OutOfRange /\
  Windows.Send sentinel_ones true cid 5 cap_thousand_win = Fault OutOfRange /\
  (exists s,
      Linux.Shutdown cap_thousand = Ok s /\
      CheckConnectionId sentinel_ones s (handle cap_thousand 0) = 0 /\
      Linux.Send sentinel_ones true (handle cap_thousand 0) 5 s = Fault OutOfRange).
Proof.
  by_evaluation.
  exists (state_of (Linux.Shutdown cap_thousand)). by_evaluation.
Qed.


(** C10.  On the epoll build [OnRecvEvent] and [OnSendEvent] with a handle
    that passes validation and whose slot is empty call [DoRecvEvent] and
    [DoSendEvent] through the null pointer of the slot, on a slot that
    never held a connection as on one emptied by a close; the IOCP build
    returns the state unchanged on the same input. *)
Theorem linux_io_events_on_empty_slot_fault :
  let cid := handle cap_thousand 0 in
  CheckConnectionId sentinel_ones cap_thousand cid = 0 /\
  _mgr cap_thousand !! 0%nat = Some (None, Singular) /\
  Linux.OnRecvEvent sentinel_ones true 1700000005 cid cap_thousand = Fault NullPointer /\
  Linux.OnSendEvent sentinel_ones true 1700000005 cid cap_thousand = Fault NullPointer /\
  (exists s1 s2,
      accepted_once = Ok s1 /\
      Linux.CloseConnection sentinel_ones cid s1 = Ok (true, s2) /\
      _mgr s2 !! 0%nat = Some (None, End) /\
      Linux.OnRecvEvent sentinel_ones true 1700000005 cid s2 = Fault NullPointer /\
      Linux.OnSendEvent sentinel_ones false 1700000005 cid s2 = Fault NullPointer) /\
  Windows.OnRecvEvent sentinel_ones true 1700000005 cid cap_thousand_win
  = Ok cap_thousand_win /\
  Windows.OnSendEvent sentinel_ones true 1700000005 cid cap_thousand_win
  = Ok cap_thousand_win.
Proof.
  by_evaluation.
  exists (state_of accepted_once),
         (state_of (Linux.DeleteConnection 0
                      (state_of (shutdown_conn 0 false (state_of accepted_once))))).
  by_evaluation.
Qed.

(** ** Lifecycle *)

Lemma shutdown_all_fields (l : list ConnectionData) :
  forall t : TcpServer,
    _shutdown (shutdown_all l t) = _shutdown t /\
    _mpscq (shutdown_all l t) = _mpscq t /\
    _count (shutdown_all l t) = _count t /\
    _timeout_record_list (shutdown_all l t) = _timeout_record_list t /\
    _free_index_list (shutdown_all l t) = _free_index_list t.
Proof.
  induction l as [|[[c|] it] l IH]; intros t; simpl; [auto| |apply IH].
  destruct (IH (emit (ConnShutdown (conn_cid c) false) t)) as (E1 & E2 & E3 & E4 & E5).
  rewrite E1, E2, E3, E4, E5. auto.
Qed.


Lemma Shutdown_sets_flag (s s1 : TcpServer) :
  Linux.Shutdown s = Ok s1 \/ Windows.Shutdown s = Ok s1 -> _shutdown s1 = true.
Proof.
  unfold Linux.Shutdown, Windows.Shutdown.
  destruct (_shutdown s) eqn:Hsh; simpl.
  - intros [[= <-]|[= <-]]; exact Hsh.
  - intros [H|H].
    + destruct (_listener s), (_recv_thread s), (_send_thread s);
        try discriminate H. injection H as <-. simpl.
      match goal with |- context [shutdown_all ?m ?t] =>
        destruct (shutdown_all_fields m t) as (E1 & _) end.
      rewrite E1. reflexivity.
    + destruct (_listener s), (_rs_thread s); try discriminate H.
      injection H as <-. simpl.
      match goal with |- context [shutdown_all ?m ?t] =>
        destruct (shutdown_all_fields m t) as (E1 & _) end.
      rewrite E1. reflexivity.
Qed.

(** C8.  A second [Shutdown] returns the state of the first unchanged, in
    every member, and the destructor of a server that is not shut down is
    a call of [Shutdown] (both builds). *)
Theorem Shutdown_twice_is_once (s s1 : TcpServer) :
  Linux.Shutdown s = Ok s1 \/ Windows.Shutdown s = Ok s1 ->
  Linux.Shutdown s1 = Ok s1 /\
  Windows.Shutdown s1 = Ok s1 /\
  Linux.destructor s1 = Ok s1 /\
  Windows.destructor s1 = Ok s1 /\
  (_shutdown s = false ->
   Linux.destructor s = Linux.Shutdown s /\
   Windows.destructor s = Windows.Shutdown s).
Proof.
  intros H. apply Shutdown_sets_flag in H.
  repeat match goal with |- _ /\ _ => split end.
  - unfold Linux.Shutdown. rewrite H. reflexivity.
  - unfold Windows.Shutdown. rewrite H. reflexivity.
  - unfold Linux.destructor. rewrite H. reflexivity.
  - unfold Windows.destructor. rewrite H. reflexivity.
  - intros Hs. unfold Linux.destructor, Windows.destructor. rewrite Hs.
    split; reflexivity.
Qed.

(** [Init] on a server that is not shut down. *)
Lemma Init_rejected (listener_e recv_e send_e : raptor_error) (now : Z)
      (options : RaptorOptions) (s : TcpServer) :
  _shutdown s = false ->
  Linux.Init listener_e recv_e send_e now options s = (err_already_running, s) /\
  Windows.Init listener_e recv_e now options s = (err_already_running, s).
Proof.
  intros H. unfold Linux.Init, Windows.Init. rewrite H. split; reflexivity.
Qed.

(** [Start] of the IOCP build reads no lifecycle member either. *)
Lemma windows_Start_unguarded (listener_ok rs_ok : bool) (s : TcpServer)
      (l r : Worker) :
  _listener s = Some l -> _rs_thread s = Some r ->
  exists e s',
    Windows.Start listener_ok rs_ok s = Ok (e, s') /\
    (is_error e = negb (listener_ok && rs_ok)) /\
    (is_error e = true -> _mq_thd s' = _mq_thd s).
Proof.
  intros Hl Hr. unfold Windows.Start. rewrite Hl.
  destruct listener_ok; simpl; [rewrite Hr; destruct rs_ok; simpl|];
    eexists _, _; (split; [reflexivity|]); split;
    first [reflexivity|discriminate|intros _; reflexivity].
Qed.

(** C6 (as amended).  [Init] returns the "already running" error and leaves
    the state as it is whenever the server is not shut down, initialised or
    running alike (both builds).  [Start] reads no lifecycle member: on a
    server whose [Init] has made the collaborators it returns an error
    exactly when the listener or an I/O thread reports a failed start; the
    stages are started in order, and none after the first failure.  On the
    epoll build ([s]) the stages are the listener, the receiving thread, the
    sending thread and the dispatcher thread; on the IOCP build ([t]) the
    listener, the I/O thread and the dispatcher thread. *)
Theorem Init_guarded_Start_unguarded
        (listener_e recv_e send_e : raptor_error) (now : Z) (options : RaptorOptions)
        (listener_ok recv_ok send_ok : bool) (s : TcpServer) (l r w : Worker)
        (t : TcpServer) (tl tr : Worker) :
  _shutdown s = false ->
  _listener s = Some l -> _recv_thread s = Some r -> _send_thread s = Some w ->
  _shutdown t = false ->
  _listener t = Some tl -> _rs_thread t = Some tr ->
  (Linux.Init listener_e recv_e send_e now options s = (err_already_running, s) /\
   exists e s',
     Linux.Start listener_ok recv_ok send_ok s = Ok (e, s') /\
     is_error e = negb (listener_ok && recv_ok && send_ok) /\
     (listener_ok = false -> e = err_start_listener /\ s' = s) /\
     (listener_ok = true -> recv_ok = false ->
      e = err_start_recv_thread /\ _listener s' = Some (start_worker l) /\
      _recv_thread s' = Some r /\ _send_thread s' = Some w /\
      _mq_thd s' = _mq_thd s) /\
     (listener_ok = true -> recv_ok = true -> send_ok = false ->
      e = err_start_send_thread /\ _listener s' = Some (start_worker l) /\
      _recv_thread s' = Some (start_worker r) /\ _send_thread s' = Some w /\
      _mq_thd s' = _mq_thd s) /\
     (listener_ok = true -> recv_ok = true -> send_ok = true ->
      e = RAPTOR_ERROR_NONE /\ _listener s' = Some (start_worker l) /\
      _recv_thread s' = Some (start_worker r) /\
      _send_thread s' = Some (start_worker w) /\
      _mq_thd s' = start_worker (_mq_thd s))) /\
  (Windows.Init listener_e recv_e now options t = (err_already_running, t) /\
   exists e t',
     Windows.Start listener_ok recv_ok t = Ok (e, t') /\
     is_error e = negb (listener_ok && recv_ok) /\
     (listener_ok = false -> e = err_start_listener /\ t' = t) /\
     (listener_ok = true -> recv_ok = false ->
      e = err_start_rs_thread /\ _listener t' = Some (start_worker tl) /\
      _rs_thread t' = Some tr /\ _mq_thd t' = _mq_thd t /\
      _shutdown t' = false) /\
     (listener_ok = true -> recv_ok = true ->
      e = RAPTOR_ERROR_NONE /\ _listener t' = Some (start_worker tl) /\
      _rs_thread t' = Some (start_worker tr) /\
      _mq_thd t' = start_worker (_mq_thd t) /\
      _shutdown t' = false)).
Proof.
  intros Hsh Hl Hr Hw Hsht Htl Htr. split.
  - split; [apply Init_rejected, Hsh|].
    unfold Linux.Start. rewrite Hl.
    destruct listener_ok; simpl; [rewrite Hr|].
    + destruct recv_ok; simpl; [rewrite Hw|].
      * destruct send_ok; simpl; eexists _, _; (split; [reflexivity|]);
          (split; [reflexivity|]);
          repeat split; try discriminate; try reflexivity; assumption.
      * eexists _, _; (split; [reflexivity|]); (split; [reflexivity|]);
          repeat split; try discriminate; try reflexivity; assumption.
    + eexists _, _; (split; [reflexivity|]); (split; [reflexivity|]);
        repeat split; try discriminate; reflexivity.
  - split; [apply (Init_rejected listener_e recv_e send_e now options t Hsht)|].
    unfold Windows.Start. rewrite Htl.
    destruct listener_ok; simpl; [rewrite Htr|].
    + destruct recv_ok; simpl; eexists _, _; (split; [reflexivity|]);
        (split; [reflexivity|]);
        repeat split; try discriminate; try reflexivity; assumption.
    + eexists _, _; (split; [reflexivity|]); (split; [reflexivity|]);
        repeat split; try discriminate; reflexivity.
Qed.

(** ** The magic number across a restart *)

Lemma magic_of_time_div (t : Z) : magic_of_time t = (t / 2 ^ 16) mod 2 ^ 16.
Proof.
  unfold magic_of_time. change 0xffff with (Z.ones 16).
  rewrite Z.land_ones, Z.shiftr_div_pow2 by lia.
  apply u16_small. apply Z.mod_pos_bound. lia.
Qed.

(** The times of a period of [2 ^ 32] seconds that give the magic [m] are
    the [2 ^ 16] seconds of one window. *)
Lemma magic_of_time_window (t m : Z) :
  0 <= m < 2 ^ 16 ->
  (magic_of_time t = m <-> m * 2 ^ 16 <= t mod 2 ^ 32 < (m + 1) * 2 ^ 16).
Proof.
  intros Hm. rewrite magic_of_time_div.
  change (2 ^ 32) with (2 ^ 16 * 2 ^ 16).
  rewrite Z.rem_mul_r by lia.
  pose proof (Z.mod_pos_bound t (2 ^ 16) ltac:(lia)).
  pose proof (Z.mod_pos_bound (t / 2 ^ 16) (2 ^ 16) ltac:(lia)).
  split; intros; nia.
Qed.

Lemma Init_magic (now : Z) (options : RaptorOptions) (s : TcpServer) :
  _shutdown s = true ->
  let s' := (Linux.Init RAPTOR_ERROR_NONE RAPTOR_ERROR_NONE RAPTOR_ERROR_NONE
                        now options s).2 in
  _magic_number s' = magic_of_time now /\ _options s' = options.
Proof.
  intros Hsh. unfold Linux.Init. rewrite Hsh.
  generalize RESERVED_CONNECTION_COUNT as n. intros n.
  cbn [negb is_error]. rewrite foldl_push_free. split; reflexivity.
Qed.

Section Restart.
Variable InvalidConnectionId : ConnectionId.
Local Abbreviation validate := (CheckConnectionId InvalidConnectionId).

(** C9 (as amended).  [Init] sets the magic to bits 16 to 31 of the clock.
    A handle built against the magic of a first run, with an index below
    [max_connections], is rejected by the validator of a second run exactly
    when the two [Init] times differ in those bits, and is accepted with its
    index otherwise, in particular whenever both times fall in the same
    window of [2 ^ 16] seconds.  The times of a period of [2 ^ 32] seconds
    that give a second run the magic [m] are the [2 ^ 16] seconds of one
    window. *)
Theorem stale_handle_across_restart
        (t1 t2 : Z) (o1 o2 : RaptorOptions) (s1 s2 : TcpServer) (port index : Z) :
  _shutdown s1 = true -> _shutdown s2 = true ->
  0 <= index < max_connections o2 -> max_connections o2 < 2 ^ 32 ->
  let r1 := (Linux.Init RAPTOR_ERROR_NONE RAPTOR_ERROR_NONE RAPTOR_ERROR_NONE
                        t1 o1 s1).2 in
  let r2 := (Linux.Init RAPTOR_ERROR_NONE RAPTOR_ERROR_NONE RAPTOR_ERROR_NONE
                        t2 o2 s2).2 in
  let cid := BuildConnectionId (_magic_number r1) port index in
  cid <> InvalidConnectionId ->
  _magic_number r1 = (t1 / 2 ^ 16) mod 2 ^ 16 /\
  _magic_number r2 = (t2 / 2 ^ 16) mod 2 ^ 16 /\
  (validate r2 cid = InvalidIndex <->
   (t1 / 2 ^ 16) mod 2 ^ 16 <> (t2 / 2 ^ 16) mod 2 ^ 16) /\
  (validate r2 cid <> InvalidIndex -> validate r2 cid = index) /\
  (t1 / 2 ^ 16 = t2 / 2 ^ 16 -> validate r2 cid = index) /\
  (forall m, 0 <= m < 2 ^ 16 ->
             (_magic_number r2 = m <->
              m * 2 ^ 16 <= t2 mod 2 ^ 32 < (m + 1) * 2 ^ 16)).
Proof.
  intros Hs1 Hs2 Hidx Hmax r1 r2 cid Hcid.
  destruct (Init_magic t1 o1 s1 Hs1) as [Hm1 _]. fold r1 in Hm1.
  destruct (Init_magic t2 o2 s2 Hs2) as [Hm2 Ho2]. fold r2 in Hm2, Ho2.
  rewrite magic_of_time_div in Hm1, Hm2.
  pose proof (Z.mod_pos_bound (t1 / 2 ^ 16) (2 ^ 16) ltac:(lia)) as Hr1.
  assert (Hgm : GetMagicNumber cid = (t1 / 2 ^ 16) mod 2 ^ 16).
  { unfold cid. rewrite GetMagicNumber_Build, Hm1. apply u16_small, Hr1. }
  assert (Hgu : GetUserId cid = index).
  { unfold cid. rewrite GetUserId_Build. apply u32_small. lia. }
  assert (Hiff : validate r2 cid = InvalidIndex <->
                 (t1 / 2 ^ 16) mod 2 ^ 16 <> (t2 / 2 ^ 16) mod 2 ^ 16).
  { destruct (Check_cases InvalidConnectionId r2 cid) as [[E H]|[E (H1 & H2 & H3)]];
      rewrite Hgm, Hgu, ?Hm2, ?Ho2 in *.
    - split; [|intros _; exact E]. intros _.
      destruct H as [H|[H|H]]; [contradiction|exact H|lia].
    - rewrite E, InvalidIndex_value. split; [lia|congruence]. }
  assert (Hval : validate r2 cid <> InvalidIndex -> validate r2 cid = index).
  { intros Hv.
    destruct (Check_cases InvalidConnectionId r2 cid) as [[E _]|[E _]];
      [contradiction|]. rewrite E. exact Hgu. }
  repeat match goal with |- _ /\ _ => split end;
    [exact Hm1|exact Hm2|exact Hiff|exact Hval| |].
  - intros Heq. apply Hval. rewrite Hiff, Heq. tauto.
  - intros m Hm. rewrite <- magic_of_time_window by exact Hm.
    rewrite magic_of_time_div, Hm2. reflexivity.
Qed.
End Restart.

(** C9, the claim as stated.  A restart one minute after an [Init] at
    1700000000 gives the second run the magic of the first, and the handle
    of the first run is accepted: every one of the sixty restart delays
    from one second to one minute collides. *)
Lemma restart_within_the_window_keeps_the_magic :
  1700000000 <> 1700000060 /\
  exists s2,
    restarted 1700000000 1700000060 = Ok s2 /\
    _magic_number cap_thousand = 25939 /\
    _magic_number s2 = 25939 /\
    CheckConnectionId sentinel_ones s2 (handle cap_thousand 5) = 5 /\
    collisions 1700000000 60 = 60%nat /\
    2 ^ 16 * Z.of_nat (collisions 1700000000 60) > 60.
Proof.
  split; [discriminate|].
  exists (state_of (restarted 1700000000 1700000060)). by_evaluation.
Qed.

(** C6, the claim as stated.  [Start] on a running server, and on a stopped
    one, returns no error and starts every stage once more (both builds). *)
Lemma Start_accepted_when_Running :
  phase_of cap_thousand = Initialised /\
  started = Ok (RAPTOR_ERROR_NONE, running) /\
  phase_of running = Running /\
  (exists s2,
      Linux.Start true true true running = Ok (RAPTOR_ERROR_NONE, s2) /\
      phase_of s2 = Running) /\
  (exists s1 s2,
      Linux.Shutdown running = Ok s1 /\ phase_of s1 = Stopped /\
      Linux.Start true true true s1 = Ok (RAPTOR_ERROR_NONE, s2)) /\
  ~ start_rejected_outside_Initialised /\
  phase_of cap_thousand_win = Initialised /\
  started_win = Ok (RAPTOR_ERROR_NONE, running_win) /\
  phase_of running_win = Running /\
  (exists t2,
      Windows.Start true true running_win = Ok (RAPTOR_ERROR_NONE, t2) /\
      phase_of t2 = Running) /\
  (exists t1 t2,
      Windows.Shutdown running_win = Ok t1 /\ phase_of t1 = Stopped /\
      Windows.Start true true t1 = Ok (RAPTOR_ERROR_NONE, t2)) /\
  ~ windows_start_rejected_outside_Initialised.
Proof.
  by_evaluation.
  - exists (state_of (e ← Linux.Start true true true running; Ok e.2)).
    by_evaluation.
  - exists (state_of (Linux.Shutdown running)),
           (state_of (s ← Linux.Shutdown running;
                      e ← Linux.Start true true true s; Ok e.2)).
    by_evaluation.
  - intros H.
    destruct (H true true true running) as (e & He & Hs).
    + vm_compute. discriminate.
    + assert (Hr : Linux.Start true true true running
                   = Ok (RAPTOR_ERROR_NONE,
                         state_of (e ← Linux.Start true true true running; Ok e.2)))
        by (vm_compute; reflexivity).
      rewrite Hr in Hs.
      assert (He' : e = RAPTOR_ERROR_NONE) by congruence.
      rewrite He' in He. discriminate He.
  - exists (state_of (e ← Windows.Start true true running_win; Ok e.2)).
    by_evaluation.
  - exists (state_of (Windows.Shutdown running_win)),
           (state_of (s ← Windows.Shutdown running_win;
                      e ← Windows.Start true true s; Ok e.2)).
    by_evaluation.
  - intros H.
    destruct (H true true running_win) as (e & He & Hs).
    + vm_compute. discriminate.
    + assert (Hr : Windows.Start true true running_win
                   = Ok (RAPTOR_ERROR_NONE,
                         state_of (e ← Windows.Start true true running_win; Ok e.2)))
        by (vm_compute; reflexivity).
      rewrite Hr in Hs.
      assert (He' : e = RAPTOR_ERROR_NONE) by congruence.
      rewrite He' in He. discriminate He.
Qed.

(** ** The table invariant along the operations *)

Lemma timeouts_wf_ext (s s' : TcpServer) :
  _mgr s' = _mgr s ->
  tr_entries (_timeout_record_list s') = tr_entries (_timeout_record_list s) ->
  timeouts_wf s -> timeouts_wf s'.
Proof.
  intros Em Et [H1 H2 H3]. split; rewrite Et; [exact H1|exact H2|].
  eapply Forall_impl; [|exact H3]. intros e [c Hc]. exists c. rewrite Em. exact Hc.
Qed.

Lemma table_wf_ext (s s' : TcpServer) :
  _mgr s' = _mgr s ->
  _timeout_record_list s' = _timeout_record_list s ->
  _free_index_list s' = _free_index_list s ->
  table_wf s -> table_wf s'.
Proof.
  intros Em Et Ef [H1 H2 H3 H4 H5 H6].
  split; rewrite ?Em, ?Et, ?Ef; try assumption.
  apply (timeouts_wf_ext s); [exact Em|rewrite Et; reflexivity|exact H1].
Qed.

Lemma elem_of_map_node (n : nat) (l : list TimeoutEntry) :
  n ∈ map te_node l <-> exists x, x ∈ l /\ te_node x = n.
Proof.
  rewrite list_elem_of_In, in_map_iff. split; intros (x & H1 & H2).
  - exists x. split; [apply list_elem_of_In, H2|exact H1].
  - exists x. split; [exact H2|apply list_elem_of_In, H1].
Qed.

Lemma elem_of_insert_sorted (e x : TimeoutEntry) (l : list TimeoutEntry) :
  x ∈ insert_sorted e l <-> x = e \/ x ∈ l.
Proof.
  induction l as [|y l IH]; simpl.
  - rewrite list_elem_of_singleton, elem_of_nil. tauto.
  - destruct (te_deadline e <? te_deadline y);
      rewrite !elem_of_cons, ?IH; tauto.
Qed.

Lemma insert_sorted_sorted (e : TimeoutEntry) (l : list TimeoutEntry) :
  StronglySorted deadline_le l -> StronglySorted deadline_le (insert_sorted e l).
Proof.
  induction 1 as [|y l Hs IH Hall]; simpl.
  - repeat constructor.
  - destruct (Z.ltb_spec (te_deadline e) (te_deadline y)) as [Hlt|Hge].
    + constructor; [constructor; assumption|].
      constructor; [unfold deadline_le; lia|].
      eapply Forall_impl; [|exact Hall]. unfold deadline_le. intros; lia.
    + constructor; [exact IH|].
      apply list.Forall_forall. intros x Hx.
      apply elem_of_insert_sorted in Hx as [->|Hx]; [exact Hge|].
      apply (proj1 (list.Forall_forall _ _) Hall x Hx).
Qed.

Lemma nodes_insert_sorted (e : TimeoutEntry) (l : list TimeoutEntry) :
  te_node e ∉ map te_node l -> NoDup (map te_node l) ->
  NoDup (map te_node (insert_sorted e l)).
Proof.
  induction l as [|y l IH]; simpl; intros Hnotin Hnd.
  - apply list.NoDup_cons. split; [exact Hnotin|exact Hnd].
  - destruct (te_deadline e <? te_deadline y); simpl.
    + apply list.NoDup_cons. split; [exact Hnotin|exact Hnd].
    + apply not_elem_of_cons in Hnotin as [Hne Hnotin].
      apply list.NoDup_cons in Hnd as [Hy Hnd].
      apply list.NoDup_cons. split; [|apply IH; assumption].
      intros Hin. apply elem_of_map_node in Hin as (x & Hx & Hxn).
      apply elem_of_insert_sorted in Hx as [->|Hx]; [congruence|].
      apply Hy. rewrite <- Hxn. apply node_elem_of, Hx.
Qed.

Lemma nodes_filter (f : TimeoutEntry -> bool) (l : list TimeoutEntry) :
  NoDup (map te_node l) -> NoDup (map te_node (List.filter f l)).
Proof.
  induction l as [|y l IH]; simpl; intros Hnd; [exact Hnd|].
  apply list.NoDup_cons in Hnd as [Hy Hnd].
  destruct (f y); simpl; [|apply IH, Hnd].
  apply list.NoDup_cons. split; [|apply IH, Hnd].
  intros Hin. apply elem_of_map_node in Hin as (x & Hx & Hxn).
  apply elem_of_filter_list in Hx as [Hx _].
  apply Hy. rewrite <- Hxn. apply node_elem_of, Hx.
Qed.

(** A connection and its timeout entry go into an empty slot that leaves
    the free list. *)
Lemma table_wf_install (s s' : TcpServer) (index : nat) (c : Connection)
      (deadline : Z) (pre post : list nat) :
  table_wf s ->
  _free_index_list s = pre ++ index :: post ->
  _mgr s' = <[index := (Some c, It (tr_fresh (_timeout_record_list s)))]> (_mgr s) ->
  _timeout_record_list s' = (tr_insert deadline index (_timeout_record_list s)).2 ->
  _free_index_list s' = pre ++ post ->
  table_wf s'.
Proof.
  intros [[Hnd Hso Hlive] Hfresh Hslots Hempty Hfree Hfnd] Ef Em Et Ef'.
  set (new := {| te_deadline := deadline; te_index := index;
                 te_node := tr_fresh (_timeout_record_list s) |}).
  assert (Hentries : tr_entries (_timeout_record_list s')
                     = insert_sorted new (tr_entries (_timeout_record_list s)))
    by (rewrite Et; reflexivity).
  assert (Hfr : tr_fresh (_timeout_record_list s')
                = S (tr_fresh (_timeout_record_list s)))
    by (rewrite Et; reflexivity).
  rewrite Ef in Hfree, Hfnd.
  assert (Hidx : exists it0, _mgr s !! index = Some (None, it0)).
  { apply (proj1 (list.Forall_forall _ _) Hfree).
    apply elem_of_app. right. apply elem_of_cons. left. reflexivity. }
  destruct Hidx as [it0 Hidx].
  pose proof (lookup_lt_Some _ _ _ Hidx) as Hlt.
  assert (Hother : forall x, x ∈ tr_entries (_timeout_record_list s) ->
                             te_index x <> index).
  { intros x Hx Heq.
    destruct (proj1 (list.Forall_forall _ _) Hlive x Hx) as [cx Hcx].
    rewrite Heq in Hcx. congruence. }
  assert (Hnew : te_node new ∉ map te_node (tr_entries (_timeout_record_list s))).
  { intros Hin. apply elem_of_map_node in Hin as (x & Hx & Hxn).
    pose proof (proj1 (list.Forall_forall _ _) Hfresh x Hx) as Hlt'.
    simpl in Hxn, Hlt'. lia. }
  apply list.NoDup_app in Hfnd as (Hpre & Hdisj & Hpost).
  apply list.NoDup_cons in Hpost as [Hipost Hpost].
  assert (Hnotfree : forall i, i ∈ pre ++ post -> i <> index).
  { intros i Hi ->. apply elem_of_app in Hi as [Hi|Hi]; [|contradiction].
    apply (Hdisj index Hi). apply elem_of_cons. left. reflexivity. }
  split.
  - split; rewrite Hentries.
    + apply nodes_insert_sorted; assumption.
    + apply insert_sorted_sorted, Hso.
    + apply list.Forall_forall. intros x Hx. unfold live_at. rewrite Em.
      apply elem_of_insert_sorted in Hx as [->|Hx].
      * exists c. simpl. apply list_lookup_insert_eq, Hlt.
      * destruct (proj1 (list.Forall_forall _ _) Hlive x Hx) as [cx Hcx].
        exists cx. rewrite list_lookup_insert_ne by (apply not_eq_sym, Hother, Hx).
        exact Hcx.
  - rewrite Hentries, Hfr. apply list.Forall_forall. intros x Hx.
    apply elem_of_insert_sorted in Hx as [->|Hx]; [simpl; lia|].
    pose proof (proj1 (list.Forall_forall _ _) Hfresh x Hx) as Hx'.
    simpl in Hx'. lia.
  - intros i c' it. rewrite Em, Hentries.
    destruct (decide (i = index)) as [->|Hne].
    + rewrite list_lookup_insert_eq by exact Hlt. intros [= <- <-].
      exists new. split; [apply elem_of_insert_sorted; left; reflexivity|].
      split; reflexivity.
    + rewrite list_lookup_insert_ne by congruence. intros Hi.
      destruct (Hslots i c' it Hi) as (e & He & Hit & Hei).
      exists e. split; [apply elem_of_insert_sorted; right; exact He|].
      split; assumption.
  - intros i it. rewrite Em, Ef'.
    destruct (decide (i = index)) as [->|Hne].
    + rewrite list_lookup_insert_eq by exact Hlt. discriminate.
    + rewrite list_lookup_insert_ne by congruence. intros Hi.
      destruct (Hempty i it Hi) as [Hit Hin]. split; [exact Hit|].
      rewrite Ef in Hin. apply elem_of_app in Hin as [Hin|Hin];
        apply elem_of_app; [left; exact Hin|].
      apply elem_of_cons in Hin as [->|Hin]; [contradiction|right; exact Hin].
  - rewrite Ef', Em. apply list.Forall_forall. intros i Hi.
    rewrite list_lookup_insert_ne by (apply not_eq_sym, Hnotfree, Hi).
    apply (proj1 (list.Forall_forall _ _) Hfree).
    apply elem_of_app in Hi as [Hi|Hi]; apply elem_of_app; [left; exact Hi|].
    right. apply elem_of_cons. right. exact Hi.
  - rewrite Ef'. apply list.NoDup_app. split; [exact Hpre|]. split; [|exact Hpost].
    intros i Hi Hip. apply (Hdisj i Hi). apply elem_of_cons. right. exact Hip.
Qed.

(** A live slot is emptied, its entry erased and its index pushed on the
    free list. *)
Lemma table_wf_remove (s s' : TcpServer) (index : nat) (c : Connection) (n : nat) :
  table_wf s ->
  _mgr s !! index = Some (Some c, It n) ->
  _mgr s' = <[index := (None, End)]> (_mgr s) ->
  tr_entries (_timeout_record_list s')
  = List.filter (fun x => negb (is_node n x)) (tr_entries (_timeout_record_list s)) ->
  tr_fresh (_timeout_record_list s') = tr_fresh (_timeout_record_list s) ->
  _free_index_list s' = _free_index_list s ++ [index] ->
  table_wf s'.
Proof.
  intros [[Hnd Hso Hlive] Hfresh Hslots Hempty Hfree Hfnd] Hslot Em Et Efr Ef.
  pose proof (lookup_lt_Some _ _ _ Hslot) as Hlt.
  destruct (Hslots index c (It n) Hslot) as (e & He & Hen & Hei).
  injection Hen as Hen.
  assert (Hin : forall x, x ∈ tr_entries (_timeout_record_list s') <->
                          x ∈ tr_entries (_timeout_record_list s) /\ te_node x <> n).
  { intros x. rewrite Et, elem_of_filter_list, negb_true_iff.
    rewrite <- (is_node_true n x). destruct (is_node n x); intuition congruence. }
  assert (Hother : forall x, x ∈ tr_entries (_timeout_record_list s) ->
                             te_node x <> n -> te_index x <> index).
  { intros x Hx Hxn Heq.
    destruct (proj1 (list.Forall_forall _ _) Hlive x Hx) as [cx Hcx].
    rewrite Heq, Hslot in Hcx. congruence. }
  assert (Hnotfree : index ∉ _free_index_list s).
  { intros Hi. destruct (proj1 (list.Forall_forall _ _) Hfree index Hi) as [it Hit].
    congruence. }
  split.
  - split; rewrite ?Et.
    + apply nodes_filter, Hnd.
    + apply StronglySorted_filter, Hso.
    + rewrite <- Et. apply list.Forall_forall. intros x Hx.
      apply Hin in Hx as [Hx Hxn].
      destruct (proj1 (list.Forall_forall _ _) Hlive x Hx) as [cx Hcx].
      exists cx. rewrite Em.
      rewrite list_lookup_insert_ne by (apply not_eq_sym, Hother; assumption).
      exact Hcx.
  - rewrite Efr. apply list.Forall_forall. intros x Hx.
    apply Hin in Hx as [Hx _].
    apply (proj1 (list.Forall_forall _ _) Hfresh x Hx).
  - intros i c' it. rewrite Em.
    destruct (decide (i = index)) as [->|Hne].
    + rewrite list_lookup_insert_eq by exact Hlt. discriminate.
    + rewrite list_lookup_insert_ne by congruence. intros Hi.
      destruct (Hslots i c' it Hi) as (e' & He' & Hit & Hei').
      exists e'. split; [|split; assumption].
      apply Hin. split; [exact He'|]. intros Hn'.
      apply Hne. rewrite <- Hei', <- Hei. f_equal.
      apply (node_inj _ e' e Hnd He' He). congruence.
  - intros i it. rewrite Em, Ef.
    destruct (decide (i = index)) as [->|Hne].
    + rewrite list_lookup_insert_eq by exact Hlt. intros [= <-].
      split; [left; reflexivity|]. apply elem_of_app. right.
      apply list_elem_of_singleton. reflexivity.
    + rewrite list_lookup_insert_ne by congruence. intros Hi.
      destruct (Hempty i it Hi) as [Hit Hin']. split; [exact Hit|].
      apply elem_of_app. left. exact Hin'.
  - rewrite Ef, Em. apply list.Forall_app. split.
    + apply list.Forall_forall. intros i Hi.
      rewrite list_lookup_insert_ne by (intros ->; contradiction).
      apply (proj1 (list.Forall_forall _ _) Hfree i Hi).
    + constructor; [|constructor]. exists End. apply list_lookup_insert_eq, Hlt.
  - rewrite Ef. apply list.NoDup_app. split; [exact Hfnd|].
    split; [|apply NoDup_singleton].
    intros i Hi Hi'. apply list_elem_of_singleton in Hi'. subst i. contradiction.
Qed.

Lemma keeps_refl (s : TcpServer) : keeps s s.
Proof. unfold keeps. auto. Qed.

Lemma keeps_trans (s1 s2 s3 : TcpServer) : keeps s1 s2 -> keeps s2 s3 -> keeps s1 s3.
Proof.
  intros (A1 & A2 & A3) (B1 & B2 & B3).
  split; [congruence|]. split; auto.
Qed.

Lemma keeps_shutdown (s s' : TcpServer) : keeps s s' -> _shutdown s' = _shutdown s.
Proof. intros [H _]. unfold lifecycle in H. congruence. Qed.

Lemma server_inv_same_table (s s' : TcpServer) :
  _shutdown s' = _shutdown s ->
  _mgr s' = _mgr s ->
  _timeout_record_list s' = _timeout_record_list s ->
  _free_index_list s' = _free_index_list s ->
  server_inv s -> server_inv s'.
Proof.
  intros Es Em Et Ef [Hwf He]. split.
  - apply (table_wf_ext s); assumption.
  - rewrite Es. unfold table_empty. rewrite Em, Et, Ef. exact He.
Qed.

Lemma keeps_same_table (s s' : TcpServer) :
  lifecycle s' = lifecycle s ->
  _mgr s' = _mgr s ->
  _timeout_record_list s' = _timeout_record_list s ->
  _free_index_list s' = _free_index_list s ->
  keeps s s'.
Proof.
  intros Es Em Et Ef. split; [exact Es|]. split.
  - apply table_wf_ext; assumption.
  - unfold table_empty. rewrite Em, Et, Ef. auto.
Qed.

Lemma keeps_emit (e : effect) (s : TcpServer) : keeps s (emit e s).
Proof. apply keeps_same_table; reflexivity. Qed.

Lemma server_inv_keeps (s s' : TcpServer) : server_inv s -> keeps s s' -> server_inv s'.
Proof.
  intros [Hwf He] K. pose proof (keeps_shutdown s s' K) as Es.
  destruct K as (_ & Kwf & Ke). split; [auto|].
  rewrite Es. auto.
Qed.

Lemma table_wf_empty (s : TcpServer) : table_empty s -> table_wf s.
Proof.
  intros (Em & Ef & Et). split; [split|..]; rewrite ?Em, ?Ef, ?Et;
    try (constructor; fail).
  - intros i c it. rewrite lookup_nil. discriminate.
  - intros i it. rewrite lookup_nil. discriminate.
Qed.

Lemma shutdown_conn_inv (i : nat) (b : bool) (s s' : TcpServer) :
  shutdown_conn i b s = Ok s' ->
  exists c it, _mgr s !! i = Some (Some c, it) /\
               s' = emit (ConnShutdown (conn_cid c) b) s.
Proof.
  unfold shutdown_conn, slot_at.
  destruct (_mgr s !! i) as [[[c|] it]|]; simpl; try discriminate.
  intros [= <-]. eauto.
Qed.

Lemma shutdown_conn_keeps (i : nat) (b : bool) (s s' : TcpServer) :
  shutdown_conn i b s = Ok s' -> keeps s s'.
Proof.
  intros H. apply shutdown_conn_inv in H as (c & it & _ & ->). apply keeps_emit.
Qed.

Lemma erase_timeout_inv (it : iterator) (s s' : TcpServer) :
  erase_timeout it s = Ok s' ->
  exists n, it = It n /\
    s' = set_timeout_record_list
           {| tr_entries := List.filter (fun x => negb (is_node n x))
                                        (tr_entries (_timeout_record_list s));
              tr_fresh := tr_fresh (_timeout_record_list s) |} s.
Proof.
  unfold erase_timeout, tr_erase.
  destruct it as [n| |]; simpl; try discriminate.
  destruct (existsb (is_node n) _); simpl; [|discriminate].
  intros [= <-]. eauto.
Qed.

Lemma linux_DeleteConnection_inv (index : nat) (s s' : TcpServer) :
  Linux.DeleteConnection index s = Ok s' ->
  exists o n,
    _mgr s !! index = Some (o, It n) /\
    _mgr s' = <[index := (None, End)]> (_mgr s) /\
    tr_entries (_timeout_record_list s')
    = List.filter (fun x => negb (is_node n x)) (tr_entries (_timeout_record_list s)) /\
    tr_fresh (_timeout_record_list s') = tr_fresh (_timeout_record_list s) /\
    _free_index_list s' = _free_index_list s ++ [index] /\
    lifecycle s' = lifecycle s.
Proof.
  unfold Linux.DeleteConnection, set_first, slot_at.
  destruct (_mgr s !! index) as [[o it]|] eqn:Hslot; simpl; [|discriminate].
  pose proof (lookup_lt_Some _ _ _ Hslot) as Hlt.
  rewrite list_lookup_insert_eq by exact Hlt. simpl.
  destruct (erase_timeout it _) as [s2|f] eqn:He; simpl; [|discriminate].
  apply erase_timeout_inv in He as (n & -> & ->).
  unfold set_second, slot_at. simpl.
  rewrite list_lookup_insert_eq by exact Hlt. simpl.
  intros [= <-]. exists o, n. simpl. rewrite list_insert_insert_eq.
  repeat split; reflexivity.
Qed.

Lemma linux_DeleteConnection_keeps (index : nat) (s s' : TcpServer) :
  Linux.DeleteConnection index s = Ok s' -> keeps s s'.
Proof.
  intros H. apply linux_DeleteConnection_inv in H
    as (o & n & Hslot & Em & Et & Efr & Ef & Es).
  split; [exact Es|]. split.
  - intros Hwf. destruct o as [c|].
    + apply (table_wf_remove s s' index c n); assumption.
    + destruct (twf_empty s Hwf index (It n) Hslot) as [[H|H] _]; discriminate.
  - intros (Hm & _). rewrite Hm, lookup_nil in Hslot. discriminate.
Qed.

Lemma evict_keeps (index : nat) (s s' : TcpServer) :
  Linux.evict index s = Ok s' -> keeps s s'.
Proof.
  unfold Linux.evict.
  destruct (shutdown_conn index true s) as [s1|] eqn:H1; simpl; [|discriminate].
  intros H2. apply (keeps_trans s s1 s').
  - apply (shutdown_conn_keeps _ _ _ _ H1).
  - apply (linux_DeleteConnection_keeps _ _ _ H2).
Qed.

Lemma sweep_keeps (current : Z) (fuel : nat) :
  forall (it : iterator) (s s' : TcpServer),
    sweep Linux.evict fuel current it s = Some (Ok s') -> keeps s s'.
Proof.
  induction fuel as [|fuel IH]; intros it s s'; simpl; [discriminate|].
  destruct it as [n| |]; try discriminate.
  2: { intros [= <-]. apply keeps_refl. }
  destruct (tr_find n (_timeout_record_list s)) as [e|]; [|discriminate].
  destruct (te_deadline e >? current); [intros [= <-]; apply keeps_refl|].
  destruct (Linux.evict (te_index e) s) as [s1|] eqn:He; [|discriminate].
  intros H. apply (keeps_trans s s1 s').
  - apply (evict_keeps _ _ _ He).
  - apply (IH _ _ _ H).
Qed.

Lemma OnCheckingEvent_keeps (current : Z) (s s' : TcpServer) :
  Linux.OnCheckingEvent current s = Some (Ok s') -> keeps s s'.
Proof.
  unfold Linux.OnCheckingEvent.
  destruct (current - _last_timeout_time s <? 1); [intros [= <-]; apply keeps_refl|].
  intros H. apply (keeps_trans s (set_last_timeout_time current s) s').
  - apply keeps_same_table; reflexivity.
  - apply (sweep_keeps _ _ _ _ _ H).
Qed.

(** The deadline of a live slot is replaced. *)
Lemma refresh_keeps (deadline : Z) (index : nat) (c : Connection) (it : iterator)
      (s s1 s' : TcpServer) :
  _mgr s !! index = Some (Some c, it) ->
  erase_timeout it s = Ok s1 ->
  insert_timeout deadline index s1 = Ok s' ->
  keeps s s'.
Proof.
  intros Hslot He Hi.
  pose proof (lookup_lt_Some _ _ _ Hslot) as Hlt.
  apply erase_timeout_inv in He as (n & -> & ->).
  unfold insert_timeout, tr_insert, set_second, slot_at in Hi. simpl in Hi.
  rewrite Hslot in Hi. simpl in Hi. injection Hi as <-.
  split; [reflexivity|]. split.
  - intros Hwf.
    set (mid := push_free index
                  (set_mgr (<[index := (None, End)]> (_mgr s))
                     (set_timeout_record_list
                        {| tr_entries := List.filter (fun x => negb (is_node n x))
                                           (tr_entries (_timeout_record_list s));
                           tr_fresh := tr_fresh (_timeout_record_list s) |} s))).
    assert (Hmid : table_wf mid)
      by (apply (table_wf_remove s mid index c n); try assumption; reflexivity).
    eapply (table_wf_install mid _ index c deadline (_free_index_list s) []);
      [exact Hmid|reflexivity| |reflexivity|].
    + simpl. rewrite list_insert_insert_eq. reflexivity.
    + simpl. rewrite app_nil_r. reflexivity.
  - intros (Hm & _). rewrite Hm, lookup_nil in Hslot. discriminate.
Qed.

Lemma slot_at_inv (i : nat) (s : TcpServer) (d : ConnectionData) :
  slot_at i s = Ok d -> _mgr s !! i = Some d.
Proof.
  unfold slot_at. destruct (_mgr s !! i); [intros [= ->]; reflexivity|discriminate].
Qed.

Lemma set_first_inv (i : nat) (c : option Connection) (s s' : TcpServer) :
  set_first i c s = Ok s' ->
  exists d, _mgr s !! i = Some d /\ s' = set_mgr (<[i := (c, d.2)]> (_mgr s)) s.
Proof.
  unfold set_first, slot_at. destruct (_mgr s !! i) as [d|]; simpl; [|discriminate].
  intros [= <-]. eauto.
Qed.

Lemma insert_timeout_inv (deadline : Z) (i : nat) (s s' : TcpServer) :
  insert_timeout deadline i s = Ok s' ->
  exists d, _mgr s !! i = Some d /\
    s' = set_mgr (<[i := (d.1, It (tr_fresh (_timeout_record_list s)))]> (_mgr s))
           (set_timeout_record_list
              (tr_insert deadline i (_timeout_record_list s)).2 s).
Proof.
  unfold insert_timeout, tr_insert, set_second, slot_at. simpl.
  destruct (_mgr s !! i) as [d|]; simpl; [|discriminate].
  intros [= <-]. eauto.
Qed.

(** The seeding loop of a growth step. *)
Lemma seed_slots_spec (k : nat) :
  forall (s : TcpServer) (pre : list ConnectionData),
    _mgr s = pre ++ replicate k (None, Singular) ->
    exists s',
      seed_slots (seq (length pre) k) s = Ok s' /\
      _mgr s' = pre ++ replicate k (None, End) /\
      _free_index_list s' = _free_index_list s ++ seq (length pre) k /\
      _timeout_record_list s' = _timeout_record_list s /\
      lifecycle s' = lifecycle s.
Proof.
  induction k as [|k IH]; intros s pre Hm.
  - exists s. simpl in *. rewrite !app_nil_r in *. auto.
  - cbn [seq seed_slots]. rewrite replicate_S in Hm.
    unfold set_first, slot_at. rewrite Hm.
    rewrite list_lookup_middle by reflexivity. simpl.
    unfold set_second, slot_at. simpl.
    rewrite list_lookup_insert_eq
      by (rewrite length_app; simpl; lia).
    simpl. rewrite list_insert_insert_eq.
    rewrite insert_app_r_alt by lia. rewrite Nat.sub_diag. simpl.
    match goal with |- context [seed_slots _ ?t] =>
      destruct (IH t (pre ++ [(None, End)])) as (s' & H1 & H2 & H3 & H4 & H5) end.
    { simpl. rewrite <- app_assoc. reflexivity. }
    rewrite length_app in H1, H3. simpl in H1, H3.
    rewrite Nat.add_1_r in H1, H3.
    exists s'. split; [exact H1|].
    rewrite H2, H3, H4, H5. simpl. rewrite <- !app_assoc. simpl. auto.
Qed.

Lemma table_wf_grow (s s1 : TcpServer) (k : nat) :
  table_wf s ->
  _mgr s1 = _mgr s ++ replicate k (None, End) ->
  _free_index_list s1 = _free_index_list s ++ seq (length (_mgr s)) k ->
  _timeout_record_list s1 = _timeout_record_list s ->
  table_wf s1.
Proof.
  intros [[Hnd Hso Hlive] Hfresh Hslots Hempty Hfree Hfnd] Em Ef Et.
  assert (Hold : forall i d, _mgr s !! i = Some d -> _mgr s1 !! i = Some d).
  { intros i d Hi. rewrite Em, lookup_app_l by apply (lookup_lt_Some _ _ _ Hi).
    exact Hi. }
  assert (Hcases : forall i d, _mgr s1 !! i = Some d ->
             _mgr s !! i = Some d \/
             (d = (None, End) /\ (length (_mgr s) <= i < length (_mgr s) + k)%nat)).
  { intros i d. rewrite Em, lookup_app_Some, lookup_replicate.
    intros [H|(Hle & -> & Hlt)]; [left; exact H|right; split; [reflexivity|lia]]. }
  split.
  - split; rewrite Et; [exact Hnd|exact Hso|].
    eapply Forall_impl; [|exact Hlive]. intros e [c Hc]. exists c. auto.
  - rewrite Et. exact Hfresh.
  - intros i c it Hi. rewrite Et.
    destruct (Hcases _ _ Hi) as [H|[H _]]; [eauto|discriminate].
  - intros i it Hi. rewrite Ef.
    destruct (Hcases _ _ Hi) as [H|[H Hr]].
    + destruct (Hempty i it H) as [Hit Hin]. split; [exact Hit|].
      apply elem_of_app. left. exact Hin.
    + injection H as ->. split; [left; reflexivity|].
      apply elem_of_app. right. apply elem_of_seq. lia.
  - rewrite Ef. apply list.Forall_app. split.
    + eapply Forall_impl; [|exact Hfree]. intros i [it Hit]. exists it. auto.
    + apply list.Forall_forall. intros i Hi. apply elem_of_seq in Hi.
      exists End. rewrite Em, lookup_app_r by lia.
      apply lookup_replicate_2. lia.
  - rewrite Ef. apply list.NoDup_app. split; [exact Hfnd|].
    split; [|apply NoDup_seq].
    intros i Hi Hi'. apply elem_of_seq in Hi'.
    destruct (proj1 (list.Forall_forall _ _) Hfree i Hi) as [it Hit].
    apply lookup_lt_Some in Hit. lia.
Qed.

Lemma grow_keeps (s s1 : TcpServer) :
  Z.of_nat (length (_mgr s)) < max_connections (_options s) ->
  grow s = Ok s1 -> keeps s s1.
Proof.
  intros Hroom. unfold grow.
  set (count := length (_mgr s)).
  set (expand := if Z.of_nat count * 2 <? max_connections (_options s)
                 then (count * 2)%nat
                 else Z.to_nat (max_connections (_options s))).
  assert (Hle : (count <= expand)%nat).
  { unfold expand. destruct (Z.ltb_spec (Z.of_nat count * 2)
                                         (max_connections (_options s))); lia. }
  destruct (seed_slots_spec (expand - count)
              (set_mgr (resize expand (_mgr s)) s) (_mgr s))
    as (s' & H1 & H2 & H3 & H4 & H5).
  { simpl. unfold resize. rewrite take_ge by (fold count; lia). reflexivity. }
  fold count in H1. rewrite H1. intros [= <-].
  split; [exact H5|]. split.
  - intros Hwf. apply (table_wf_grow s s' (expand - count)); assumption.
  - intros (Hm & Hf & Ht). unfold table_empty.
    assert (Hc : count = 0%nat) by (unfold count; rewrite Hm; reflexivity).
    assert (He : expand = 0%nat).
    { unfold expand. rewrite Hc in *.
      destruct (Z.ltb_spec (Z.of_nat 0 * 2) (max_connections (_options s))); lia. }
    rewrite H2, H3, H4. simpl. rewrite Hm, Hf, Ht, He, Hc. auto.
Qed.

Lemma linux_accept_keeps (now sock listen_port : Z) (s s' : TcpServer) :
  _free_index_list s <> [] ->
  Linux.OnNewConnection now sock listen_port s = Ok s' -> keeps s s'.
Proof.
  intros Hne. unfold Linux.OnNewConnection.
  rewrite bool_decide_eq_false_2 by exact Hne. simpl.
  destruct (_free_index_list s) as [|index rest] eqn:Hf; [contradiction|].
  destruct (set_first index _ _) as [s1|] eqn:H1; simpl; [|discriminate].
  apply set_first_inv in H1 as (d & Hd & ->). simpl in Hd.
  pose proof (lookup_lt_Some _ _ _ Hd) as Hlt.
  intros H2. apply insert_timeout_inv in H2 as (d' & Hd' & ->).
  simpl in Hd'. simpl.
  rewrite list_lookup_insert_eq in Hd' by exact Hlt. injection Hd' as <-.
  simpl. rewrite list_insert_insert_eq.
  split; [reflexivity|]. split.
  - intros Hwf.
    eapply (table_wf_install s _ index _ _ [] rest);
      [exact Hwf|exact Hf|reflexivity|reflexivity|reflexivity].
  - intros (_ & Hfe & _). congruence.
Qed.

Lemma linux_OnNewConnection_keeps (now sock listen_port : Z) (s s' : TcpServer) :
  Linux.OnNewConnection now sock listen_port s = Ok s' -> keeps s s'.
Proof.
  destruct (decide (_free_index_list s = [])) as [Hf|Hf];
    [|apply linux_accept_keeps, Hf].
  unfold Linux.OnNewConnection. rewrite bool_decide_eq_true_2 by exact Hf.
  destruct (Z.geb_spec (Z.of_nat (length (_mgr s))) (max_connections (_options s)))
    as [Hfull|Hroom]; simpl.
  - intros [= <-]. eapply keeps_trans; apply keeps_emit.
  - destruct (grow s) as [s1|] eqn:Hg; simpl; [|discriminate].
    intros H. apply (keeps_trans s s1 s').
    + apply grow_keeps; [lia|exact Hg].
    + assert (Hne : _free_index_list s1 <> [])
        by (intros Heq; rewrite Heq in H; discriminate).
      apply (linux_accept_keeps now sock listen_port); [exact Hne|].
      unfold Linux.OnNewConnection.
      rewrite bool_decide_eq_false_2 by exact Hne. exact H.
Qed.

(** The frame of [Start]: the equalities hold by computation, and a worker
    that existed still exists. *)
Ltac start_frame :=
  repeat match goal with |- _ /\ _ => split end;
  try reflexivity;
  intros ?;
  repeat match goal with
         | H : _ /\ _ |- _ => destruct H
         | |- _ /\ _ => split
         end;
  simpl;
  first [ assumption
        | eexists; reflexivity
        | match goal with
          | E : ?x = Some _ |- is_Some ?x => rewrite E; eexists; reflexivity
          end ].

Section ReachableFacts.
Variable InvalidConnectionId : ConnectionId.
Local Abbreviation validate := (CheckConnectionId InvalidConnectionId).

Lemma linux_Send_keeps (ok : bool) (cid : ConnectionId) (len : Z)
      (s s' : TcpServer) (b : bool) :
  Linux.Send InvalidConnectionId ok cid len s = Ok (b, s') -> keeps s s'.
Proof.
  unfold Linux.Send.
  destruct (validate s cid =? InvalidIndex); [intros [= _ <-]; apply keeps_refl|].
  destruct (slot_at _ s) as [[[c|] it]|]; simpl; try discriminate;
    intros [= _ <-]; [apply keeps_emit|apply keeps_refl].
Qed.

Lemma linux_close_keeps (i : nat) (notify : bool) (s s' : TcpServer) :
  (s1 ← shutdown_conn i notify s; Linux.DeleteConnection i s1) = Ok s' ->
  keeps s s'.
Proof.
  destruct (shutdown_conn i notify s) as [s1|] eqn:H1; simpl; [|discriminate].
  intros H2. apply (keeps_trans s s1 s').
  - apply (shutdown_conn_keeps _ _ _ _ H1).
  - apply (linux_DeleteConnection_keeps _ _ _ H2).
Qed.

Lemma linux_CloseConnection_keeps (cid : ConnectionId) (s s' : TcpServer) (b : bool) :
  Linux.CloseConnection InvalidConnectionId cid s = Ok (b, s') -> keeps s s'.
Proof.
  unfold Linux.CloseConnection.
  destruct (validate s cid =? InvalidIndex); [intros [= _ <-]; apply keeps_refl|].
  destruct (slot_at _ s) as [[[c|] it]|]; simpl; try discriminate;
    [|intros [= _ <-]; apply keeps_refl].
  destruct (shutdown_conn _ false s) as [s1|] eqn:H1; simpl; [|discriminate].
  destruct (Linux.DeleteConnection _ s1) as [s2|] eqn:H2; simpl; [|discriminate].
  intros [= _ <-]. apply (keeps_trans s s1 s2).
  - apply (shutdown_conn_keeps _ _ _ _ H1).
  - apply (linux_DeleteConnection_keeps _ _ _ H2).
Qed.

Lemma linux_OnErrorEvent_keeps (cid : ConnectionId) (s s' : TcpServer) :
  Linux.OnErrorEvent InvalidConnectionId cid s = Ok s' -> keeps s s'.
Proof.
  unfold Linux.OnErrorEvent.
  destruct (validate s cid =? InvalidIndex); [intros [= <-]; apply keeps_emit|].
  destruct (slot_at _ s) as [[[c|] it]|]; simpl; try discriminate;
    [|intros [= <-]; apply keeps_refl].
  apply linux_close_keeps.
Qed.

(** The common shape of [OnRecvEvent] and [OnSendEvent] once the slot is
    known to be live. *)
Lemma linux_io_event_keeps (ok : bool) (deadline : Z) (i : nat)
      (e1 e2 : effect) (c : Connection) (it : iterator) (s s' : TcpServer) :
  _mgr s !! i = Some (Some c, it) ->
  (if negb ok
   then s1 ← shutdown_conn i true (emit e2 (emit e1 s)); Linux.DeleteConnection i s1
   else d ← slot_at i (emit e1 s);
        s1 ← erase_timeout d.2 (emit e1 s);
        insert_timeout deadline i s1) = Ok s' ->
  keeps s s'.
Proof.
  intros Hslot. destruct ok; simpl.
  - unfold slot_at. simpl. rewrite Hslot. simpl.
    destruct (erase_timeout it (emit e1 s)) as [s1|] eqn:He; simpl; [|discriminate].
    intros Hi. apply (keeps_trans s (emit e1 s) s'); [apply keeps_emit|].
    apply (refresh_keeps deadline i c it (emit e1 s) s1 s'); assumption.
  - intros H. apply (keeps_trans s (emit e2 (emit e1 s)) s').
    + eapply keeps_trans; apply keeps_emit.
    + apply (linux_close_keeps _ _ _ _ H).
Qed.

Lemma linux_OnRecvEvent_keeps (ok : bool) (now : Z) (cid : ConnectionId)
      (s s' : TcpServer) :
  Linux.OnRecvEvent InvalidConnectionId ok now cid s = Ok s' -> keeps s s'.
Proof.
  unfold Linux.OnRecvEvent.
  destruct (validate s cid =? InvalidIndex); [intros [= <-]; apply keeps_emit|].
  destruct (slot_at _ s) as [[[c|] it]|] eqn:Hs; simpl; try discriminate.
  apply slot_at_inv in Hs.
  apply (linux_io_event_keeps ok _ _ _ _ c it s s' Hs).
Qed.

Lemma linux_OnSendEvent_keeps (ok : bool) (now : Z) (cid : ConnectionId)
      (s s' : TcpServer) :
  Linux.OnSendEvent InvalidConnectionId ok now cid s = Ok s' -> keeps s s'.
Proof.
  unfold Linux.OnSendEvent.
  destruct (validate s cid =? InvalidIndex); [intros [= <-]; apply keeps_emit|].
  destruct (slot_at _ s) as [[[c|] it]|] eqn:Hs; simpl; try discriminate.
  apply slot_at_inv in Hs.
  apply (linux_io_event_keeps ok _ _ _ _ c it s s' Hs).
Qed.

(** [Start] touches the workers only, and leaves each of them in place. *)
Lemma linux_Start_frame (lo ro so : bool) (s s' : TcpServer) (e : raptor_error) :
  Linux.Start lo ro so s = Ok (e, s') ->
  _shutdown s' = _shutdown s /\ _mgr s' = _mgr s /\
  _timeout_record_list s' = _timeout_record_list s /\
  _free_index_list s' = _free_index_list s /\
  (linux_workers s -> linux_workers s').
Proof.
  unfold Linux.Start, linux_workers.
  destruct (_listener s) eqn:Hl; [|discriminate].
  destruct lo; simpl; [|intros [= _ <-]; start_frame].
  destruct (_recv_thread s) eqn:Hr; [|discriminate].
  destruct ro; simpl; [|intros [= _ <-]; start_frame].
  destruct (_send_thread s) eqn:Hw; [|discriminate].
  destruct so; simpl; intros [= _ <-]; start_frame.
Qed.

Lemma table_wf_reserved (s : TcpServer) (n : nat) :
  _mgr s = replicate n (None, Singular) ->
  _free_index_list s = seq 0 n ->
  tr_entries (_timeout_record_list s) = [] ->
  table_wf s.
Proof.
  intros Em Ef Et. split; [split|..]; rewrite ?Em, ?Ef, ?Et;
    try (constructor; fail).
  - intros i c it Hi. apply lookup_replicate in Hi as [[=] _].
  - intros i it Hi. apply lookup_replicate in Hi as [[= ->] Hlt].
    split; [right; reflexivity|]. apply elem_of_seq. lia.
  - apply list.Forall_forall. intros i Hi. apply elem_of_seq in Hi.
    exists Singular. apply lookup_replicate_2. lia.
  - apply NoDup_seq.
Qed.

Lemma linux_Init_inv (le re se : raptor_error) (now : Z) (o : RaptorOptions)
      (s : TcpServer) :
  server_inv s -> server_inv (Linux.Init le re se now o s).2.
Proof.
  intros Hinv. pose proof Hinv as [Hwf Hempty]. unfold Linux.Init.
  generalize RESERVED_CONNECTION_COUNT as n. intros n.
  destruct (_shutdown s) eqn:Hsh; cbn [negb]; [|exact Hinv].
  destruct (Hempty eq_refl) as (Hm & Hf & Ht).
  assert (Hsame : forall t, _shutdown t = true -> _mgr t = _mgr s ->
                            _timeout_record_list t = _timeout_record_list s ->
                            _free_index_list t = _free_index_list s ->
                            server_inv t).
  { intros t E1 E2 E3 E4.
    apply (server_inv_same_table s); [congruence|assumption..]. }
  destruct (is_error le); [apply Hsame; simpl; first [exact Hsh|reflexivity]|].
  destruct (is_error re); [apply Hsame; simpl; first [exact Hsh|reflexivity]|].
  destruct (is_error se); [apply Hsame; simpl; first [exact Hsh|reflexivity]|].
  rewrite foldl_push_free. simpl. split; [|discriminate].
  apply (table_wf_reserved _ n); simpl.
  - rewrite Hm. unfold resize. rewrite take_nil, Nat.sub_0_r. reflexivity.
  - rewrite Hf. reflexivity.
  - exact Ht.
Qed.

Lemma linux_Shutdown_inv (s s' : TcpServer) :
  server_inv s -> Linux.Shutdown s = Ok s' -> server_inv s'.
Proof.
  intros Hinv. unfold Linux.Shutdown.
  destruct (_shutdown s) eqn:Hsh; simpl; [intros [= <-]; exact Hinv|].
  destruct (_listener s), (_recv_thread s), (_send_thread s); try discriminate.
  intros [= <-].
  assert (He : forall t, table_empty t -> server_inv t)
    by (intros t Ht; split; [apply table_wf_empty, Ht|intros _; exact Ht]).
  apply He. unfold table_empty. simpl.
  match goal with |- context [shutdown_all ?m ?t] =>
    destruct (shutdown_all_fields m t) as (E1 & E2 & E3 & E4 & E5) end.
  rewrite E4, E5. simpl. auto.
Qed.

(** Every state the epoll build can reach from the constructor satisfies
    the invariant: P2 and P3 of the testable properties. *)
Lemma linux_reachable_server_inv (s : TcpServer) :
  linux_reachable InvalidConnectionId s -> server_inv s.
Proof.
  induction 1 as [|s s' _ IH Hstep].
  - split; [apply table_wf_empty|intros _]; repeat split; reflexivity.
  - destruct Hstep.
    + apply linux_Init_inv, IH.
    + match goal with H : Linux.Start _ _ _ _ = _ |- _ =>
        apply linux_Start_frame in H as (E1 & E2 & E3 & E4 & _) end.
      apply (server_inv_same_table s); assumption.
    + eapply linux_Shutdown_inv; eassumption.
    + apply (server_inv_keeps s _ IH). eapply linux_Send_keeps; eassumption.
    + apply (server_inv_keeps s _ IH). eapply linux_CloseConnection_keeps; eassumption.
    + apply (server_inv_keeps s _ IH). eapply linux_OnNewConnection_keeps; eassumption.
    + apply (server_inv_keeps s _ IH). eapply linux_OnErrorEvent_keeps; eassumption.
    + apply (server_inv_keeps s _ IH). eapply linux_OnRecvEvent_keeps; eassumption.
    + apply (server_inv_keeps s _ IH). eapply linux_OnSendEvent_keeps; eassumption.
    + apply (server_inv_keeps s _ IH). eapply OnCheckingEvent_keeps; eassumption.
    + apply (server_inv_keeps s _ IH). apply keeps_same_table; reflexivity.
    + apply (server_inv_keeps s _ IH). apply keeps_same_table; reflexivity.
    + apply (server_inv_keeps s _ IH). apply keeps_same_table; reflexivity.
Qed.

(** In particular the hypothesis of the sweep theorem holds in every
    reachable state. *)
Lemma linux_reachable_timeouts_wf (s : TcpServer) :
  linux_reachable InvalidConnectionId s -> timeouts_wf s.
Proof. intros H. apply linux_reachable_server_inv in H as [Hwf _]. apply Hwf. Qed.
End ReachableFacts.

(** *** The IOCP build *)

Lemma table_wf_rotate (s s' : TcpServer) (index : nat) (rest : list nat) :
  table_wf s ->
  _free_index_list s = index :: rest ->
  _mgr s' = _mgr s ->
  _timeout_record_list s' = _timeout_record_list s ->
  _free_index_list s' = rest ++ [index] ->
  table_wf s'.
Proof.
  intros [Htw Hfresh Hslots Hempty Hfree Hfnd] Ef Em Et Ef'.
  assert (Hin : forall i, i ∈ _free_index_list s' <-> i ∈ _free_index_list s).
  { intros i. rewrite Ef, Ef', elem_of_app, !elem_of_cons, elem_of_nil.
    tauto. }
  split; rewrite ?Em, ?Et.
  - apply (timeouts_wf_ext s); [exact Em|rewrite Et; reflexivity|exact Htw].
  - exact Hfresh.
  - exact Hslots.
  - intros i it Hi. destruct (Hempty i it Hi) as [H1 H2].
    split; [exact H1|apply Hin, H2].
  - apply list.Forall_forall. intros i Hi. apply Hin in Hi.
    apply (proj1 (list.Forall_forall _ _) Hfree i Hi).
  - rewrite Ef'. rewrite Ef in Hfnd. apply list.NoDup_cons in Hfnd as [Hni Hnd].
    apply list.NoDup_app. split; [exact Hnd|]. split; [|apply NoDup_singleton].
    intros i Hi Hi'. apply list_elem_of_singleton in Hi'. subst i. contradiction.
Qed.

Lemma windows_DeleteConnection_keeps (index : nat) (s s' : TcpServer) :
  Windows.DeleteConnection index s = Ok s' -> keeps s s'.
Proof.
  change (Windows.DeleteConnection index s)
    with (d ← slot_at index s;
          match d.1 with
          | None => Ok s
          | Some _ => Linux.DeleteConnection index s
          end).
  destruct (slot_at index s) as [[[c|] it]|]; simpl; try discriminate.
  - apply linux_DeleteConnection_keeps.
  - intros [= <-]. apply keeps_refl.
Qed.

Lemma windows_RefreshTime_keeps (now : Z) (index : nat) (s s' : TcpServer) :
  Windows.RefreshTime now index s = Ok s' -> keeps s s'.
Proof.
  unfold Windows.RefreshTime.
  destruct (slot_at index s) as [[[c|] it]|] eqn:Hs; simpl; try discriminate;
    [|intros [= <-]; apply keeps_refl].
  apply slot_at_inv in Hs.
  destruct (erase_timeout it s) as [s1|] eqn:He; simpl; [|discriminate].
  intros Hi. eapply refresh_keeps; eassumption.
Qed.

Lemma windows_OnCheckingEvent_keeps (current : Z) (s s' : TcpServer) :
  Windows.OnCheckingEvent current s = Some (Ok s') -> keeps s s'.
Proof.
  unfold Windows.OnCheckingEvent.
  destruct (current - _last_timeout_time s <? 3); [intros [= <-]; apply keeps_refl|].
  intros H. apply (keeps_trans s (set_last_timeout_time current s) s').
  - apply keeps_same_table; reflexivity.
  - apply (sweep_keeps _ _ _ _ _ H).
Qed.

Lemma windows_accept_keeps (async_recv : bool) (now sock listen_port : Z)
      (s s' : TcpServer) :
  _free_index_list s <> [] ->
  Windows.OnNewConnection async_recv now sock listen_port s = Ok s' -> keeps s s'.
Proof.
  intros Hne. unfold Windows.OnNewConnection.
  rewrite bool_decide_eq_false_2 by exact Hne. simpl.
  destruct (_free_index_list s) as [|index rest] eqn:Hf; [contradiction|].
  destruct (_rs_thread s); [|discriminate].
  destruct async_recv.
  - intros [= <-]. split; [reflexivity|]. split.
    + intros Hwf. apply (table_wf_rotate s _ index rest Hwf Hf); reflexivity.
    + intros (_ & Hfe & _). congruence.
  - destruct (set_first index _ _) as [s1|] eqn:H1; simpl; [|discriminate].
    apply set_first_inv in H1 as (d & Hd & ->). simpl in Hd.
    pose proof (lookup_lt_Some _ _ _ Hd) as Hlt.
    intros H2. apply insert_timeout_inv in H2 as (d' & Hd' & ->).
    simpl in Hd'. simpl.
    rewrite list_lookup_insert_eq in Hd' by exact Hlt. injection Hd' as <-.
    simpl. rewrite list_insert_insert_eq.
    split; [reflexivity|]. split.
    + intros Hwf.
      eapply (table_wf_install s _ index _ _ [] rest);
        [exact Hwf|exact Hf|reflexivity|reflexivity|reflexivity].
    + intros (_ & Hfe & _). congruence.
Qed.

Lemma windows_OnNewConnection_keeps (async_recv : bool) (now sock listen_port : Z)
      (s s' : TcpServer) :
  Windows.OnNewConnection async_recv now sock listen_port s = Ok s' -> keeps s s'.
Proof.
  destruct (decide (_free_index_list s = [])) as [Hf|Hf];
    [|apply windows_accept_keeps, Hf].
  unfold Windows.OnNewConnection. rewrite bool_decide_eq_true_2 by exact Hf.
  destruct (Z.geb_spec (Z.of_nat (length (_mgr s))) (max_connections (_options s)))
    as [Hfull|Hroom]; simpl.
  - intros [= <-]. eapply keeps_trans; apply keeps_emit.
  - destruct (grow s) as [s1|] eqn:Hg; simpl; [|discriminate].
    intros H. apply (keeps_trans s s1 s').
    + apply grow_keeps; [lia|exact Hg].
    + assert (Hne : _free_index_list s1 <> [])
        by (intros Heq; rewrite Heq in H; discriminate).
      apply (windows_accept_keeps async_recv now sock listen_port); [exact Hne|].
      unfold Windows.OnNewConnection.
      rewrite bool_decide_eq_false_2 by exact Hne. exact H.
Qed.

Section WindowsReachableFacts.
Variable InvalidConnectionId : ConnectionId.
Local Abbreviation validate := (CheckConnectionId InvalidConnectionId).

Lemma windows_SendWithHeader_keeps (ok : bool) (cid : ConnectionId)
      (hdr_len data_len : Z) (s s' : TcpServer) (b : bool) :
  Windows.SendWithHeader InvalidConnectionId ok cid hdr_len data_len s = Ok (b, s') ->
  keeps s s'.
Proof.
  unfold Windows.SendWithHeader, Windows.GetConnection.
  destruct (validate s cid =? InvalidIndex); [intros [= _ <-]; apply keeps_refl|].
  destruct (slot_at _ s) as [[[c|] it]|]; simpl; try discriminate;
    intros [= _ <-]; [apply keeps_emit|apply keeps_refl].
Qed.

Lemma windows_CloseConnection_keeps (cid : ConnectionId) (s s' : TcpServer) (b : bool) :
  Windows.CloseConnection InvalidConnectionId cid s = Ok (b, s') -> keeps s s'.
Proof.
  unfold Windows.CloseConnection, Windows.GetConnection.
  destruct (validate s cid =? InvalidIndex); [intros [= _ <-]; apply keeps_refl|].
  destruct (slot_at _ s) as [[[c|] it]|]; simpl; try discriminate;
    [|intros [= _ <-]; apply keeps_refl].
  destruct (Windows.DeleteConnection _ _) as [s1|] eqn:H1; simpl; [|discriminate].
  intros [= _ <-]. eapply keeps_trans; [apply keeps_emit|].
  apply (windows_DeleteConnection_keeps _ _ _ H1).
Qed.

Lemma windows_OnErrorEvent_keeps (cid : ConnectionId) (s s' : TcpServer) :
  Windows.OnErrorEvent InvalidConnectionId cid s = Ok s' -> keeps s s'.
Proof.
  unfold Windows.OnErrorEvent, Windows.GetConnection.
  destruct (validate s cid =? InvalidIndex); [intros [= <-]; apply keeps_emit|].
  destruct (slot_at _ s) as [[[c|] it]|]; simpl; try discriminate;
    [|intros [= <-]; apply keeps_refl].
  intros H. eapply keeps_trans; [apply keeps_emit|].
  apply (windows_DeleteConnection_keeps _ _ _ H).
Qed.

Lemma windows_io_event_keeps (ok : bool) (now : Z) (i : nat) (e1 e2 e3 : effect)
      (s s' : TcpServer) :
  (if ok then Windows.RefreshTime now i (emit e1 s)
   else s1 ← Windows.DeleteConnection i (emit e2 (emit e1 s)); Ok (emit e3 s1))
  = Ok s' ->
  keeps s s'.
Proof.
  destruct ok.
  - intros H. eapply keeps_trans; [apply keeps_emit|].
    apply (windows_RefreshTime_keeps _ _ _ _ H).
  - destruct (Windows.DeleteConnection _ _) as [s1|] eqn:H1; simpl; [|discriminate].
    intros [= <-]. apply (keeps_trans s (emit e2 (emit e1 s))).
    + eapply keeps_trans; apply keeps_emit.
    + eapply keeps_trans; [apply (windows_DeleteConnection_keeps _ _ _ H1)|].
      apply keeps_emit.
Qed.

Lemma windows_OnRecvEvent_keeps (ok : bool) (now : Z) (cid : ConnectionId)
      (s s' : TcpServer) :
  Windows.OnRecvEvent InvalidConnectionId ok now cid s = Ok s' -> keeps s s'.
Proof.
  unfold Windows.OnRecvEvent, Windows.GetConnection.
  destruct (validate s cid =? InvalidIndex); [intros [= <-]; apply keeps_emit|].
  destruct (slot_at _ s) as [[[c|] it]|]; simpl; try discriminate;
    [|intros [= <-]; apply keeps_refl].
  apply windows_io_event_keeps.
Qed.

Lemma windows_OnSendEvent_keeps (ok : bool) (now : Z) (cid : ConnectionId)
      (s s' : TcpServer) :
  Windows.OnSendEvent InvalidConnectionId ok now cid s = Ok s' -> keeps s s'.
Proof.
  unfold Windows.OnSendEvent, Windows.GetConnection.
  destruct (validate s cid =? InvalidIndex); [intros [= <-]; apply keeps_emit|].
  destruct (slot_at _ s) as [[[c|] it]|]; simpl; try discriminate;
    [|intros [= <-]; apply keeps_refl].
  apply windows_io_event_keeps.
Qed.

Lemma windows_Start_frame (lo ro : bool) (s s' : TcpServer) (e : raptor_error) :
  Windows.Start lo ro s = Ok (e, s') ->
  _shutdown s' = _shutdown s /\ _mgr s' = _mgr s /\
  _timeout_record_list s' = _timeout_record_list s /\
  _free_index_list s' = _free_index_list s /\
  (windows_workers s -> windows_workers s').
Proof.
  unfold Windows.Start, windows_workers.
  destruct (_listener s) eqn:Hl; [|discriminate].
  destruct lo; simpl; [|intros [= _ <-]; start_frame].
  destruct (_rs_thread s) eqn:Hr; [|discriminate].
  destruct ro; simpl; intros [= _ <-]; start_frame.
Qed.

Lemma windows_Init_inv (le re : raptor_error) (now : Z) (o : RaptorOptions)
      (s : TcpServer) :
  server_inv s -> server_inv (Windows.Init le re now o s).2.
Proof.
  intros Hinv. pose proof Hinv as [Hwf Hempty]. unfold Windows.Init.
  generalize RESERVED_CONNECTION_COUNT as n. intros n.
  destruct (_shutdown s) eqn:Hsh; cbn [negb]; [|exact Hinv].
  destruct (Hempty eq_refl) as (Hm & Hf & Ht).
  assert (Hsame : forall t, _shutdown t = true -> _mgr t = _mgr s ->
                            _timeout_record_list t = _timeout_record_list s ->
                            _free_index_list t = _free_index_list s ->
                            server_inv t).
  { intros t E1 E2 E3 E4.
    apply (server_inv_same_table s); [congruence|assumption..]. }
  destruct (is_error le); [apply Hsame; simpl; first [exact Hsh|reflexivity]|].
  destruct (is_error re); [apply Hsame; simpl; first [exact Hsh|reflexivity]|].
  rewrite foldl_push_free. simpl. split; [|discriminate].
  apply (table_wf_reserved _ n); simpl.
  - rewrite Hm. unfold resize. rewrite take_nil, Nat.sub_0_r. reflexivity.
  - rewrite Hf. reflexivity.
  - exact Ht.
Qed.

Lemma windows_Shutdown_inv (s s' : TcpServer) :
  server_inv s -> Windows.Shutdown s = Ok s' -> server_inv s'.
Proof.
  intros Hinv. unfold Windows.Shutdown.
  destruct (_shutdown s) eqn:Hsh; simpl; [intros [= <-]; exact Hinv|].
  destruct (_listener s), (_rs_thread s); try discriminate.
  intros [= <-].
  assert (He : forall t, table_empty t -> server_inv t)
    by (intros t Ht; split; [apply table_wf_empty, Ht|intros _; exact Ht]).
  apply He. unfold table_empty. simpl.
  match goal with |- context [shutdown_all ?m ?t] =>
    destruct (shutdown_all_fields m t) as (E1 & E2 & E3 & E4 & E5) end.
  rewrite E4, E5. simpl. auto.
Qed.

(** Every state the IOCP build can reach from the constructor satisfies
    the invariant. *)
Lemma windows_reachable_server_inv (s : TcpServer) :
  windows_reachable InvalidConnectionId s -> server_inv s.
Proof.
  induction 1 as [|s s' _ IH Hstep].
  - split; [apply table_wf_empty|intros _]; repeat split; reflexivity.
  - destruct Hstep.
    + apply windows_Init_inv, IH.
    + match goal with H : Windows.Start _ _ _ = _ |- _ =>
        apply windows_Start_frame in H as (E1 & E2 & E3 & E4 & _) end.
      apply (server_inv_same_table s); assumption.
    + eapply windows_Shutdown_inv; eassumption.
    + apply (server_inv_keeps s _ IH).
      eapply windows_SendWithHeader_keeps; eassumption.
    + apply (server_inv_keeps s _ IH).
      eapply windows_CloseConnection_keeps; eassumption.
    + apply (server_inv_keeps s _ IH).
      eapply windows_OnNewConnection_keeps; eassumption.
    + apply (server_inv_keeps s _ IH). eapply windows_OnErrorEvent_keeps; eassumption.
    + apply (server_inv_keeps s _ IH). eapply windows_OnRecvEvent_keeps; eassumption.
    + apply (server_inv_keeps s _ IH). eapply windows_OnSendEvent_keeps; eassumption.
    + apply (server_inv_keeps s _ IH).
      eapply windows_OnCheckingEvent_keeps; eassumption.
    + apply (server_inv_keeps s _ IH). apply keeps_same_table; reflexivity.
    + apply (server_inv_keeps s _ IH). apply keeps_same_table; reflexivity.
    + apply (server_inv_keeps s _ IH). apply keeps_same_table; reflexivity.
Qed.

Lemma windows_reachable_timeouts_wf (s : TcpServer) :
  windows_reachable InvalidConnectionId s -> timeouts_wf s.
Proof. intros H. apply windows_reachable_server_inv in H as [Hwf _]. apply Hwf. Qed.
End WindowsReachableFacts.

(** *** The collaborators exist while the server is not shut down *)


Lemma keeps_windows_workers (s s' : TcpServer) :
  keeps s s' ->
  (_shutdown s = false -> windows_workers s) ->
  _shutdown s' = false -> windows_workers s'.
Proof.
  intros [H _] IH Hs. unfold lifecycle in H. injection H as E1 E2 E3 E4 E5.
  unfold windows_workers in *. rewrite E2, E5. apply IH. congruence.
Qed.

Section Workers.
Variable InvalidConnectionId : ConnectionId.



Lemma windows_reachable_workers (s : TcpServer) :
  windows_reachable InvalidConnectionId s -> _shutdown s = false -> windows_workers s.
Proof.
  induction 1 as [|s s' _ IH Hstep]; [discriminate|].
  destruct Hstep.
  - unfold Windows.Init. generalize RESERVED_CONNECTION_COUNT as n. intros n.
    destruct (_shutdown s) eqn:Hsh; cbn [negb];
      [|simpl; intros _; apply IH; reflexivity].
    destruct (is_error le); [simpl; congruence|].
    destruct (is_error re); [simpl; congruence|].
    rewrite foldl_push_free. intros _. unfold windows_workers. simpl.
    repeat split; eexists; reflexivity.
  - match goal with H : Windows.Start _ _ _ = _ |- _ =>
      apply windows_Start_frame in H as (E1 & _ & _ & _ & Hw) end.
    intros Hs. apply Hw, IH. congruence.
  - intros Hs.
    match goal with H : Windows.Shutdown _ = _ |- _ =>
      pose proof (Shutdown_sets_flag _ _ (or_intror H)) end.
    congruence.
  - eapply keeps_windows_workers;
      [eapply windows_SendWithHeader_keeps; eassumption|exact IH].
  - eapply keeps_windows_workers;
      [eapply windows_CloseConnection_keeps; eassumption|exact IH].
  - eapply keeps_windows_workers;
      [eapply windows_OnNewConnection_keeps; eassumption|exact IH].
  - eapply keeps_windows_workers;
      [eapply windows_OnErrorEvent_keeps; eassumption|exact IH].
  - eapply keeps_windows_workers;
      [eapply windows_OnRecvEvent_keeps; eassumption|exact IH].
  - eapply keeps_windows_workers;
      [eapply windows_OnSendEvent_keeps; eassumption|exact IH].
  - eapply keeps_windows_workers;
      [eapply windows_OnCheckingEvent_keeps; eassumption|exact IH].
  - eapply keeps_windows_workers; [apply keeps_same_table; reflexivity|exact IH].
  - eapply keeps_windows_workers; [apply keeps_same_table; reflexivity|exact IH].
  - eapply keeps_windows_workers; [apply keeps_same_table; reflexivity|exact IH].
Qed.

End Workers.

(** The table of the sweep example is one of the reachable ones. *)
Lemma three_live_reachable : linux_reachable sentinel_ones (state_of three_live).
Proof.
  assert (H0 : linux_reachable sentinel_ones cap_thousand).
  { apply (lreach_step _ constructed); [constructor|].
    apply (lstep_Init _ RAPTOR_ERROR_NONE RAPTOR_ERROR_NONE RAPTOR_ERROR_NONE
                     1700000000 (options_of 1000 60) constructed). }
  set (s1 := state_of (Linux.OnNewConnection 1700000001 11 8080 cap_thousand)).
  set (s2 := state_of (Linux.OnNewConnection 1700000002 12 8080 s1)).
  assert (H1 : linux_reachable sentinel_ones s1).
  { apply (lreach_step _ cap_thousand); [exact H0|].
    apply (lstep_OnNewConnection _ 1700000001 11 8080). vm_compute. reflexivity. }
  assert (H2 : linux_reachable sentinel_ones s2).
  { apply (lreach_step _ s1); [exact H1|].
    apply (lstep_OnNewConnection _ 1700000002 12 8080). vm_compute. reflexivity. }
  apply (lreach_step _ s2); [exact H2|].
  apply (lstep_OnNewConnection _ 1700000003 13 8080). vm_compute. reflexivity.
Qed.

(** ** Instances *)

Lemma CheckConnectionId_spec_witness :
  0 <= max_connections (_options cap_thousand) < 2 ^ 32 /\
  (CheckConnectionId sentinel_ones cap_thousand (handle cap_thousand 7) <> InvalidIndex ->
   CheckConnectionId sentinel_ones cap_thousand (handle cap_thousand 7)
   = GetUserId (handle cap_thousand 7)).
Proof.
  assert (H : 0 <= max_connections (_options cap_thousand) < 2 ^ 32)
    by (vm_compute; split; [discriminate|reflexivity]).
  split; [exact H|].
  apply (CheckConnectionId_spec sentinel_ones cap_thousand (handle cap_thousand 7) H).
Defined.

Lemma three_live_wf : timeouts_wf (state_of three_live).
Proof. apply (linux_reachable_timeouts_wf sentinel_ones), three_live_reachable. Qed.

Lemma OnCheckingEvent_evicts_expired_witness :
  timeouts_wf (state_of three_live) /\
  1 <= 1700000062 - _last_timeout_time (state_of three_live) /\
  exists s',
    Linux.OnCheckingEvent 1700000062 (state_of three_live) = Some (Ok s') /\
    tr_entries (_timeout_record_list s')
    = List.filter (fun e => negb (expired 1700000062 e))
                  (tr_entries (_timeout_record_list (state_of three_live))).
Proof.
  assert (Hrate : 1 <= 1700000062 - _last_timeout_time (state_of three_live))
    by (vm_compute; discriminate).
  split; [exact three_live_wf|]. split; [exact Hrate|].
  destruct (OnCheckingEvent_evicts_expired 1700000062 (state_of three_live)
              three_live_wf Hrate) as (s' & H1 & _ & H2 & _).
  exists s'. split; [exact H1|exact H2].
Defined.

Lemma Shutdown_twice_is_once_witness :
  Linux.Shutdown cap_thousand = Ok (state_of (Linux.Shutdown cap_thousand)) /\
  Linux.Shutdown (state_of (Linux.Shutdown cap_thousand))
  = Ok (state_of (Linux.Shutdown cap_thousand)).
Proof.
  assert (H : Linux.Shutdown cap_thousand = Ok (state_of (Linux.Shutdown cap_thousand)))
    by (vm_compute; reflexivity).
  split; [exact H|].
  destruct (Shutdown_twice_is_once cap_thousand _ (or_introl H)) as [H1 _].
  exact H1.
Defined.

Lemma Init_guarded_Start_unguarded_witness :
  (_shutdown running = false /\
   Linux.Init RAPTOR_ERROR_NONE RAPTOR_ERROR_NONE RAPTOR_ERROR_NONE 1700000100
              (options_of 8 60) running
   = (err_already_running, running) /\
   exists s',
     Linux.Start true false true running = Ok (err_start_recv_thread, s') /\
     _mq_thd s' = _mq_thd running) /\
  (_shutdown running_win = false /\
   Windows.Init RAPTOR_ERROR_NONE RAPTOR_ERROR_NONE 1700000100
                (options_of 8 60) running_win
   = (err_already_running, running_win) /\
   exists t',
     Windows.Start true false running_win = Ok (err_start_rs_thread, t') /\
     _mq_thd t' = _mq_thd running_win).
Proof.
  assert (H : _shutdown running = false) by (vm_compute; reflexivity).
  assert (Hl : _listener running = Some (start_worker new_worker))
    by (vm_compute; reflexivity).
  assert (Hr : _recv_thread running = Some (start_worker new_worker))
    by (vm_compute; reflexivity).
  assert (Hw : _send_thread running = Some (start_worker new_worker))
    by (vm_compute; reflexivity).
  assert (Ht : _shutdown running_win = false) by (vm_compute; reflexivity).
  assert (Htl : _listener running_win = Some (start_worker new_worker))
    by (vm_compute; reflexivity).
  assert (Htr : _rs_thread running_win = Some (start_worker new_worker))
    by (vm_compute; reflexivity).
  destruct (Init_guarded_Start_unguarded
              RAPTOR_ERROR_NONE RAPTOR_ERROR_NONE RAPTOR_ERROR_NONE 1700000100
              (options_of 8 60) true false true running _ _ _ running_win _ _
              H Hl Hr Hw Ht Htl Htr)
    as [[H1 (e & s' & Hs & _ & _ & Hrecv & _)]
        [H2 (e' & t' & Hs' & _ & _ & Hrs & _)]].
  destruct (Hrecv eq_refl eq_refl) as (-> & _ & _ & _ & Hq).
  destruct (Hrs eq_refl eq_refl) as (-> & _ & _ & Hq' & _).
  split.
  - split; [exact H|]. split; [exact H1|]. exists s'. split; assumption.
  - split; [exact Ht|]. split; [exact H2|]. exists t'. split; assumption.
Defined.

Lemma stale_handle_across_restart_witness :
  CheckConnectionId sentinel_ones
    (Linux.Init RAPTOR_ERROR_NONE RAPTOR_ERROR_NONE RAPTOR_ERROR_NONE
                1700000060 (options_of 1000 60) constructed).2
    (BuildConnectionId
       (_magic_number
          (Linux.Init RAPTOR_ERROR_NONE RAPTOR_ERROR_NONE RAPTOR_ERROR_NONE
                      1700000000 (options_of 1000 60) constructed).2)
       8080 5)
  = 5.
Proof.
  assert (Hcid : BuildConnectionId
                   (_magic_number
                      (Linux.Init RAPTOR_ERROR_NONE RAPTOR_ERROR_NONE RAPTOR_ERROR_NONE
                                  1700000000 (options_of 1000 60) constructed).2)
                   8080 5 <> sentinel_ones)
    by (vm_compute; discriminate).
  destruct (stale_handle_across_restart sentinel_ones 1700000000 1700000060
              (options_of 1000 60) (options_of 1000 60) constructed constructed
              8080 5 eq_refl eq_refl ltac:(simpl; lia) ltac:(simpl; lia) Hcid)
    as (_ & _ & _ & _ & H & _).
  apply H. reflexivity.
Defined.
(** * Further properties of the two builds *)

(** ** The frame of the table operations *)

Lemma evolves_refl (s : TcpServer) : evolves s s.
Proof.
  split; [reflexivity|]. split; [lia|]. split; [lia|].
  intros i c it H. left. eauto.
Qed.

Lemma evolves_trans (s1 s2 s3 : TcpServer) :
  evolves s1 s2 -> evolves s2 s3 -> evolves s1 s3.
Proof.
  intros (U1 & L1 & B1 & P1) (U2 & L2 & B2 & P2).
  assert (Ho : _options s2 = _options s1) by (unfold untouched in U1; congruence).
  assert (Hm : _magic_number s2 = _magic_number s1)
    by (unfold untouched in U1; congruence).
  split; [congruence|]. split; [lia|]. split; [rewrite Ho in B2; lia|].
  intros i c it H. destruct (P2 _ _ _ H) as [[it0 H0]|[port Hb]].
  - apply (P1 _ _ _ H0).
  - right. exists port. rewrite <- Hm. exact Hb.
Qed.

Lemma evolves_same_mgr (s s' : TcpServer) :
  untouched s' = untouched s -> _mgr s' = _mgr s -> evolves s s'.
Proof.
  intros U E. split; [exact U|]. rewrite E. split; [lia|]. split; [lia|].
  intros i c it H. left. eauto.
Qed.

Lemma evolves_slot (s s' : TcpServer) (i : nat) (o c : option Connection)
      (it0 it : iterator) :
  untouched s' = untouched s ->
  _mgr s !! i = Some (o, it0) ->
  _mgr s' = <[i := (c, it)]> (_mgr s) ->
  (c = None \/ c = o \/ exists conn, c = Some conn /\ built_here s i conn) ->
  evolves s s'.
Proof.
  intros U Hslot E Hc. split; [exact U|]. rewrite E, length_insert.
  split; [lia|]. split; [lia|].
  intros j c0 it1 Hj. destruct (decide (j = i)) as [->|Hne].
  - rewrite list_lookup_insert_eq in Hj by apply (lookup_lt_Some _ _ _ Hslot).
    injection Hj as Hc0 _.
    destruct Hc as [->|[->|(conn & -> & Hb)]]; [discriminate| |].
    + left. exists it0. rewrite Hslot, Hc0. reflexivity.
    + right. injection Hc0 as <-. exact Hb.
  - rewrite list_lookup_insert_ne in Hj by congruence. left. eauto.
Qed.

Lemma evolves_emit (e : effect) (s : TcpServer) : evolves s (emit e s).
Proof. apply evolves_same_mgr; reflexivity. Qed.

Lemma set_first_evolves (i : nat) (c : option Connection) (s s' : TcpServer) :
  set_first i c s = Ok s' ->
  (c = None \/ exists conn, c = Some conn /\ built_here s i conn) ->
  evolves s s'.
Proof.
  intros H Hc. apply set_first_inv in H as ([o it] & Hd & ->).
  apply (evolves_slot _ _ i o c it it); [reflexivity|exact Hd|reflexivity|].
  destruct Hc as [->|Hc]; auto.
Qed.

Lemma set_second_evolves (i : nat) (it : iterator) (s s' : TcpServer) :
  set_second i it s = Ok s' -> evolves s s'.
Proof.
  unfold set_second, slot_at.
  destruct (_mgr s !! i) as [[o it0]|] eqn:Hd; simpl; [|discriminate].
  intros [= <-].
  apply (evolves_slot _ _ i o o it0 it); [reflexivity|exact Hd|reflexivity|auto].
Qed.

Lemma erase_timeout_evolves (it : iterator) (s s' : TcpServer) :
  erase_timeout it s = Ok s' -> evolves s s'.
Proof.
  intros H. apply erase_timeout_inv in H as (n & _ & ->).
  apply evolves_same_mgr; reflexivity.
Qed.

Lemma insert_timeout_evolves (deadline : Z) (i : nat) (s s' : TcpServer) :
  insert_timeout deadline i s = Ok s' -> evolves s s'.
Proof.
  intros H. apply insert_timeout_inv in H as ([o it] & Hd & ->).
  apply (evolves_slot _ _ i o o it (It (tr_fresh (_timeout_record_list s))));
    [reflexivity|exact Hd|reflexivity|auto].
Qed.

Lemma shutdown_conn_evolves (i : nat) (b : bool) (s s' : TcpServer) :
  shutdown_conn i b s = Ok s' -> evolves s s'.
Proof.
  intros H. apply shutdown_conn_inv in H as (c & it & _ & ->). apply evolves_emit.
Qed.

(** The common tail of the eviction helpers. *)
Lemma remove_evolves (index : nat) (s s' : TcpServer) :
  (s1 ← set_first index None s;
   d ← slot_at index s1;
   s2 ← erase_timeout d.2 s1;
   s3 ← set_second index End s2;
   Ok (push_free index s3)) = Ok s' ->
  evolves s s'.
Proof.
  destruct (set_first index None s) as [s1|] eqn:H1; simpl; [|discriminate].
  destruct (slot_at index s1) as [d|] eqn:H2; simpl; [|discriminate].
  destruct (erase_timeout d.2 s1) as [s2|] eqn:H3; simpl; [|discriminate].
  destruct (set_second index End s2) as [s3|] eqn:H4; simpl; [|discriminate].
  intros [= <-].
  apply (evolves_trans s s1); [apply (set_first_evolves _ _ _ _ H1); auto|].
  apply (evolves_trans s1 s2); [apply (erase_timeout_evolves _ _ _ H3)|].
  apply (evolves_trans s2 s3); [apply (set_second_evolves _ _ _ _ H4)|].
  apply evolves_same_mgr; reflexivity.
Qed.

Lemma linux_DeleteConnection_evolves (index : nat) (s s' : TcpServer) :
  Linux.DeleteConnection index s = Ok s' -> evolves s s'.
Proof. apply remove_evolves. Qed.

Lemma windows_DeleteConnection_evolves (index : nat) (s s' : TcpServer) :
  Windows.DeleteConnection index s = Ok s' -> evolves s s'.
Proof.
  unfold Windows.DeleteConnection.
  destruct (slot_at index s) as [[[c|] it]|]; simpl; try discriminate.
  - apply remove_evolves.
  - intros [= <-]. apply evolves_refl.
Qed.

Lemma evict_evolves (index : nat) (s s' : TcpServer) :
  Linux.evict index s = Ok s' -> evolves s s'.
Proof.
  unfold Linux.evict.
  destruct (shutdown_conn index true s) as [s1|] eqn:H1; simpl; [|discriminate].
  intros H2. apply (evolves_trans s s1).
  - apply (shutdown_conn_evolves _ _ _ _ H1).
  - apply (linux_DeleteConnection_evolves _ _ _ H2).
Qed.

Lemma evict_last_timeout (index : nat) (s s' : TcpServer) :
  Linux.evict index s = Ok s' -> _last_timeout_time s' = _last_timeout_time s.
Proof.
  unfold Linux.evict.
  destruct (shutdown_conn index true s) as [s1|] eqn:H1; simpl; [|discriminate].
  apply shutdown_conn_inv in H1 as (c & it & _ & ->).
  unfold Linux.DeleteConnection.
  destruct (set_first index None _) as [s1|] eqn:H1; simpl; [|discriminate].
  apply set_first_inv in H1 as (d1 & _ & ->).
  destruct (slot_at index _) as [d|] eqn:H2; simpl; [|discriminate].
  destruct (erase_timeout d.2 _) as [s2|] eqn:H3; simpl; [|discriminate].
  apply erase_timeout_inv in H3 as (n & _ & ->).
  unfold set_second.
  destruct (slot_at index _) as [d3|] eqn:H4; simpl; [|discriminate].
  intros [= <-]. reflexivity.
Qed.

Lemma sweep_evolves (current : Z) (fuel : nat) :
  forall (it : iterator) (s s' : TcpServer),
    sweep Linux.evict fuel current it s = Some (Ok s') ->
    evolves s s' /\ _last_timeout_time s' = _last_timeout_time s.
Proof.
  induction fuel as [|fuel IH]; intros it s s'; simpl; [discriminate|].
  destruct it as [n| |]; try discriminate.
  2: { intros [= <-]. split; [apply evolves_refl|reflexivity]. }
  destruct (tr_find n (_timeout_record_list s)) as [e|]; [|discriminate].
  destruct (te_deadline e >? current);
    [intros [= <-]; split; [apply evolves_refl|reflexivity]|].
  destruct (Linux.evict (te_index e) s) as [s1|] eqn:He; [|discriminate].
  intros H. destruct (IH _ _ _ H) as [Hev Hl]. split.
  - apply (evolves_trans s s1); [apply (evict_evolves _ _ _ He)|exact Hev].
  - rewrite Hl. apply (evict_last_timeout _ _ _ He).
Qed.

Lemma linux_OnCheckingEvent_evolves (current : Z) (s s' : TcpServer) :
  Linux.OnCheckingEvent current s = Some (Ok s') -> evolves s s'.
Proof.
  unfold Linux.OnCheckingEvent.
  destruct (current - _last_timeout_time s <? 1); [intros [= <-]; apply evolves_refl|].
  intros H. apply sweep_evolves in H as [H _].
  apply (evolves_trans s (set_last_timeout_time current s)); [|exact H].
  apply evolves_same_mgr; reflexivity.
Qed.

Lemma windows_OnCheckingEvent_evolves (current : Z) (s s' : TcpServer) :
  Windows.OnCheckingEvent current s = Some (Ok s') -> evolves s s'.
Proof.
  unfold Windows.OnCheckingEvent. rewrite windows_evict_eq.
  destruct (current - _last_timeout_time s <? 3); [intros [= <-]; apply evolves_refl|].
  intros H. apply sweep_evolves in H as [H _].
  apply (evolves_trans s (set_last_timeout_time current s)); [|exact H].
  apply evolves_same_mgr; reflexivity.
Qed.

(** The growth step. *)
Lemma seed_slots_evolves (l : list nat) :
  forall s s' : TcpServer, seed_slots l s = Ok s' -> evolves s s'.
Proof.
  induction l as [|i l IH]; intros s s'; simpl.
  - intros [= <-]. apply evolves_refl.
  - destruct (set_first i None s) as [s1|] eqn:H1; simpl; [|discriminate].
    destruct (set_second i End s1) as [s2|] eqn:H2; simpl; [|discriminate].
    intros H. pose proof (IH _ _ H) as Hev.
    apply (evolves_trans s s1); [apply (set_first_evolves _ _ _ _ H1); auto|].
    apply (evolves_trans s1 s2); [apply (set_second_evolves _ _ _ _ H2)|].
    apply (evolves_trans s2 (push_free i s2)); [|exact Hev].
    apply evolves_same_mgr; reflexivity.
Qed.

Lemma grow_evolves (s s1 : TcpServer) :
  Z.of_nat (length (_mgr s)) < max_connections (_options s) ->
  grow s = Ok s1 -> evolves s s1.
Proof.
  intros Hroom. unfold grow.
  set (count := length (_mgr s)).
  set (expand := if Z.of_nat count * 2 <? max_connections (_options s)
                 then (count * 2)%nat
                 else Z.to_nat (max_connections (_options s))).
  assert (Hle : (count <= expand)%nat /\
                Z.of_nat expand <= max_connections (_options s)).
  { unfold expand. destruct (Z.ltb_spec (Z.of_nat count * 2)
                                         (max_connections (_options s)));
      fold count in Hroom; lia. }
  intros H. apply seed_slots_evolves in H.
  apply (evolves_trans s (set_mgr (resize expand (_mgr s)) s)); [|exact H].
  split; [reflexivity|]. simpl. unfold resize.
  rewrite take_ge by (fold count; lia).
  rewrite length_app, length_replicate. fold count.
  split; [lia|]. split; [lia|].
  intros i c it Hi. left. exists it.
  apply lookup_app_Some in Hi as [Hi|(_ & Hi)]; [exact Hi|].
  apply lookup_replicate in Hi as [Hi _]. discriminate.
Qed.

Lemma linux_accept_evolves (now sock listen_port : Z) (s s' : TcpServer) :
  _free_index_list s <> [] ->
  Linux.OnNewConnection now sock listen_port s = Ok s' -> evolves s s'.
Proof.
  intros Hne. unfold Linux.OnNewConnection.
  rewrite bool_decide_eq_false_2 by exact Hne. simpl.
  destruct (_free_index_list s) as [|index rest] eqn:Hf; [contradiction|].
  destruct (set_first index _ _) as [s1|] eqn:H1; simpl; [|discriminate].
  intros H2.
  apply (evolves_trans s (set_free_index_list rest s));
    [apply evolves_same_mgr; reflexivity|].
  apply (evolves_trans _ s1).
  { apply (set_first_evolves _ _ _ _ H1). right. eexists. split; [reflexivity|].
    exists listen_port. reflexivity. }
  apply insert_timeout_evolves in H2.
  refine (evolves_trans _ _ _ _ H2).
  eapply evolves_trans; apply evolves_emit.
Qed.

Lemma linux_OnNewConnection_evolves (now sock listen_port : Z) (s s' : TcpServer) :
  Linux.OnNewConnection now sock listen_port s = Ok s' -> evolves s s'.
Proof.
  destruct (decide (_free_index_list s = [])) as [Hf|Hf];
    [|apply linux_accept_evolves, Hf].
  unfold Linux.OnNewConnection. rewrite bool_decide_eq_true_2 by exact Hf.
  destruct (Z.geb_spec (Z.of_nat (length (_mgr s))) (max_connections (_options s)))
    as [Hfull|Hroom]; simpl.
  - intros [= <-]. eapply evolves_trans; apply evolves_emit.
  - destruct (grow s) as [s1|] eqn:Hg; simpl; [|discriminate].
    intros H. apply (evolves_trans s s1).
    + apply grow_evolves; [lia|exact Hg].
    + assert (Hne : _free_index_list s1 <> [])
        by (intros Heq; rewrite Heq in H; discriminate).
      apply (linux_accept_evolves now sock listen_port); [exact Hne|].
      unfold Linux.OnNewConnection.
      rewrite bool_decide_eq_false_2 by exact Hne. exact H.
Qed.

Lemma windows_accept_evolves (async_recv : bool) (now sock listen_port : Z)
      (s s' : TcpServer) :
  _free_index_list s <> [] ->
  Windows.OnNewConnection async_recv now sock listen_port s = Ok s' -> evolves s s'.
Proof.
  intros Hne. unfold Windows.OnNewConnection.
  rewrite bool_decide_eq_false_2 by exact Hne. simpl.
  destruct (_free_index_list s) as [|index rest] eqn:Hf; [contradiction|].
  destruct (_rs_thread s) as [w|]; [|discriminate].
  destruct async_recv.
  - intros [= <-]. apply evolves_same_mgr; reflexivity.
  - destruct (set_first index _ _) as [s1|] eqn:H1; simpl; [|discriminate].
    intros H2.
    apply insert_timeout_evolves in H2.
    refine (evolves_trans _ _ _ _ H2).
    apply set_first_evolves in H1.
    + refine (evolves_trans _ _ _ _ H1). apply evolves_same_mgr; reflexivity.
    + right. eexists. split; [reflexivity|].
      exists (u16 listen_port). reflexivity.
Qed.

Lemma windows_OnNewConnection_evolves (async_recv : bool) (now sock listen_port : Z)
      (s s' : TcpServer) :
  Windows.OnNewConnection async_recv now sock listen_port s = Ok s' -> evolves s s'.
Proof.
  destruct (decide (_free_index_list s = [])) as [Hf|Hf];
    [|apply windows_accept_evolves, Hf].
  unfold Windows.OnNewConnection. rewrite bool_decide_eq_true_2 by exact Hf.
  destruct (Z.geb_spec (Z.of_nat (length (_mgr s))) (max_connections (_options s)))
    as [Hfull|Hroom]; simpl.
  - intros [= <-]. eapply evolves_trans; apply evolves_emit.
  - destruct (grow s) as [s1|] eqn:Hg; simpl; [|discriminate].
    intros H. apply (evolves_trans s s1).
    + apply grow_evolves; [lia|exact Hg].
    + assert (Hne : _free_index_list s1 <> [])
        by (intros Heq; rewrite Heq in H; discriminate).
      apply (windows_accept_evolves async_recv now sock listen_port); [exact Hne|].
      unfold Windows.OnNewConnection.
      rewrite bool_decide_eq_false_2 by exact Hne. exact H.
Qed.

Lemma refresh_evolves (deadline : Z) (index : nat) (it : iterator)
      (s s' : TcpServer) :
  (s1 ← erase_timeout it s; insert_timeout deadline index s1) = Ok s' ->
  evolves s s'.
Proof.
  destruct (erase_timeout it s) as [s1|] eqn:He; simpl; [|discriminate].
  intros Hi. apply (evolves_trans s s1).
  - apply (erase_timeout_evolves _ _ _ He).
  - apply (insert_timeout_evolves _ _ _ _ Hi).
Qed.

Lemma linux_close_evolves (i : nat) (notify : bool) (s s' : TcpServer) :
  (s1 ← shutdown_conn i notify s; Linux.DeleteConnection i s1) = Ok s' ->
  evolves s s'.
Proof.
  destruct (shutdown_conn i notify s) as [s1|] eqn:H1; simpl; [|discriminate].
  intros H2. apply (evolves_trans s s1).
  - apply (shutdown_conn_evolves _ _ _ _ H1).
  - apply (linux_DeleteConnection_evolves _ _ _ H2).
Qed.

Lemma windows_RefreshTime_evolves (now : Z) (index : nat) (s s' : TcpServer) :
  Windows.RefreshTime now index s = Ok s' -> evolves s s'.
Proof.
  unfold Windows.RefreshTime.
  destruct (slot_at index s) as [[[c|] it]|]; simpl; try discriminate;
    [|intros [= <-]; apply evolves_refl].
  apply refresh_evolves.
Qed.

Section FrameOfTheHandleOperations.
Variable InvalidConnectionId : ConnectionId.
Local Abbreviation validate := (CheckConnectionId InvalidConnectionId).

Lemma linux_Send_evolves (ok : bool) (cid : ConnectionId) (len : Z)
      (s s' : TcpServer) (b : bool) :
  Linux.Send InvalidConnectionId ok cid len s = Ok (b, s') -> evolves s s'.
Proof.
  unfold Linux.Send.
  destruct (validate s cid =? InvalidIndex); [intros [= _ <-]; apply evolves_refl|].
  destruct (slot_at _ s) as [[[c|] it]|]; simpl; try discriminate;
    intros [= _ <-]; [apply evolves_emit|apply evolves_refl].
Qed.

Lemma linux_CloseConnection_evolves (cid : ConnectionId) (s s' : TcpServer) (b : bool) :
  Linux.CloseConnection InvalidConnectionId cid s = Ok (b, s') -> evolves s s'.
Proof.
  unfold Linux.CloseConnection.
  destruct (validate s cid =? InvalidIndex); [intros [= _ <-]; apply evolves_refl|].
  destruct (slot_at _ s) as [[[c|] it]|]; simpl; try discriminate;
    [|intros [= _ <-]; apply evolves_refl].
  destruct (shutdown_conn _ false s) as [s1|] eqn:H1; simpl; [|discriminate].
  destruct (Linux.DeleteConnection _ s1) as [s2|] eqn:H2; simpl; [|discriminate].
  intros [= _ <-]. apply (evolves_trans s s1).
  - apply (shutdown_conn_evolves _ _ _ _ H1).
  - apply (linux_DeleteConnection_evolves _ _ _ H2).
Qed.

Lemma linux_OnErrorEvent_evolves (cid : ConnectionId) (s s' : TcpServer) :
  Linux.OnErrorEvent InvalidConnectionId cid s = Ok s' -> evolves s s'.
Proof.
  unfold Linux.OnErrorEvent.
  destruct (validate s cid =? InvalidIndex); [intros [= <-]; apply evolves_emit|].
  destruct (slot_at _ s) as [[[c|] it]|]; simpl; try discriminate;
    [|intros [= <-]; apply evolves_refl].
  apply linux_close_evolves.
Qed.

Lemma linux_io_event_evolves (ok : bool) (deadline : Z) (i : nat)
      (e1 e2 : effect) (s s' : TcpServer) :
  (if negb ok
   then s1 ← shutdown_conn i true (emit e2 (emit e1 s)); Linux.DeleteConnection i s1
   else d ← slot_at i (emit e1 s);
        s1 ← erase_timeout d.2 (emit e1 s);
        insert_timeout deadline i s1) = Ok s' ->
  evolves s s'.
Proof.
  destruct ok; simpl.
  - destruct (slot_at i (emit e1 s)) as [d|]; simpl; [|discriminate].
    intros H. apply (evolves_trans s (emit e1 s)); [apply evolves_emit|].
    apply (refresh_evolves _ _ _ _ _ H).
  - intros H. apply (evolves_trans s (emit e2 (emit e1 s))).
    + eapply evolves_trans; apply evolves_emit.
    + apply (linux_close_evolves _ _ _ _ H).
Qed.

Lemma linux_OnRecvEvent_evolves (ok : bool) (now : Z) (cid : ConnectionId)
      (s s' : TcpServer) :
  Linux.OnRecvEvent InvalidConnectionId ok now cid s = Ok s' -> evolves s s'.
Proof.
  unfold Linux.OnRecvEvent.
  destruct (validate s cid =? InvalidIndex); [intros [= <-]; apply evolves_emit|].
  destruct (slot_at _ s) as [[[c|] it]|]; simpl; try discriminate.
  apply linux_io_event_evolves.
Qed.

Lemma linux_OnSendEvent_evolves (ok : bool) (now : Z) (cid : ConnectionId)
      (s s' : TcpServer) :
  Linux.OnSendEvent InvalidConnectionId ok now cid s = Ok s' -> evolves s s'.
Proof.
  unfold Linux.OnSendEvent.
  destruct (validate s cid =? InvalidIndex); [intros [= <-]; apply evolves_emit|].
  destruct (slot_at _ s) as [[[c|] it]|]; simpl; try discriminate.
  apply linux_io_event_evolves.
Qed.

Lemma windows_SendWithHeader_evolves (ok : bool) (cid : ConnectionId)
      (hdr_len data_len : Z) (s s' : TcpServer) (b : bool) :
  Windows.SendWithHeader InvalidConnectionId ok cid hdr_len data_len s = Ok (b, s') ->
  evolves s s'.
Proof.
  unfold Windows.SendWithHeader, Windows.GetConnection.
  destruct (validate s cid =? InvalidIndex); [intros [= _ <-]; apply evolves_refl|].
  destruct (slot_at _ s) as [[[c|] it]|]; simpl; try discriminate;
    intros [= _ <-]; [apply evolves_emit|apply evolves_refl].
Qed.

Lemma windows_CloseConnection_evolves (cid : ConnectionId) (s s' : TcpServer)
      (b : bool) :
  Windows.CloseConnection InvalidConnectionId cid s = Ok (b, s') -> evolves s s'.
Proof.
  unfold Windows.CloseConnection, Windows.GetConnection.
  destruct (validate s cid =? InvalidIndex); [intros [= _ <-]; apply evolves_refl|].
  destruct (slot_at _ s) as [[[c|] it]|]; simpl; try discriminate;
    [|intros [= _ <-]; apply evolves_refl].
  destruct (Windows.DeleteConnection _ _) as [s1|] eqn:H1; simpl; [|discriminate].
  intros [= _ <-]. eapply evolves_trans; [apply evolves_emit|].
  apply (windows_DeleteConnection_evolves _ _ _ H1).
Qed.

Lemma windows_OnErrorEvent_evolves (cid : ConnectionId) (s s' : TcpServer) :
  Windows.OnErrorEvent InvalidConnectionId cid s = Ok s' -> evolves s s'.
Proof.
  unfold Windows.OnErrorEvent, Windows.GetConnection.
  destruct (validate s cid =? InvalidIndex); [intros [= <-]; apply evolves_emit|].
  destruct (slot_at _ s) as [[[c|] it]|]; simpl; try discriminate;
    [|intros [= <-]; apply evolves_refl].
  intros H. eapply evolves_trans; [apply evolves_emit|].
  apply (windows_DeleteConnection_evolves _ _ _ H).
Qed.

Lemma windows_io_event_evolves (ok : bool) (now : Z) (i : nat) (e1 e2 e3 : effect)
      (s s' : TcpServer) :
  (if ok then Windows.RefreshTime now i (emit e1 s)
   else s1 ← Windows.DeleteConnection i (emit e2 (emit e1 s)); Ok (emit e3 s1))
  = Ok s' ->
  evolves s s'.
Proof.
  destruct ok.
  - intros H. eapply evolves_trans; [apply evolves_emit|].
    apply (windows_RefreshTime_evolves _ _ _ _ H).
  - destruct (Windows.DeleteConnection _ _) as [s1|] eqn:H1; simpl; [|discriminate].
    intros [= <-]. apply (evolves_trans s (emit e2 (emit e1 s))).
    + eapply evolves_trans; apply evolves_emit.
    + eapply evolves_trans; [apply (windows_DeleteConnection_evolves _ _ _ H1)|].
      apply evolves_emit.
Qed.

Lemma windows_OnRecvEvent_evolves (ok : bool) (now : Z) (cid : ConnectionId)
      (s s' : TcpServer) :
  Windows.OnRecvEvent InvalidConnectionId ok now cid s = Ok s' -> evolves s s'.
Proof.
  unfold Windows.OnRecvEvent, Windows.GetConnection.
  destruct (validate s cid =? InvalidIndex); [intros [= <-]; apply evolves_emit|].
  destruct (slot_at _ s) as [[[c|] it]|]; simpl; try discriminate;
    [|intros [= <-]; apply evolves_refl].
  apply windows_io_event_evolves.
Qed.

Lemma windows_OnSendEvent_evolves (ok : bool) (now : Z) (cid : ConnectionId)
      (s s' : TcpServer) :
  Windows.OnSendEvent InvalidConnectionId ok now cid s = Ok s' -> evolves s s'.
Proof.
  unfold Windows.OnSendEvent, Windows.GetConnection.
  destruct (validate s cid =? InvalidIndex); [intros [= <-]; apply evolves_emit|].
  destruct (slot_at _ s) as [[[c|] it]|]; simpl; try discriminate;
    [|intros [= <-]; apply evolves_refl].
  apply windows_io_event_evolves.
Qed.

(** Every call is one of [Init], [Start], [Shutdown], an egress
    notification, or a table operation. *)
Lemma linux_step_cases (s s' : TcpServer) :
  linux_step InvalidConnectionId s s' ->
  (exists le re se now o, s' = (Linux.Init le re se now o s).2) \/
  (exists lo ro so e, Linux.Start lo ro so s = Ok (e, s')) \/
  Linux.Shutdown s = Ok s' \/
  (exists m, s' = push_message m s) \/
  evolves s s'.
Proof.
  intros H. destruct H.
  - left. eauto 10.
  - right. left. eauto 10.
  - right. right. left. assumption.
  - do 4 right. eapply linux_Send_evolves; eassumption.
  - do 4 right. eapply linux_CloseConnection_evolves; eassumption.
  - do 4 right. eapply linux_OnNewConnection_evolves; eassumption.
  - do 4 right. eapply linux_OnErrorEvent_evolves; eassumption.
  - do 4 right. eapply linux_OnRecvEvent_evolves; eassumption.
  - do 4 right. eapply linux_OnSendEvent_evolves; eassumption.
  - do 4 right. eapply linux_OnCheckingEvent_evolves; eassumption.
  - do 3 right. left. eexists. reflexivity.
  - do 3 right. left. eexists. reflexivity.
  - do 3 right. left. eexists. reflexivity.
Qed.

Lemma windows_step_cases (s s' : TcpServer) :
  windows_step InvalidConnectionId s s' ->
  (exists le re now o, s' = (Windows.Init le re now o s).2) \/
  (exists lo ro e, Windows.Start lo ro s = Ok (e, s')) \/
  Windows.Shutdown s = Ok s' \/
  (exists m, s' = push_message m s) \/
  evolves s s'.
Proof.
  intros H. destruct H.
  - left. eauto 10.
  - right. left. eauto 10.
  - right. right. left. assumption.
  - do 4 right. eapply windows_SendWithHeader_evolves; eassumption.
  - do 4 right. eapply windows_CloseConnection_evolves; eassumption.
  - do 4 right. eapply windows_OnNewConnection_evolves; eassumption.
  - do 4 right. eapply windows_OnErrorEvent_evolves; eassumption.
  - do 4 right. eapply windows_OnRecvEvent_evolves; eassumption.
  - do 4 right. eapply windows_OnSendEvent_evolves; eassumption.
  - do 4 right. eapply windows_OnCheckingEvent_evolves; eassumption.
  - do 3 right. left. eexists. reflexivity.
  - do 3 right. left. eexists. reflexivity.
  - do 3 right. left. eexists. reflexivity.
Qed.
End FrameOfTheHandleOperations.

(** ** [Init] and [Shutdown], member by member *)

Lemma emit_all_nil (s : TcpServer) : emit_all [] s = s.
Proof. destruct s. unfold emit_all. simpl. rewrite app_nil_r. reflexivity. Qed.

Lemma emit_all_emit (e : effect) (es : list effect) (s : TcpServer) :
  emit_all es (emit e s) = emit_all (e :: es) s.
Proof. unfold emit_all, emit. simpl. rewrite <- app_assoc. reflexivity. Qed.

Lemma shutdown_all_emit_all (l : list ConnectionData) :
  forall t : TcpServer, shutdown_all l t = emit_all (shutdown_notices l) t.
Proof.
  induction l as [|[[c|] it] l IH]; intros t; simpl.
  - symmetry. apply emit_all_nil.
  - rewrite IH. apply emit_all_emit.
  - apply IH.
Qed.

(** [Init] either leaves the table, the options, the magic and the queue
    as they are (it was rejected, or a collaborator failed to initialise),
    or it was called on a server that was shut down and sets them all. *)
Lemma linux_Init_cases (le re se : raptor_error) (now : Z) (o : RaptorOptions)
      (s : TcpServer) :
  let s' := (Linux.Init le re se now o s).2 in
  (_shutdown s' = _shutdown s /\ _mgr s' = _mgr s /\ _options s' = _options s /\
   _magic_number s' = _magic_number s /\ _mpscq s' = _mpscq s /\
   _count s' = _count s /\ _free_index_list s' = _free_index_list s /\
   _timeout_record_list s' = _timeout_record_list s) \/
  (_shutdown s = true /\ _shutdown s' = false /\
   _mgr s' = resize RESERVED_CONNECTION_COUNT (_mgr s) /\ _options s' = o /\
   _magic_number s' = magic_of_time now /\ _mpscq s' = _mpscq s /\
   _count s' = 0 /\
   _free_index_list s' = _free_index_list s ++ seq 0 RESERVED_CONNECTION_COUNT /\
   _timeout_record_list s' = _timeout_record_list s /\
   _last_timeout_time s' = now).
Proof.
  unfold Linux.Init. generalize RESERVED_CONNECTION_COUNT as n. intros n.
  destruct (_shutdown s) eqn:Hsh; cbn [negb]; [|left; simpl; auto 10].
  destruct (is_error le); [left; simpl; auto 10|].
  destruct (is_error re); [left; simpl; auto 10|].
  destruct (is_error se); [left; simpl; auto 10|].
  right. rewrite foldl_push_free. simpl. auto 12.
Qed.

Lemma windows_Init_cases (le re : raptor_error) (now : Z) (o : RaptorOptions)
      (s : TcpServer) :
  let s' := (Windows.Init le re now o s).2 in
  (_shutdown s' = _shutdown s /\ _mgr s' = _mgr s /\ _options s' = _options s /\
   _magic_number s' = _magic_number s /\ _mpscq s' = _mpscq s /\
   _count s' = _count s /\ _free_index_list s' = _free_index_list s /\
   _timeout_record_list s' = _timeout_record_list s) \/
  (_shutdown s = true /\ _shutdown s' = false /\
   _mgr s' = resize RESERVED_CONNECTION_COUNT (_mgr s) /\ _options s' = o /\
   _magic_number s' = magic_of_time now /\ _mpscq s' = _mpscq s /\
   _count s' = 0 /\
   _free_index_list s' = _free_index_list s ++ seq 0 RESERVED_CONNECTION_COUNT /\
   _timeout_record_list s' = _timeout_record_list s /\
   _last_timeout_time s' = now).
Proof.
  unfold Windows.Init. generalize RESERVED_CONNECTION_COUNT as n. intros n.
  destruct (_shutdown s) eqn:Hsh; cbn [negb]; [|left; simpl; auto 10].
  destruct (is_error le); [left; simpl; auto 10|].
  destruct (is_error re); [left; simpl; auto 10|].
  right. rewrite foldl_push_free. simpl. auto 12.
Qed.

Lemma linux_Shutdown_cases (s s' : TcpServer) :
  Linux.Shutdown s = Ok s' ->
  (_shutdown s = true /\ s' = s) \/ (_shutdown s = false /\ after_Shutdown s s').
Proof.
  unfold Linux.Shutdown.
  destruct (_shutdown s) eqn:Hsh; simpl; [intros [= <-]; auto|].
  destruct (_listener s), (_recv_thread s), (_send_thread s); try discriminate.
  intros [= <-]. right. split; [reflexivity|].
  rewrite shutdown_all_emit_all. unfold after_Shutdown. simpl.
  rewrite <- app_assoc. auto 12.
Qed.

Lemma windows_Shutdown_cases (s s' : TcpServer) :
  Windows.Shutdown s = Ok s' ->
  (_shutdown s = true /\ s' = s) \/ (_shutdown s = false /\ after_Shutdown s s').
Proof.
  unfold Windows.Shutdown.
  destruct (_shutdown s) eqn:Hsh; simpl; [intros [= <-]; auto|].
  destruct (_listener s), (_rs_thread s); try discriminate.
  intros [= <-]. right. split; [reflexivity|].
  rewrite shutdown_all_emit_all. unfold after_Shutdown. simpl.
  rewrite <- app_assoc. auto 12.
Qed.

Lemma linux_Start_members (lo ro so : bool) (s s' : TcpServer) (e : raptor_error) :
  Linux.Start lo ro so s = Ok (e, s') ->
  _shutdown s' = _shutdown s /\ _mgr s' = _mgr s /\ _options s' = _options s /\
  _magic_number s' = _magic_number s /\ _mpscq s' = _mpscq s /\
  _count s' = _count s.
Proof.
  unfold Linux.Start.
  destruct (_listener s); [|discriminate].
  destruct lo; simpl; [|intros [= _ <-]; auto 10].
  destruct (_recv_thread s); [|discriminate].
  destruct ro; simpl; [|intros [= _ <-]; auto 10].
  destruct (_send_thread s); [|discriminate].
  destruct so; simpl; intros [= _ <-]; auto 10.
Qed.

Lemma windows_Start_members (lo ro : bool) (s s' : TcpServer) (e : raptor_error) :
  Windows.Start lo ro s = Ok (e, s') ->
  _shutdown s' = _shutdown s /\ _mgr s' = _mgr s /\ _options s' = _options s /\
  _magic_number s' = _magic_number s /\ _mpscq s' = _mpscq s /\
  _count s' = _count s.
Proof.
  unfold Windows.Start.
  destruct (_listener s); [|discriminate].
  destruct lo; simpl; [|intros [= _ <-]; auto 10].
  destruct (_rs_thread s); [|discriminate].
  destruct ro; simpl; intros [= _ <-]; auto 10.
Qed.

(** ** Capacity and handles of the reachable states *)

Lemma slots_same_table (s s' : TcpServer) :
  _mgr s' = _mgr s -> _options s' = _options s ->
  _magic_number s' = _magic_number s ->
  handles_wf s /\ within_capacity s -> handles_wf s' /\ within_capacity s'.
Proof.
  unfold handles_wf, within_capacity, built_here.
  intros -> -> ->. auto.
Qed.

Lemma slots_evolves (s s' : TcpServer) :
  evolves s s' ->
  handles_wf s /\ within_capacity s -> handles_wf s' /\ within_capacity s'.
Proof.
  intros (U & L & B & P) [Hh Hc].
  assert (Ho : _options s' = _options s) by (unfold untouched in U; congruence).
  assert (Hm : _magic_number s' = _magic_number s)
    by (unfold untouched in U; congruence).
  unfold handles_wf, within_capacity, built_here in *. rewrite Ho, Hm. split.
  - intros i c it Hi. destruct (P _ _ _ Hi) as [[it0 H0]|Hb]; eauto.
  - lia.
Qed.

Lemma slots_no_connection (s : TcpServer) (n : nat) (it : iterator) :
  _mgr s = replicate n (None, it) -> (n <= RESERVED_CONNECTION_COUNT)%nat ->
  handles_wf s /\ within_capacity s.
Proof.
  intros E Hn. unfold handles_wf, within_capacity. rewrite E. split.
  - intros i c it0 Hi. apply lookup_replicate in Hi as [[=] _].
  - rewrite length_replicate. lia.
Qed.

Section CapacityAndHandles.
Variable InvalidConnectionId : ConnectionId.

Lemma linux_reachable_slots (s : TcpServer) :
  linux_reachable InvalidConnectionId s -> handles_wf s /\ within_capacity s.
Proof.
  induction 1 as [|s s' Hr IH Hstep].
  - apply (slots_no_connection _ 0 End); [reflexivity|lia].
  - apply linux_reachable_server_inv in Hr as [_ Hempty].
    apply linux_step_cases in Hstep
      as [(le & re & se & now & o & ->)|[(lo & ro & so & e & H)|[H|[[m ->]|H]]]].
    + destruct (linux_Init_cases le re se now o s)
        as [(_ & Em & Eo & Eg & _)|(Hsh & _ & Em & _)].
      * apply (slots_same_table s); assumption.
      * destruct (Hempty Hsh) as (Hm & _).
        apply (slots_no_connection _ RESERVED_CONNECTION_COUNT Singular); [|lia].
        rewrite Em, Hm. unfold resize. rewrite take_nil, Nat.sub_0_r. reflexivity.
    + apply linux_Start_members in H as (_ & Em & Eo & Eg & _).
      apply (slots_same_table s); assumption.
    + apply linux_Shutdown_cases in H as [[_ ->]|[_ (_ & _ & _ & _ & Em & _)]];
        [exact IH|].
      apply (slots_no_connection _ 0 End); [exact Em|lia].
    + apply (slots_same_table s); [reflexivity..|exact IH].
    + apply (slots_evolves s); assumption.
Qed.

Lemma windows_reachable_slots (s : TcpServer) :
  windows_reachable InvalidConnectionId s -> handles_wf s /\ within_capacity s.
Proof.
  induction 1 as [|s s' Hr IH Hstep].
  - apply (slots_no_connection _ 0 End); [reflexivity|lia].
  - apply windows_reachable_server_inv in Hr as [_ Hempty].
    apply windows_step_cases in Hstep
      as [(le & re & now & o & ->)|[(lo & ro & e & H)|[H|[[m ->]|H]]]].
    + destruct (windows_Init_cases le re now o s)
        as [(_ & Em & Eo & Eg & _)|(Hsh & _ & Em & _)].
      * apply (slots_same_table s); assumption.
      * destruct (Hempty Hsh) as (Hm & _).
        apply (slots_no_connection _ RESERVED_CONNECTION_COUNT Singular); [|lia].
        rewrite Em, Hm. unfold resize. rewrite take_nil, Nat.sub_0_r. reflexivity.
    + apply windows_Start_members in H as (_ & Em & Eo & Eg & _).
      apply (slots_same_table s); assumption.
    + apply windows_Shutdown_cases in H as [[_ ->]|[_ (_ & _ & _ & _ & Em & _)]];
        [exact IH|].
      apply (slots_no_connection _ 0 End); [exact Em|lia].
    + apply (slots_same_table s); [reflexivity..|exact IH].
    + apply (slots_evolves s); assumption.
Qed.
End CapacityAndHandles.

Lemma live_count_le (s : TcpServer) : (live_count s <= length (_mgr s))%nat.
Proof. unfold live_count. apply List.filter_length_le. Qed.

Lemma magic_of_time_range (now : Z) : 0 <= magic_of_time now < 2 ^ 16.
Proof. unfold magic_of_time. apply u16_range. Qed.

Section MagicOfTheReachableStates.
Variable InvalidConnectionId : ConnectionId.

Lemma linux_reachable_magic (s : TcpServer) :
  linux_reachable InvalidConnectionId s -> 0 <= _magic_number s < 2 ^ 16.
Proof.
  induction 1 as [|s s' Hr IH Hstep]; [simpl; lia|].
  apply linux_step_cases in Hstep
    as [(le & re & se & now & o & ->)|[(lo & ro & so & e & H)|[H|[[m ->]|H]]]].
  - destruct (linux_Init_cases le re se now o s)
      as [(_ & _ & _ & Eg & _)|(_ & _ & _ & _ & Eg & _)]; rewrite Eg;
      [exact IH|apply magic_of_time_range].
  - apply linux_Start_members in H as (_ & _ & _ & Eg & _). rewrite Eg. exact IH.
  - apply linux_Shutdown_cases in H as [[_ ->]|[_ (_ & _ & Eg & _)]];
      [|rewrite Eg]; exact IH.
  - exact IH.
  - destruct H as (U & _). unfold untouched in U.
    replace (_magic_number s') with (_magic_number s) by congruence. exact IH.
Qed.

Lemma windows_reachable_magic (s : TcpServer) :
  windows_reachable InvalidConnectionId s -> 0 <= _magic_number s < 2 ^ 16.
Proof.
  induction 1 as [|s s' Hr IH Hstep]; [simpl; lia|].
  apply windows_step_cases in Hstep
    as [(le & re & now & o & ->)|[(lo & ro & e & H)|[H|[[m ->]|H]]]].
  - destruct (windows_Init_cases le re now o s)
      as [(_ & _ & _ & Eg & _)|(_ & _ & _ & _ & Eg & _)]; rewrite Eg;
      [exact IH|apply magic_of_time_range].
  - apply windows_Start_members in H as (_ & _ & _ & Eg & _). rewrite Eg. exact IH.
  - apply windows_Shutdown_cases in H as [[_ ->]|[_ (_ & _ & Eg & _)]];
      [|rewrite Eg]; exact IH.
  - exact IH.
  - destruct H as (U & _). unfold untouched in U.
    replace (_magic_number s') with (_magic_number s) by congruence. exact IH.
Qed.

Lemma reachable_server_inv (s : TcpServer) :
  linux_reachable InvalidConnectionId s \/
  windows_reachable InvalidConnectionId s -> server_inv s.
Proof.
  intros [H|H];
    [apply (linux_reachable_server_inv InvalidConnectionId)
    |apply (windows_reachable_server_inv InvalidConnectionId)]; exact H.
Qed.

Lemma reachable_slots (s : TcpServer) :
  linux_reachable InvalidConnectionId s \/
  windows_reachable InvalidConnectionId s ->
  handles_wf s /\ within_capacity s /\ 0 <= _magic_number s < 2 ^ 16.
Proof.
  intros [H|H].
  - destruct (linux_reachable_slots InvalidConnectionId s H).
    pose proof (linux_reachable_magic s H). auto.
  - destruct (windows_reachable_slots InvalidConnectionId s H).
    pose proof (windows_reachable_magic s H). auto.
Qed.
End MagicOfTheReachableStates.

(** X1.  In every state that either build reaches from the constructor, a
    slot of the table is in one of two conditions.  Either it holds a
    connection: then the timeout index has exactly one entry for the slot,
    the iterator kept in the slot designates that entry, and the free list
    does not name the slot.  Or it is empty: then the free list names it
    and the index has no entry for it.  The free list names no slot
    twice. *)
Theorem reachable_slot_partition (InvalidConnectionId : ConnectionId)
        (s : TcpServer) (i : nat) (d : ConnectionData) :
  linux_reachable InvalidConnectionId s \/
  windows_reachable InvalidConnectionId s ->
  _mgr s !! i = Some d ->
  NoDup (_free_index_list s) /\
  match d.1 with
  | Some c =>
      (exists e : TimeoutEntry,
          e ∈ tr_entries (_timeout_record_list s) /\
          te_index e = i /\ d.2 = It (te_node e) /\
          forall e' : TimeoutEntry,
            e' ∈ tr_entries (_timeout_record_list s) -> te_index e' = i -> e' = e) /\
      i ∉ _free_index_list s
  | None =>
      i ∈ _free_index_list s /\
      forall e : TimeoutEntry,
        e ∈ tr_entries (_timeout_record_list s) -> te_index e <> i
  end.
Proof.
  intros Hr Hd. apply reachable_server_inv in Hr as [Hwf _].
  split; [apply (twf_free_nodup s Hwf)|].
  destruct d as [[c|] it]; simpl.
  - destruct (twf_slots s Hwf i c it Hd) as (e & He & -> & Hi).
    split.
    + exists e. repeat split; try assumption.
      intros e' He' Hi'. apply (wf_index_inj s); [apply Hwf|assumption..|congruence].
    + intros Hin.
      destruct (proj1 (list.Forall_forall _ _) (twf_free s Hwf) i Hin) as [it' H'].
      congruence.
  - split; [apply (twf_empty s Hwf i it Hd)|].
    intros e He Hi.
    destruct (proj1 (list.Forall_forall _ _) (wf_live s (twf_timeouts s Hwf)) e He)
      as [c Hc].
    rewrite Hi in Hc. congruence.
Qed.

(** X3.  In every state that either build reaches from the constructor,
    the handle of a connection found in slot [i] was built from the magic
    number the server has now and from [i].  With [max_connections] a
    [uint32_t], if moreover [i] is below [max_connections] and the handle
    is not the invalid sentinel, the validator maps the handle to [i], and
    [Send] with it reaches that connection and returns what the connection
    returns. *)
Theorem live_handle_reaches_its_connection (InvalidConnectionId : ConnectionId)
        (s : TcpServer) (i : nat) (c : Connection) (it : iterator)
        (ok : bool) (len : Z) :
  linux_reachable InvalidConnectionId s \/
  windows_reachable InvalidConnectionId s ->
  _mgr s !! i = Some (Some c, it) ->
  (exists port : Z,
      conn_cid c = BuildConnectionId (_magic_number s) port (Z.of_nat i)) /\
  (0 <= max_connections (_options s) < 2 ^ 32 ->
   Z.of_nat i < max_connections (_options s) ->
   conn_cid c <> InvalidConnectionId ->
   CheckConnectionId InvalidConnectionId s (conn_cid c) = Z.of_nat i /\
   Linux.Send InvalidConnectionId ok (conn_cid c) len s
   = Ok (ok, emit (ConnSend (conn_cid c) len) s) /\
   Windows.Send InvalidConnectionId ok (conn_cid c) len s
   = Ok (ok, emit (ConnSend (conn_cid c) len) s)).
Proof.
  intros Hr Hslot. apply reachable_slots in Hr as (Hh & _ & Hmagic).
  destruct (Hh i c it Hslot) as [port Hcid]. split; [exists port; exact Hcid|].
  intros Hmax Hi Hne.
  assert (Hv : CheckConnectionId InvalidConnectionId s (conn_cid c) = Z.of_nat i).
  { destruct (Check_cases InvalidConnectionId s (conn_cid c))
      as [[_ [H|[H|H]]]|[E _]].
    - contradiction.
    - exfalso. apply H. rewrite Hcid, GetMagicNumber_Build. apply u16_small, Hmagic.
    - exfalso. rewrite Hcid, GetUserId_Build, u32_small in H; lia.
    - rewrite E, Hcid, GetUserId_Build. apply u32_small. lia. }
  split; [exact Hv|].
  assert (Hni : (Z.of_nat i =? InvalidIndex) = false).
  { apply Z.eqb_neq. rewrite InvalidIndex_value. lia. }
  unfold Windows.Send, Windows.SendWithHeader, Windows.GetConnection, Linux.Send.
  rewrite Hv, Hni, Nat2Z.id. unfold slot_at. rewrite Hslot. simpl.
  split; reflexivity.
Qed.

(** ** Accepting a connection *)

Lemma grow_shape (s s1 : TcpServer) :
  Z.of_nat (length (_mgr s)) < max_connections (_options s) ->
  grow s = Ok s1 ->
  untouched s1 = untouched s /\
  _timeout_record_list s1 = _timeout_record_list s /\
  exists k : nat,
    _mgr s1 = _mgr s ++ replicate k (None, End) /\
    _free_index_list s1 = _free_index_list s ++ seq (length (_mgr s)) k.
Proof.
  intros Hroom Hg.
  pose proof (grow_evolves s s1 Hroom Hg) as (U & _).
  split; [exact U|]. revert Hg. unfold grow.
  set (count := length (_mgr s)).
  set (expand := if Z.of_nat count * 2 <? max_connections (_options s)
                 then (count * 2)%nat
                 else Z.to_nat (max_connections (_options s))).
  assert (Hle : (count <= expand)%nat).
  { unfold expand. destruct (Z.ltb_spec (Z.of_nat count * 2)
                                         (max_connections (_options s)));
      fold count in Hroom; lia. }
  destruct (seed_slots_spec (expand - count)
              (set_mgr (resize expand (_mgr s)) s) (_mgr s))
    as (s' & H1 & H2 & H3 & H4 & _).
  { simpl. unfold resize. rewrite take_ge by (fold count; lia). reflexivity. }
  fold count in H1. rewrite H1. intros [= <-].
  split; [exact H4|]. exists (expand - count)%nat. split; assumption.
Qed.

(** What an accept that returns has done to the table: the table may have
    grown by [k] empty slots, and then either nothing else happened to it,
    or the slot at the front of the free list received the connection. *)
Lemma accept_shape (async_recv : bool) (now sock listen_port : Z)
      (s s' : TcpServer) :
  Linux.OnNewConnection now sock listen_port s = Ok s' \/
  Windows.OnNewConnection async_recv now sock listen_port s = Ok s' ->
  exists k : nat,
    (_free_index_list s <> [] -> k = 0%nat) /\
    ((_mgr s' = _mgr s ++ replicate k (None, End) /\
      _timeout_record_list s' = _timeout_record_list s) \/
     exists (index : nat) (rest : list nat) (port : Z),
       _free_index_list s ++ seq (length (_mgr s)) k = index :: rest /\
       (index < length (_mgr s ++ replicate k (None, End)))%nat /\
       _mgr s'
       = <[index := (Some {| conn_cid := BuildConnectionId (_magic_number s) port
                                           (Z.of_nat index);
                             conn_sock := sock |},
                     It (tr_fresh (_timeout_record_list s)))]>
           (_mgr s ++ replicate k (None, End)) /\
       _timeout_record_list s'
       = (tr_insert (now + connection_timeout (_options s)) index
                    (_timeout_record_list s)).2).
Proof.
  (* the accept once a free index is at hand *)
  assert (Hfront : forall t t' : TcpServer,
             _free_index_list t <> [] ->
             Linux.OnNewConnection now sock listen_port t = Ok t' \/
             Windows.OnNewConnection async_recv now sock listen_port t = Ok t' ->
             (_mgr t' = _mgr t /\ _timeout_record_list t' = _timeout_record_list t) \/
             exists (index : nat) (rest : list nat) (port : Z),
               _free_index_list t = index :: rest /\
               (index < length (_mgr t))%nat /\
               _mgr t'
               = <[index := (Some {| conn_cid := BuildConnectionId (_magic_number t)
                                                   port (Z.of_nat index);
                                     conn_sock := sock |},
                             It (tr_fresh (_timeout_record_list t)))]> (_mgr t) /\
               _timeout_record_list t'
               = (tr_insert (now + connection_timeout (_options t)) index
                            (_timeout_record_list t)).2).
  { intros t t' Hne H.
    destruct (_free_index_list t) as [|index rest] eqn:Hf; [contradiction|].
    assert (Hw : Windows.OnNewConnection true now sock listen_port t = Ok t' ->
                 _mgr t' = _mgr t /\ _timeout_record_list t' = _timeout_record_list t).
    { unfold Windows.OnNewConnection.
      rewrite bool_decide_eq_false_2 by congruence. simpl. rewrite Hf.
      destruct (_rs_thread t); [|discriminate].
      intros [= <-]. split; reflexivity. }
    destruct (decide (index < length (_mgr t))%nat) as [Hlt|Hge].
    - destruct H as [H|H].
      + destruct (linux_OnNewConnection_installs now sock listen_port t index rest
                    Hf Hlt) as (t'' & H1 & H2 & H3 & H4).
        rewrite H1 in H. injection H as <-.
        right. exists index, rest, listen_port. auto.
      + destruct async_recv; [left; apply Hw, H|].
        assert (Hrs : exists w, _rs_thread t = Some w).
        { unfold Windows.OnNewConnection in H.
          rewrite bool_decide_eq_false_2 in H by congruence. simpl in H.
          rewrite Hf in H. destruct (_rs_thread t) as [w|]; [eauto|discriminate]. }
        destruct Hrs as [w Hrs].
        destruct (windows_OnNewConnection_branches false now sock listen_port t
                    index rest w Hf Hlt Hrs) as (t'' & H1 & H2 & H3 & H4 & _).
        rewrite H1 in H. injection H as <-.
        right. exists index, rest, (u16 listen_port). auto.
    - assert (Hnone : _mgr t !! index = None)
        by (apply lookup_ge_None_2; lia).
      destruct H as [H|H].
      + exfalso. unfold Linux.OnNewConnection in H.
        rewrite bool_decide_eq_false_2 in H by congruence. simpl in H.
        rewrite Hf in H. unfold set_first, slot_at in H. simpl in H.
        rewrite Hnone in H. discriminate.
      + destruct async_recv; [left; apply Hw, H|].
        exfalso. unfold Windows.OnNewConnection in H.
        rewrite bool_decide_eq_false_2 in H by congruence. simpl in H.
        rewrite Hf in H.
        destruct (_rs_thread t) as [w|]; [|discriminate].
        unfold set_first, slot_at in H. simpl in H.
        rewrite Hnone in H. discriminate. }
  intros H. destruct (decide (_free_index_list s = [])) as [Hf|Hf].
  - destruct (Z.geb_spec (Z.of_nat (length (_mgr s))) (max_connections (_options s)))
      as [Hfull|Hroom].
    + exists 0%nat. split; [reflexivity|]. left. simpl. rewrite app_nil_r.
      destruct (OnNewConnection_refused async_recv now sock listen_port s Hf
                  ltac:(lia)) as (H1 & H2 & _).
      rewrite H1, H2 in H. destruct H as [[= <-]|[= <-]]; split; reflexivity.
    + assert (Hg : exists s1, grow s = Ok s1 /\ _free_index_list s1 <> [] /\
                     (Linux.OnNewConnection now sock listen_port s1 = Ok s' \/
                      Windows.OnNewConnection async_recv now sock listen_port s1
                      = Ok s')).
      { unfold Linux.OnNewConnection, Windows.OnNewConnection in H.
        rewrite bool_decide_eq_true_2 in H by exact Hf.
        destruct (Z.geb_spec (Z.of_nat (length (_mgr s)))
                             (max_connections (_options s))) as [?|_]; [lia|].
        simpl in H. destruct (grow s) as [s1|]; simpl in H;
          [|destruct H; discriminate].
        exists s1. split; [reflexivity|].
        assert (Hne : _free_index_list s1 <> []).
        { intros Heq. rewrite Heq in H. destruct H; discriminate. }
        split; [exact Hne|].
        unfold Linux.OnNewConnection, Windows.OnNewConnection.
        rewrite bool_decide_eq_false_2 by exact Hne. exact H. }
      destruct Hg as (s1 & Hg & Hne & H1).
      destruct (grow_shape s s1 Hroom Hg) as (U & Et & k & Em & Ef).
      assert (Eo : _options s1 = _options s) by (unfold untouched in U; congruence).
      assert (Eg : _magic_number s1 = _magic_number s)
        by (unfold untouched in U; congruence).
      exists k. split; [contradiction|].
      destruct (Hfront s1 s' Hne H1)
        as [[H2 H3]|(index & rest & port & H2 & H3 & H4 & H5)].
      * left. rewrite H2, H3, Em, Et. split; reflexivity.
      * right. exists index, rest, port.
        rewrite <- Ef, <- Em, <- Eg, <- Eo, <- Et. auto.
  - exists 0%nat. split; [reflexivity|]. simpl. rewrite !app_nil_r.
    destruct (Hfront s s' Hf H) as [H1|H1]; [left|right]; exact H1.
Qed.

Lemma filter_live_replicate (k : nat) (it : iterator) :
  List.filter is_live (replicate k (None, it)) = [].
Proof. induction k as [|k IH]; simpl; [reflexivity|exact IH]. Qed.

Lemma filter_live_insert (l : list ConnectionData) (i : nat) (c : Connection)
      (it0 it : iterator) :
  l !! i = Some (None, it0) ->
  length (List.filter is_live (<[i := (Some c, it)]> l))
  = S (length (List.filter is_live l)).
Proof.
  intros Hi. pose proof (lookup_lt_Some _ _ _ Hi) as Hlt.
  rewrite insert_take_drop by exact Hlt.
  rewrite <- (take_drop_middle l i _ Hi) at 3.
  rewrite !List.filter_app, !length_app. simpl. lia.
Qed.

(** An accept on a consistent table: the table may have grown by [k]
    empty slots, and then either nothing else happened to it, or a slot
    that was empty received the connection. *)
Lemma accept_slots (async_recv : bool) (now sock listen_port : Z)
      (s s' : TcpServer) :
  table_wf s ->
  Linux.OnNewConnection now sock listen_port s = Ok s' \/
  Windows.OnNewConnection async_recv now sock listen_port s = Ok s' ->
  exists k : nat,
    (_mgr s' = _mgr s ++ replicate k (None, End) /\
     _timeout_record_list s' = _timeout_record_list s) \/
    exists (index : nat) (port : Z) (it1 : iterator),
      (_mgr s ++ replicate k (None, End)) !! index = Some (None, it1) /\
      _mgr s'
      = <[index := (Some {| conn_cid := BuildConnectionId (_magic_number s) port
                                          (Z.of_nat index);
                            conn_sock := sock |},
                    It (tr_fresh (_timeout_record_list s)))]>
          (_mgr s ++ replicate k (None, End)) /\
      _timeout_record_list s'
      = (tr_insert (now + connection_timeout (_options s)) index
                   (_timeout_record_list s)).2.
Proof.
  intros Hwf H.
  destruct (accept_shape async_recv now sock listen_port s s' H)
    as (k & Hk & [[Em Et]|(index & rest & port & Ef & Hlt & Em & Et)]);
    exists k; [left; auto|right].
  assert (Hempty : (exists it0, _mgr s !! index = Some (None, it0)) \/
                   (length (_mgr s) <= index)%nat).
  { assert (Hin : index ∈ _free_index_list s ++ seq (length (_mgr s)) k)
      by (rewrite Ef; apply list_elem_of_here).
    apply elem_of_app in Hin as [Hin|Hin].
    - left. apply (proj1 (list.Forall_forall _ _) (twf_free s Hwf) index Hin).
    - right. apply elem_of_seq in Hin. lia. }
  assert (Hm1 : exists it1,
             (_mgr s ++ replicate k (None, End)) !! index = Some (None, it1)).
  { destruct Hempty as [[it0 H0]|Hge].
    - exists it0.
      rewrite lookup_app_l by apply (lookup_lt_Some _ _ _ H0). exact H0.
    - exists End. rewrite lookup_app_r by exact Hge.
      apply lookup_replicate_2.
      rewrite length_app, length_replicate in Hlt. lia. }
  destruct Hm1 as [it1 Hm1]. exists index, port, it1. auto.
Qed.

(** The connection an accept has added. *)
Lemma accept_installed (async_recv : bool) (now sock listen_port : Z)
      (s s' : TcpServer) (j : nat) (c : Connection) (it : iterator) :
  table_wf s ->
  Linux.OnNewConnection now sock listen_port s = Ok s' \/
  Windows.OnNewConnection async_recv now sock listen_port s = Ok s' ->
  _mgr s' !! j = Some (Some c, it) ->
  _mgr s !! j <> Some (Some c, it) ->
  conn_sock c = sock /\
  (forall c0 it0, _mgr s !! j <> Some (Some c0, it0)) /\
  exists e : TimeoutEntry,
    e ∈ tr_entries (_timeout_record_list s') /\
    te_index e = j /\
    te_deadline e = now + connection_timeout (_options s) /\
    it = It (te_node e).
Proof.
  intros Hwf H Hj Hne.
  destruct (accept_slots async_recv now sock listen_port s s' Hwf H)
    as (k & [[Em Et]|(index & port & it1 & Hm1 & Em & Et)]); rewrite Em in Hj.
  - exfalso. apply lookup_app_Some in Hj as [Hj|(_ & Hj)]; [contradiction|].
    apply lookup_replicate in Hj as [[=] _].
  - pose proof (lookup_lt_Some _ _ _ Hm1) as Hlt.
    destruct (decide (index = j)) as [<-|Hij].
    + rewrite list_lookup_insert_eq in Hj by exact Hlt.
      injection Hj as <- <-. split; [reflexivity|]. split.
      * intros c0 it0 H0.
        rewrite lookup_app_l in Hm1 by apply (lookup_lt_Some _ _ _ H0).
        congruence.
      * eexists. rewrite Et. split; [|split; [|split]];
          [apply elem_of_insert_sorted; left; reflexivity|reflexivity..].
    + exfalso. rewrite list_lookup_insert_ne in Hj by exact Hij.
      apply lookup_app_Some in Hj as [Hj|(_ & Hj)]; [contradiction|].
      apply lookup_replicate in Hj as [[=] _].
Qed.

(** X4.  On a consistent table, an accept that returns (either build)
    leaves every connection of the table in its slot, with its iterator;
    it adds at most one connection; and a connection it added holds the
    accepted socket, sits in a slot that was empty or did not exist, and
    has an entry in the timeout index with the deadline
    [now + connection_timeout] that the slot's iterator designates. *)
Theorem accept_spares_the_connections (async_recv : bool)
        (now sock listen_port : Z) (s s' : TcpServer) :
  table_wf s ->
  Linux.OnNewConnection now sock listen_port s = Ok s' \/
  Windows.OnNewConnection async_recv now sock listen_port s = Ok s' ->
  (forall j c it, _mgr s !! j = Some (Some c, it) ->
                  _mgr s' !! j = Some (Some c, it)) /\
  (live_count s <= live_count s' <= live_count s + 1)%nat /\
  (forall j c it,
      _mgr s' !! j = Some (Some c, it) ->
      _mgr s !! j <> Some (Some c, it) ->
      conn_sock c = sock /\
      (forall c0 it0, _mgr s !! j <> Some (Some c0, it0)) /\
      exists e : TimeoutEntry,
        e ∈ tr_entries (_timeout_record_list s') /\
        te_index e = j /\
        te_deadline e = now + connection_timeout (_options s) /\
        it = It (te_node e)).
Proof.
  intros Hwf H.
  split; [|split;
           [|intros j c it;
             apply (accept_installed async_recv now sock listen_port s s'); assumption]].
  - (* the connections of the table *)
    intros j c it Hj.
    assert (Hold : forall k, (_mgr s ++ replicate k (None, End)) !! j
                             = Some (Some c, it)).
    { intros k. rewrite lookup_app_l by apply (lookup_lt_Some _ _ _ Hj). exact Hj. }
    destruct (accept_slots async_recv now sock listen_port s s' Hwf H)
      as (k & [[Em _]|(index & port & it1 & Hm1 & Em & _)]); rewrite Em.
    + apply Hold.
    + assert (Hne : index <> j).
      { intros <-. rewrite Hold in Hm1. discriminate. }
      rewrite list_lookup_insert_ne by exact Hne. apply Hold.
  - (* their number *)
    unfold live_count.
    destruct (accept_slots async_recv now sock listen_port s s' Hwf H)
      as (k & [[Em _]|(index & port & it1 & Hm1 & Em & _)]); rewrite Em.
    + rewrite List.filter_app, filter_live_replicate, app_nil_r. lia.
    + rewrite (filter_live_insert _ index _ it1) by exact Hm1.
      rewrite List.filter_app, filter_live_replicate, app_nil_r. lia.
Qed.

(** ** The lifetime of a connection *)

Lemma shutdown_calls_elem (mgr : list ConnectionData) (l : list TimeoutEntry)
      (e : TimeoutEntry) (c : Connection) (it : iterator) :
  e ∈ l -> mgr !! te_index e = Some (Some c, it) ->
  ConnShutdown (conn_cid c) true ∈ shutdown_calls mgr l.
Proof.
  intros He Hc. induction l as [|x l IH]; [apply elem_of_nil in He; destruct He|].
  cbn [shutdown_calls]. apply elem_of_cons in He as [<-|He].
  - rewrite Hc. apply list_elem_of_here.
  - specialize (IH He).
    destruct (mgr !! te_index x) as [[[c'|] it']|]; [apply list_elem_of_further|..];
      exact IH.
Qed.

(** What a sweep that is past the rate limit does to the slot of an entry. *)
Lemma slot_deadline_fate (current : Z) (s : TcpServer) (c : Connection)
      (e : TimeoutEntry) :
  timeouts_wf s ->
  e ∈ tr_entries (_timeout_record_list s) ->
  _mgr s !! te_index e = Some (Some c, It (te_node e)) ->
  1 <= current - _last_timeout_time s ->
  exists s',
    Linux.OnCheckingEvent current s = Some (Ok s') /\
    (3 <= current - _last_timeout_time s ->
     Windows.OnCheckingEvent current s = Some (Ok s')) /\
    (te_deadline e <= current ->
     _mgr s' !! te_index e = Some (None, End) /\
     ConnShutdown (conn_cid c) true ∈ effects s') /\
    (current < te_deadline e ->
     _mgr s' !! te_index e = Some (Some c, It (te_node e))).
Proof.
  intros Hwf He Hslot Hrate.
  set (entries := tr_entries (_timeout_record_list s)) in *.
  set (due := List.filter (expired current) entries).
  set (s0 := set_last_timeout_time current s).
  pose proof (timeouts_wf_set_last current s Hwf) as Hwf0. fold s0 in Hwf0.
  pose proof (wf_sorted s Hwf) as Hsorted. fold entries in Hsorted.
  set (p := expired_prefix current entries).
  assert (Hp : p = due) by apply expired_prefix_sorted, Hsorted.
  pose proof (sweep_expired current entries (S (length entries)) s0 eq_refl Hwf0
                            ltac:(lia)) as Hsweep.
  fold p in Hsweep.
  destruct (foldl_evicted p s0 (drop (length p) entries)
                          (expired_prefix_split current entries) Hwf0)
    as (E1 & E2 & E3 & E4 & E5 & E6).
  exists (foldl evicted s0 p).
  split.
  { unfold Linux.OnCheckingEvent.
    destruct (Z.ltb_spec (current - _last_timeout_time s) 1); [lia|exact Hsweep]. }
  split.
  { intros H3. unfold Windows.OnCheckingEvent.
    destruct (Z.ltb_spec (current - _last_timeout_time s) 3); [lia|exact Hsweep]. }
  split.
  - intros Hdue.
    assert (Hin : e ∈ due).
    { apply elem_of_filter_list. split; [exact He|].
      unfold expired. apply Z.leb_le, Hdue. }
    split.
    + rewrite E3, Hp. apply clear_slots_cleared; [apply index_elem_of, Hin|].
      apply (lookup_lt_Some _ _ _ Hslot).
    + rewrite E4, Hp. apply elem_of_app. right.
      apply (shutdown_calls_elem _ _ e c (It (te_node e))); assumption.
  - intros Hlate. rewrite E3, Hp, clear_slots_other; [exact Hslot|].
    intros Hin. apply list_elem_of_In, in_map_iff in Hin as (e' & Hi & He').
    apply list_elem_of_In, elem_of_filter_list in He' as [He' Hexp].
    assert (e' = e) by (apply (wf_index_inj s); assumption).
    subst e'. unfold expired in Hexp. apply Z.leb_le in Hexp. lia.
Qed.

(** ** The rate limit of the sweep *)

(** X5.  A sweep that runs (the call is past the rate limit: one second on
    the epoll build, three on the IOCP build) and returns leaves
    [_last_timeout_time] at the clock value it was given, so that every
    later call whose clock is less than one second (three on the IOCP
    build) past that value returns at once and changes nothing. *)
Theorem sweep_rate_limit (current : Z) (s s' : TcpServer) :
  (Linux.OnCheckingEvent current s = Some (Ok s') /\
   1 <= current - _last_timeout_time s) \/
  (Windows.OnCheckingEvent current s = Some (Ok s') /\
   3 <= current - _last_timeout_time s) ->
  _last_timeout_time s' = current /\
  (forall t : Z, t - current < 1 -> Linux.OnCheckingEvent t s' = Some (Ok s')) /\
  (forall t : Z, t - current < 3 -> Windows.OnCheckingEvent t s' = Some (Ok s')).
Proof.
  intros H.
  assert (Hl : _last_timeout_time s' = current).
  { destruct H as [[H Hr]|[H Hr]].
    - unfold Linux.OnCheckingEvent in H.
      destruct (Z.ltb_spec (current - _last_timeout_time s) 1); [lia|].
      apply sweep_evolves in H as [_ H]. exact H.
    - unfold Windows.OnCheckingEvent in H. rewrite windows_evict_eq in H.
      destruct (Z.ltb_spec (current - _last_timeout_time s) 3); [lia|].
      apply sweep_evolves in H as [_ H]. exact H. }
  split; [exact Hl|]. split; intros t Ht.
  - unfold Linux.OnCheckingEvent. rewrite Hl.
    destruct (Z.ltb_spec (t - current) 1); [reflexivity|lia].
  - unfold Windows.OnCheckingEvent. rewrite Hl.
    destruct (Z.ltb_spec (t - current) 3); [reflexivity|lia].
Qed.

(** ** A closed handle *)

Lemma Check_ext (InvalidConnectionId : ConnectionId) (s s' : TcpServer)
      (cid : ConnectionId) :
  untouched s' = untouched s ->
  CheckConnectionId InvalidConnectionId s' cid
  = CheckConnectionId InvalidConnectionId s cid.
Proof.
  intros U. unfold untouched in U. unfold CheckConnectionId.
  replace (_magic_number s') with (_magic_number s) by congruence.
  replace (_options s') with (_options s) by congruence. reflexivity.
Qed.

Lemma remove_slot (index : nat) (s s' : TcpServer) :
  Linux.DeleteConnection index s = Ok s' ->
  _mgr s' = <[index := (None, End)]> (_mgr s) /\ (index < length (_mgr s))%nat.
Proof.
  intros H. apply linux_DeleteConnection_inv in H as (o & n & Hs & Em & _).
  split; [exact Em|apply (lookup_lt_Some _ _ _ Hs)].
Qed.

Lemma windows_DeleteConnection_live (index : nat) (s : TcpServer)
      (c : Connection) (it : iterator) :
  _mgr s !! index = Some (Some c, it) ->
  Windows.DeleteConnection index s = Linux.DeleteConnection index s.
Proof.
  intros Hs.
  change (Windows.DeleteConnection index s)
    with (d ← slot_at index s;
          match d.1 with
          | None => Ok s
          | Some _ => Linux.DeleteConnection index s
          end).
  unfold slot_at. rewrite Hs. reflexivity.
Qed.

Section ClosedHandle.
Variable InvalidConnectionId : ConnectionId.
Local Abbreviation validate := (CheckConnectionId InvalidConnectionId).

(** What [CloseConnection] answers, and the slot it leaves. *)
Lemma CloseConnection_result (cid : ConnectionId) (s s1 : TcpServer) (b : bool) :
  Linux.CloseConnection InvalidConnectionId cid s = Ok (b, s1) \/
  Windows.CloseConnection InvalidConnectionId cid s = Ok (b, s1) ->
  validate s1 cid = validate s cid /\
  b = negb (validate s cid =? InvalidIndex) /\
  (b = true ->
   exists it, _mgr s1 !! Z.to_nat (validate s cid) = Some (None, it)).
Proof.
  intros H.
  assert (U : untouched s1 = untouched s).
  { destruct H as [H|H];
      [apply linux_CloseConnection_evolves in H
      |apply windows_CloseConnection_evolves in H]; apply H. }
  split; [apply Check_ext, U|].
  unfold Linux.CloseConnection, Windows.CloseConnection, Windows.GetConnection in H.
  destruct (validate s cid =? InvalidIndex);
    [destruct H as [[= <- <-]|[= <- <-]]; (split; [reflexivity|discriminate])|].
  unfold slot_at in H.
  destruct (_mgr s !! Z.to_nat (validate s cid)) as [[[c|] it]|] eqn:Hs;
    simpl in H; [| |destruct H; discriminate].
  - assert (Hd : exists s0, _mgr s0 = _mgr s /\
                            Linux.DeleteConnection (Z.to_nat (validate s cid)) s0
                            = Ok s1 /\ b = true).
    { destruct H as [H|H].
      - unfold shutdown_conn, slot_at in H. rewrite Hs in H. simpl in H.
        destruct (Linux.DeleteConnection _ _) as [s2|] eqn:Hd; simpl in H;
          [|discriminate].
        injection H as <- <-. eexists. split; [|split; [exact Hd|reflexivity]].
        reflexivity.
      - rewrite (windows_DeleteConnection_live _ _ c it) in H by exact Hs.
        destruct (Linux.DeleteConnection _ _) as [s2|] eqn:Hd; simpl in H;
          [|discriminate].
        injection H as <- <-. eexists. split; [|split; [exact Hd|reflexivity]].
        reflexivity. }
    destruct Hd as (s0 & Em & Hd & ->). split; [reflexivity|]. intros _.
    apply remove_slot in Hd as [Hd Hlt]. exists End. rewrite Hd.
    apply list_lookup_insert_eq, Hlt.
  - destruct H as [[= <- <-]|[= <- <-]]; split; eauto.
Qed.

(** X6.  Closing is idempotent, and a closed handle is dead (both builds):
    when [CloseConnection] has returned, a second call with the same
    handle returns the same answer and changes nothing, and [Send] with
    that handle returns [false] and changes nothing; when it answered
    [true], [OnErrorEvent] for that handle changes nothing either. *)
Theorem closed_handle_is_dead (cid : ConnectionId) (s s1 : TcpServer) (b : bool)
        (conn_send : bool) (len : Z) :
  Linux.CloseConnection InvalidConnectionId cid s = Ok (b, s1) \/
  Windows.CloseConnection InvalidConnectionId cid s = Ok (b, s1) ->
  Linux.CloseConnection InvalidConnectionId cid s1 = Ok (b, s1) /\
  Windows.CloseConnection InvalidConnectionId cid s1 = Ok (b, s1) /\
  Linux.Send InvalidConnectionId conn_send cid len s1 = Ok (false, s1) /\
  Windows.Send InvalidConnectionId conn_send cid len s1 = Ok (false, s1) /\
  (b = true ->
   Linux.OnErrorEvent InvalidConnectionId cid s1 = Ok s1 /\
   Windows.OnErrorEvent InvalidConnectionId cid s1 = Ok s1).
Proof.
  intros H. apply CloseConnection_result in H as (Ev & -> & Hslot).
  unfold Linux.CloseConnection, Windows.CloseConnection, Linux.Send, Windows.Send,
    Windows.SendWithHeader, Linux.OnErrorEvent, Windows.OnErrorEvent,
    Windows.GetConnection.
  rewrite Ev.
  destruct (validate s cid =? InvalidIndex); simpl.
  - repeat split; try reflexivity; discriminate.
  - destruct (Hslot eq_refl) as [it Hit]. unfold slot_at. rewrite Hit. simpl.
    repeat split; reflexivity.
Qed.
End ClosedHandle.

(** ** Evicting an empty slot *)


Section EmptySlot.
Variable InvalidConnectionId : ConnectionId.
Local Abbreviation validate := (CheckConnectionId InvalidConnectionId).



End EmptySlot.

(** X7.  Idle timeout.  On a consistent table, a connection that an accept
    has just installed (either build) is evicted, with
    [Connection::Shutdown(true)], by a sweep that is past the rate limit
    as soon as the clock of the sweep has reached
    [now + connection_timeout], and is left in its slot by every such
    sweep with an earlier clock. *)
Theorem idle_connection_is_evicted_at_its_deadline (async_recv : bool)
        (now sock listen_port current : Z) (s s1 : TcpServer)
        (j : nat) (c : Connection) (it : iterator) :
  table_wf s ->
  Linux.OnNewConnection now sock listen_port s = Ok s1 \/
  Windows.OnNewConnection async_recv now sock listen_port s = Ok s1 ->
  _mgr s1 !! j = Some (Some c, it) ->
  _mgr s !! j <> Some (Some c, it) ->
  1 <= current - _last_timeout_time s1 ->
  exists s2,
    Linux.OnCheckingEvent current s1 = Some (Ok s2) /\
    (3 <= current - _last_timeout_time s1 ->
     Windows.OnCheckingEvent current s1 = Some (Ok s2)) /\
    (now + connection_timeout (_options s) <= current ->
     _mgr s2 !! j = Some (None, End) /\
     ConnShutdown (conn_cid c) true ∈ effects s2) /\
    (current < now + connection_timeout (_options s) ->
     _mgr s2 !! j = Some (Some c, it)).
Proof.
  intros Hwf H Hj Hnew Hrate.
  assert (Hwf1 : table_wf s1).
  { destruct H as [H|H];
      [apply linux_OnNewConnection_keeps in H
      |apply windows_OnNewConnection_keeps in H];
      destruct H as (_ & H & _); apply H, Hwf. }
  destruct (accept_installed async_recv now sock listen_port s s1 j c it
              Hwf H Hj Hnew) as (_ & _ & e & He & <- & Hd & ->).
  rewrite <- Hd.
  apply slot_deadline_fate; [apply Hwf1|assumption..].
Qed.

Lemma refresh_shape (deadline : Z) (i : nat) (c : Connection) (it : iterator)
      (s s' : TcpServer) :
  _mgr s !! i = Some (Some c, it) ->
  (s1 ← erase_timeout it s; insert_timeout deadline i s1) = Ok s' ->
  _mgr s' = <[i := (Some c, It (tr_fresh (_timeout_record_list s)))]> (_mgr s) /\
  {| te_deadline := deadline; te_index := i;
     te_node := tr_fresh (_timeout_record_list s) |}
  ∈ tr_entries (_timeout_record_list s').
Proof.
  intros Hslot.
  destruct (erase_timeout it s) as [s1|] eqn:He; simpl; [|discriminate].
  apply erase_timeout_inv in He as (n & -> & ->).
  unfold insert_timeout, tr_insert, set_second, slot_at. simpl.
  rewrite Hslot. simpl. intros [= <-]. simpl. split; [reflexivity|].
  apply elem_of_insert_sorted. left. reflexivity.
Qed.

Section KeepAlive.
Variable InvalidConnectionId : ConnectionId.
Local Abbreviation validate := (CheckConnectionId InvalidConnectionId).

(** The successful branch of the four I/O handlers is the same refresh. *)
Lemma io_event_refreshes (now : Z) (cid : ConnectionId) (s s1 : TcpServer)
      (i : nat) (c : Connection) (it : iterator) :
  validate s cid = Z.of_nat i -> Z.of_nat i <> InvalidIndex ->
  _mgr s !! i = Some (Some c, it) ->
  Linux.OnRecvEvent InvalidConnectionId true now cid s = Ok s1 \/
  Linux.OnSendEvent InvalidConnectionId true now cid s = Ok s1 \/
  Windows.OnRecvEvent InvalidConnectionId true now cid s = Ok s1 \/
  Windows.OnSendEvent InvalidConnectionId true now cid s = Ok s1 ->
  exists ev : effect,
    (x ← erase_timeout it (emit ev s);
     insert_timeout (now + connection_timeout (_options s)) i x) = Ok s1.
Proof.
  intros Hv Hne Hslot.
  unfold Linux.OnRecvEvent, Linux.OnSendEvent, Windows.OnRecvEvent,
    Windows.OnSendEvent, Windows.RefreshTime, Windows.GetConnection.
  rewrite Hv, Nat2Z.id.
  destruct (Z.eqb_spec (Z.of_nat i) InvalidIndex) as [?|_]; [contradiction|].
  unfold slot_at. simpl. rewrite Hslot. simpl.
  intros [H|[H|[H|H]]]; eexists; exact H.
Qed.

(** X8.  Keep-alive.  On a consistent table, a successful receive or send
    event (either build) for the handle of a live slot touches no other
    slot and postpones the eviction of the connection: a later sweep that
    is past the rate limit leaves the connection in its slot while its
    clock is before [now + connection_timeout], and evicts it, with
    [Connection::Shutdown(true)], once its clock has reached that value. *)
Theorem io_event_postpones_eviction (now current : Z) (cid : ConnectionId)
        (s s1 : TcpServer) (i : nat) (c : Connection) (it : iterator) :
  table_wf s ->
  validate s cid = Z.of_nat i -> Z.of_nat i <> InvalidIndex ->
  _mgr s !! i = Some (Some c, it) ->
  Linux.OnRecvEvent InvalidConnectionId true now cid s = Ok s1 \/
  Linux.OnSendEvent InvalidConnectionId true now cid s = Ok s1 \/
  Windows.OnRecvEvent InvalidConnectionId true now cid s = Ok s1 \/
  Windows.OnSendEvent InvalidConnectionId true now cid s = Ok s1 ->
  1 <= current - _last_timeout_time s1 ->
  (forall j, j <> i -> _mgr s1 !! j = _mgr s !! j) /\
  exists s2,
    Linux.OnCheckingEvent current s1 = Some (Ok s2) /\
    (3 <= current - _last_timeout_time s1 ->
     Windows.OnCheckingEvent current s1 = Some (Ok s2)) /\
    (current < now + connection_timeout (_options s) ->
     exists it', _mgr s2 !! i = Some (Some c, it')) /\
    (now + connection_timeout (_options s) <= current ->
     _mgr s2 !! i = Some (None, End) /\
     ConnShutdown (conn_cid c) true ∈ effects s2).
Proof.
  intros Hwf Hv Hne Hslot H Hrate.
  destruct (io_event_refreshes now cid s s1 i c it Hv Hne Hslot H) as [ev Hr].
  assert (Hslot' : _mgr (emit ev s) !! i = Some (Some c, it)) by exact Hslot.
  assert (Hwf1 : table_wf s1).
  { destruct (erase_timeout it (emit ev s)) as [x|] eqn:He; simpl in Hr;
      [|discriminate].
    destruct (refresh_keeps _ i c it (emit ev s) x s1 Hslot' He Hr) as (_ & Hk & _).
    apply Hk. destruct (keeps_emit ev s) as (_ & Hk' & _). apply Hk', Hwf. }
  destruct (refresh_shape _ i c it (emit ev s) s1 Hslot' Hr) as [Em Hin].
  simpl in Em, Hin.
  pose proof (lookup_lt_Some _ _ _ Hslot) as Hlt.
  split.
  { intros j Hj. rewrite Em. apply list_lookup_insert_ne. congruence. }
  set (e := {| te_deadline := now + connection_timeout (_options s);
               te_index := i;
               te_node := tr_fresh (_timeout_record_list s) |}) in *.
  assert (Hs1 : _mgr s1 !! te_index e = Some (Some c, It (te_node e))).
  { rewrite Em. apply list_lookup_insert_eq, Hlt. }
  destruct (slot_deadline_fate current s1 c e (twf_timeouts s1 Hwf1) Hin Hs1 Hrate)
    as (s2 & H1 & H2 & H3 & H4).
  exists s2. split; [exact H1|]. split; [exact H2|]. split.
  - intros Hc. exists (It (te_node e)). apply H4, Hc.
  - exact H3.
Qed.
End KeepAlive.

(** ** The handoff queue and the dispatcher *)

Lemma u32_mod (x : Z) : u32 x = x mod 2 ^ 32.
Proof.
  unfold u32. change 0xffffffff with (Z.ones 32). apply Z.land_ones. lia.
Qed.

Lemma u32_add_l (a b : Z) : u32 (u32 a + b) = u32 (a + b).
Proof. rewrite !u32_mod. apply Zplus_mod_idemp_l. Qed.

Lemma drain_counted (q : list TcpMessageNode) :
  forall k : Z, drain q (u32 (k + Z.of_nat (length q))) = u32 k.
Proof.
  induction q as [|m q IH]; intros k; cbn [drain length].
  - rewrite Z.add_0_r. reflexivity.
  - replace (u32 (k + Z.of_nat (S (length q))) - 1)
      with (u32 (k + Z.of_nat (S (length q))) + -1) by lia.
    rewrite u32_add_l.
    replace (k + Z.of_nat (S (length q)) + -1) with (k + Z.of_nat (length q)) by lia.
    apply IH.
Qed.

(** The counter is the length of the queue, as a [uint32_t]; the queue is
    empty while the server is shut down. *)
Lemma queue_step_counted (s s' : TcpServer) :
  queue_step s s' ->
  (_shutdown s = true -> _mpscq s' = _mpscq s) ->
  _count s = u32 (Z.of_nat (length (_mpscq s))) /\
  (_shutdown s = true -> _mpscq s = []) ->
  _count s' = u32 (Z.of_nat (length (_mpscq s'))) /\
  (_shutdown s' = true -> _mpscq s' = []).
Proof.
  intros [(E1 & E2 & E3)|[(E1 & E2 & E3 & E4)|[(E1 & E2 & E3 & E4)|[m ->]]]]
         Hquiet [Hc Hq].
  - rewrite E1, E2, E3. auto.
  - rewrite E2, E3, E4, (Hq E1). split; [reflexivity|discriminate].
  - rewrite E3, E4, Hc. split; [|reflexivity].
    apply (drain_counted (_mpscq s) 0).
  - simpl. split.
    + rewrite Hc, u32_add_l, length_app. simpl. f_equal. lia.
    + intros Hsh. specialize (Hquiet Hsh). simpl in Hquiet.
      rewrite (Hq Hsh) in Hquiet. discriminate.
Qed.

Lemma turn_counted (s s' : TcpServer) (cb : option callback) :
  MessageQueueThread_turn s = Popped cb s' ->
  _count s = u32 (Z.of_nat (length (_mpscq s))) /\
  (_shutdown s = true -> _mpscq s = []) ->
  _count s' = u32 (Z.of_nat (length (_mpscq s'))) /\
  (_shutdown s' = true -> _mpscq s' = []).
Proof.
  unfold MessageQueueThread_turn.
  destruct (_shutdown s) eqn:Hsh; [discriminate|].
  destruct (_count s =? 0); [discriminate|].
  destruct (_mpscq s) as [|m q] eqn:Hq.
  - intros [= _ <-] [Hc _]. rewrite Hq, Hsh. split; [exact Hc|discriminate].
  - intros [= _ <-] [Hc _]. simpl. rewrite Hsh. split; [|discriminate].
    rewrite Hc. cbn [length].
    replace (u32 (Z.of_nat (S (length q))) - 1)
      with (u32 (Z.of_nat (S (length q))) + -1) by lia.
    rewrite u32_add_l. f_equal. lia.
Qed.

Lemma evolves_queue_step (s s' : TcpServer) : evolves s s' -> queue_step s s'.
Proof.
  intros (U & _). unfold untouched in U. left.
  repeat split; congruence.
Qed.

Section QueueOfTheCalls.
Variable InvalidConnectionId : ConnectionId.

Lemma linux_step_queue (s s' : TcpServer) :
  linux_step InvalidConnectionId s s' -> queue_step s s'.
Proof.
  intros H. apply linux_step_cases in H
    as [(le & re & se & now & o & ->)|[(lo & ro & so & e & H)|[H|[[m ->]|H]]]].
  - destruct (linux_Init_cases le re se now o s)
      as [(E1 & _ & _ & _ & E2 & E3 & _)|(E1 & E2 & _ & _ & _ & E3 & E4 & _)].
    + left. auto.
    + right. left. auto.
  - apply linux_Start_members in H as (E1 & _ & _ & _ & E2 & E3). left. auto.
  - apply linux_Shutdown_cases in H
      as [[_ ->]|[Hs (E1 & _ & _ & _ & _ & _ & _ & E2 & E3 & _)]].
    + left. auto.
    + right. right. left. auto.
  - do 3 right. eauto.
  - apply evolves_queue_step, H.
Qed.

Lemma windows_step_queue (s s' : TcpServer) :
  windows_step InvalidConnectionId s s' -> queue_step s s'.
Proof.
  intros H. apply windows_step_cases in H
    as [(le & re & now & o & ->)|[(lo & ro & e & H)|[H|[[m ->]|H]]]].
  - destruct (windows_Init_cases le re now o s)
      as [(E1 & _ & _ & _ & E2 & E3 & _)|(E1 & E2 & _ & _ & _ & E3 & E4 & _)].
    + left. auto.
    + right. left. auto.
  - apply windows_Start_members in H as (E1 & _ & _ & _ & E2 & E3). left. auto.
  - apply windows_Shutdown_cases in H
      as [[_ ->]|[Hs (E1 & _ & _ & _ & _ & _ & _ & E2 & E3 & _)]].
    + left. auto.
    + right. right. left. auto.
  - do 3 right. eauto.
  - apply evolves_queue_step, H.
Qed.

(** X9.  The counter of the handoff queue.  In every state of a server at
    work (either build; the calls interleaved with the turns of the
    dispatcher thread), [_count] is the number of queued messages, as a
    [uint32_t]; and while the server is shut down the queue is empty and
    the counter is zero: [Shutdown] drains what the dispatcher left. *)
Theorem queue_counter_matches_the_queue (s : TcpServer) :
  serving (linux_step InvalidConnectionId) s \/
  serving (windows_step InvalidConnectionId) s ->
  _count s = u32 (Z.of_nat (length (_mpscq s))) /\
  (_shutdown s = true -> _mpscq s = [] /\ _count s = 0).
Proof.
  intros H.
  assert (Hinv : _count s = u32 (Z.of_nat (length (_mpscq s))) /\
                 (_shutdown s = true -> _mpscq s = [])).
  { destruct H as [H|H]; induction H as [|s s' _ IH Hstep Hquiet|s cb s' _ IH Hturn].
    - split; reflexivity.
    - apply (queue_step_counted s s'); [apply linux_step_queue, Hstep|assumption..].
    - apply (turn_counted s s' cb); assumption.
    - split; reflexivity.
    - apply (queue_step_counted s s'); [apply windows_step_queue, Hstep|assumption..].
    - apply (turn_counted s s' cb); assumption. }
  destruct Hinv as [Hc Hq]. split; [exact Hc|].
  intros Hsh. split; [apply Hq, Hsh|]. rewrite Hc, (Hq Hsh). reflexivity.
Qed.
End QueueOfTheCalls.

Lemma notify_push (s : TcpServer) (n : notification) :
  notify s n = push_message (message_of n) s.
Proof. destruct n; reflexivity. Qed.

Lemma Dispatch_message_of (n : notification) : Dispatch (message_of n) = callback_of n.
Proof. destruct n; reflexivity. Qed.

Lemma notify_all_queue (ns : list notification) :
  forall s : TcpServer,
    0 <= _count s < 2 ^ 32 ->
    _mpscq (foldl notify s ns) = _mpscq s ++ map message_of ns /\
    _shutdown (foldl notify s ns) = _shutdown s /\
    _count (foldl notify s ns) = u32 (_count s + Z.of_nat (length ns)).
Proof.
  induction ns as [|n ns IH]; intros s Hc; cbn [foldl map length].
  - rewrite app_nil_r, Z.add_0_r, u32_small by exact Hc. auto.
  - destruct (IH (notify s n)) as (E1 & E2 & E3).
    { rewrite notify_push. simpl. apply u32_range. }
    rewrite E1, E2, E3, notify_push. simpl. rewrite <- app_assoc.
    split; [reflexivity|]. split; [reflexivity|].
    rewrite u32_add_l. f_equal. lia.
Qed.

Lemma thread_drains (q : list TcpMessageNode) :
  forall (s : TcpServer) (fuel : nat),
    _shutdown s = false -> _mpscq s = q ->
    _count s = Z.of_nat (length q) -> Z.of_nat (length q) < 2 ^ 32 ->
    (length q <= fuel)%nat ->
    MessageQueueThread fuel s = (map Dispatch q, set_count 0 (set_mpscq [] s)).
Proof.
  induction q as [|m q IH]; intros s fuel Hsh Hq Hc Hlt Hfuel.
  - assert (Es : set_count 0 (set_mpscq [] s) = s).
    { destruct s. simpl in *. subst. reflexivity. }
    rewrite Es. destruct fuel as [|fuel]; [reflexivity|].
    simpl. unfold MessageQueueThread_turn. rewrite Hsh, Hc. reflexivity.
  - destruct fuel as [|fuel]; [simpl in Hfuel; lia|].
    cbn [MessageQueueThread]. unfold MessageQueueThread_turn.
    rewrite Hsh, Hq.
    destruct (Z.eqb_spec (_count s) 0) as [H0|_];
      [rewrite Hc in H0; simpl in H0; lia|].
    rewrite (IH (set_count (u32 (_count s - 1)) (set_mpscq q s)) fuel).
    + reflexivity.
    + exact Hsh.
    + reflexivity.
    + simpl. rewrite Hc. cbn [length]. rewrite u32_small; cbn [length] in Hlt; lia.
    + cbn [length] in Hlt. lia.
    + simpl in Hfuel. lia.
Qed.

(** X10.  The dispatcher delivers in order, once each.  On a server that
    is not shut down and whose counter is the number of queued messages,
    after any sequence of egress notifications (fewer than [2^32] messages
    in all) a run of [MessageQueueThread] with a turn for each message
    makes one callback per message, in queue order: first those for the
    messages that were queued, then [OnConnected], [OnMessageReceived]
    (with the slice and its size) or [OnClosed] for each notification, in
    the order of the notifications.  It leaves the queue empty and the
    counter at zero, and then waits.  Once [_shutdown] is set the thread
    makes no callback, whatever is queued. *)
Theorem dispatcher_delivers_in_order (s : TcpServer) (ns : list notification)
        (fuel : nat) :
  _shutdown s = false ->
  _count s = Z.of_nat (length (_mpscq s)) ->
  Z.of_nat (length (_mpscq s) + length ns) < 2 ^ 32 ->
  (length (_mpscq s) + length ns <= fuel)%nat ->
  let s1 := foldl notify s ns in
  let s2 := set_count 0 (set_mpscq [] s1) in
  MessageQueueThread fuel s1
  = (map Dispatch (_mpscq s) ++ map callback_of ns, s2) /\
  MessageQueueThread_turn s2 = Waiting /\
  (forall (t : TcpServer) (n : nat),
      _shutdown t = true -> MessageQueueThread n t = ([], t)).
Proof.
  intros Hsh Hc Hlt Hfuel s1 s2.
  destruct (notify_all_queue ns s) as (E1 & E2 & E3); [rewrite Hc; lia|].
  fold s1 in E1, E2, E3.
  split; [|split].
  - rewrite (thread_drains (_mpscq s1) s1 fuel).
    + fold s2. rewrite E1, map_app, map_map.
      f_equal. f_equal. apply map_ext. intros n. apply Dispatch_message_of.
    + rewrite E2. exact Hsh.
    + reflexivity.
    + rewrite E3, Hc, E1, length_app, length_map, Nat2Z.inj_add.
      apply u32_small. lia.
    + rewrite E1, length_app, length_map. lia.
    + rewrite E1, length_app, length_map. lia.
  - unfold MessageQueueThread_turn, s2. simpl. rewrite E2, Hsh. reflexivity.
  - intros t n Ht. destruct n as [|n]; [reflexivity|].
    simpl. unfold MessageQueueThread_turn. rewrite Ht. reflexivity.
Qed.

(** ** [Shutdown] and [Init] on the reachable states *)




(** X12.  A handle outlives [Shutdown].  In a reachable state, let a
    connection sit in slot [i], with [i] below [max_connections] (a
    [uint32_t]) and a handle that is not the invalid sentinel.  After
    [Shutdown] (either build) the validator still maps that handle to [i],
    because the magic number and the options are not reset, while the
    table is empty: [Send] and [CloseConnection] with the handle subscript
    the table outside its bounds. *)
Theorem handle_outlives_Shutdown (InvalidConnectionId : ConnectionId)
        (s s1 : TcpServer) (i : nat) (c : Connection) (it : iterator)
        (conn_send : bool) (len : Z) :
  linux_reachable InvalidConnectionId s \/
  windows_reachable InvalidConnectionId s ->
  _mgr s !! i = Some (Some c, it) ->
  0 <= max_connections (_options s) < 2 ^ 32 ->
  Z.of_nat i < max_connections (_options s) ->
  conn_cid c <> InvalidConnectionId ->
  Linux.Shutdown s = Ok s1 \/ Windows.Shutdown s = Ok s1 ->
  CheckConnectionId InvalidConnectionId s1 (conn_cid c) = Z.of_nat i /\
  _mgr s1 = [] /\
  Linux.Send InvalidConnectionId conn_send (conn_cid c) len s1 = Fault OutOfRange /\
  Windows.Send InvalidConnectionId conn_send (conn_cid c) len s1 = Fault OutOfRange /\
  Linux.CloseConnection InvalidConnectionId (conn_cid c) s1 = Fault OutOfRange /\
  Windows.CloseConnection InvalidConnectionId (conn_cid c) s1 = Fault OutOfRange.
Proof.
  intros Hr Hslot Hmax Hi Hne Hs.
  pose proof (reachable_server_inv InvalidConnectionId s Hr) as [_ Hempty].
  pose proof (reachable_slots InvalidConnectionId s Hr) as (Hh & _ & Hmagic).
  assert (Hsh : _shutdown s = false).
  { destruct (_shutdown s); [|reflexivity].
    destruct (Hempty eq_refl) as (Hm & _). rewrite Hm, lookup_nil in Hslot.
    discriminate. }
  assert (Hafter : after_Shutdown s s1).
  { destruct Hs as [H|H];
      [apply linux_Shutdown_cases in H|apply windows_Shutdown_cases in H];
      destruct H as [[H _]|[_ H]]; first [congruence|exact H]. }
  destruct Hafter as (_ & Eo & Eg & _ & Em & _).
  destruct (Hh i c it Hslot) as [port Hcid].
  assert (Hv : CheckConnectionId InvalidConnectionId s1 (conn_cid c) = Z.of_nat i).
  { destruct (Check_cases InvalidConnectionId s1 (conn_cid c))
      as [[_ [H|[H|H]]]|[E _]].
    - contradiction.
    - exfalso. apply H. rewrite Eg, Hcid, GetMagicNumber_Build.
      apply u16_small, Hmagic.
    - exfalso. rewrite Eo, Hcid, GetUserId_Build, u32_small in H; lia.
    - rewrite E, Hcid, GetUserId_Build. apply u32_small. lia. }
  split; [exact Hv|]. split; [exact Em|].
  assert (Hni : (Z.of_nat i =? InvalidIndex) = false).
  { apply Z.eqb_neq. rewrite InvalidIndex_value. lia. }
  unfold Windows.Send, Windows.SendWithHeader, Linux.Send,
    Linux.CloseConnection, Windows.CloseConnection, Windows.GetConnection.
  rewrite Hv, Hni, Nat2Z.id. unfold slot_at. rewrite Em, lookup_nil. simpl.
  repeat split; reflexivity.
Qed.

(** X13.  [Init] on a reachable state in which the server is shut down
    (either build).  It returns no error exactly when no collaborator
    failed to initialise.  In that case it leaves a table of
    [RESERVED_CONNECTION_COUNT] empty slots, all of them in the free list
    in ascending order, an empty timeout index, the given options, a zero
    counter, the magic number of the clock and the clock as the time of the
    last sweep.  Otherwise the server is still shut down and its table still
    empty.  In every case the handoff queue is the one [Init] found: [Init]
    stores zero in [_count] and never touches [_mpscq], so a message that was
    queued while the server was shut down is still queued, and no longer
    counted. *)
Theorem Init_after_Shutdown_resets_all_but_the_queue
        (InvalidConnectionId : ConnectionId)
        (le re se : raptor_error) (now : Z) (o : RaptorOptions) (s : TcpServer) :
  linux_reachable InvalidConnectionId s \/
  windows_reachable InvalidConnectionId s ->
  _shutdown s = true ->
  let l := Linux.Init le re se now o s in
  let w := Windows.Init le re now o s in
  (l.1 = RAPTOR_ERROR_NONE <->
   is_error le = false /\ is_error re = false /\ is_error se = false) /\
  (w.1 = RAPTOR_ERROR_NONE <-> is_error le = false /\ is_error re = false) /\
  (l.1 = RAPTOR_ERROR_NONE -> initialised now o l.2) /\
  (w.1 = RAPTOR_ERROR_NONE -> initialised now o w.2) /\
  (l.1 <> RAPTOR_ERROR_NONE -> _shutdown l.2 = true /\ table_empty l.2) /\
  (w.1 <> RAPTOR_ERROR_NONE -> _shutdown w.2 = true /\ table_empty w.2) /\
  _mpscq l.2 = _mpscq s /\ _mpscq w.2 = _mpscq s.
Proof.
  intros Hr Hsh.
  pose proof (reachable_server_inv InvalidConnectionId s Hr) as [_ Hempty].
  destruct (Hempty Hsh) as (Hm & Hf & Ht).
  assert (Hnone : forall e, is_error e = false <-> e = RAPTOR_ERROR_NONE).
  { intros [|n]; simpl; split; congruence. }
  assert (Herr : forall e, is_error e = true -> e <> RAPTOR_ERROR_NONE).
  { intros [|n]; simpl; congruence. }
  unfold Linux.Init, Windows.Init, initialised, table_empty.
  generalize RESERVED_CONNECTION_COUNT as n. intros n.
  rewrite Hsh. cbn [negb].
  destruct (is_error le) eqn:El; [|destruct (is_error re) eqn:Er];
    [| |destruct (is_error se) eqn:Es]; cbn zeta; cbn [fst snd];
    rewrite ?foldl_push_free; simpl;
    rewrite ?Hm, ?Hf, ?Ht; unfold resize; rewrite ?take_nil, ?Nat.sub_0_r;
      simpl.
  all: repeat match goal with |- _ /\ _ => split end.
  all: try (intros; exfalso; congruence).
  all: try (intros [? [? ?]]; discriminate).
  all: try (intros [? ?]; discriminate).
  all: try (intros H; exfalso; eapply Herr; [|exact H]; assumption).
  all: try reflexivity.
  all: try (intros; repeat split; reflexivity).
  all: try (intros; repeat split; auto; fail).
  all: split; [intros H; exfalso; eapply Herr; [|exact H]; assumption
              |intuition discriminate].
Qed.

(** ** Listening addresses *)

Lemma add_ports_failures (answers : list raptor_error) :
  forall (first : nat) (appended : list nat),
    add_ports answers (StatusError first appended)
    = StatusError first (appended ++ failures answers).
Proof.
  induction answers as [|[|code] rest IH]; intros first appended; simpl.
  - rewrite app_nil_r. reflexivity.
  - apply IH.
  - rewrite IH, <- app_assoc. reflexivity.
Qed.

Lemma add_ports_none (answers : list raptor_error) :
  add_ports answers StatusNone
  = match failures answers with
    | [] => StatusNone
    | first :: appended => StatusError first appended
    end.
Proof.
  induction answers as [|[|code] rest IH]; simpl; [reflexivity|exact IH|].
  apply add_ports_failures.
Qed.

(** X14.  Adding listening addresses on a server that is not shut down and
    has its listener, the address resolved (and, on the epoll build, not
    null): every resolved address is offered to the listener, whatever the
    earlier ones answered; the call returns no error exactly when none of
    them failed, and otherwise the error of the first address that failed,
    with the errors of the later ones appended to it in order (both
    builds).  On a server that is shut down both builds return the
    "uninitialized" error at once. *)
Theorem AddListeningPort_reports_every_failure (answers : list raptor_error)
        (s : TcpServer) (l : Worker) :
  _shutdown s = false ->
  _listener s = Some l ->
  let reported := match failures answers with
                  | [] => StatusNone
                  | first :: appended => StatusError first appended
                  end in
  AddListeningPort false RAPTOR_ERROR_NONE answers s = Ok reported /\
  AddListening RAPTOR_ERROR_NONE answers s = Ok reported /\
  (reported = StatusNone <-> Forall (fun e => e = RAPTOR_ERROR_NONE) answers) /\
  (forall (t : TcpServer) (null : bool) (e : raptor_error),
      _shutdown t = true ->
      AddListeningPort null e answers t = Ok (StatusError err_uninitialized []) /\
      AddListening e answers t = Ok (StatusError err_uninitialized [])).
Proof.
  intros Hsh Hl reported.
  assert (H : add_resolved RAPTOR_ERROR_NONE answers s = Ok reported).
  { unfold add_resolved. rewrite Hl.
    destruct answers as [|e rest]; [reflexivity|].
    rewrite add_ports_none. reflexivity. }
  unfold AddListeningPort, AddListening. rewrite Hsh. simpl.
  split; [exact H|]. split; [exact H|]. split.
  - unfold reported. clear. induction answers as [|[|code] rest IH]; simpl.
    + split; [constructor|reflexivity].
    + rewrite IH. split; [intros H; constructor; [reflexivity|exact H]|].
      intros H. apply list.Forall_cons in H as [_ H]. exact H.
    + split; [discriminate|]. intros H. apply list.Forall_cons in H as [H _].
      discriminate.
  - intros t null e Ht. rewrite Ht. split; reflexivity.
Qed.

(** ** The client *)

(** X15.  [TcpClient::Shutdown] on a client that is running: the worker
    thread is joined, the socket held in [_fd] is shut down, [_fd] is
    reset and both buffers are cleared.  Afterwards the client is off
    line, [Send] returns [false] and queues nothing, [Connect] is refused,
    a second [Shutdown] changes nothing, and [Init], which was refused
    before, is accepted again. *)
Theorem client_Shutdown_is_final (build_header : Z -> Client.Slice)
        (c : Client.TcpClient) :
  Client._shutdown c = false ->
  let c1 := Client.Shutdown c in
  Client._shutdown c1 = true /\
  Client.IsOnline c1 = false /\
  Client._snd_buffer c1 = [] /\ Client._rcv_buffer c1 = [] /\
  w_stopped (Client._thd c1) = true /\
  Client.effects c1 = Client.effects c ++ [SocketShutdown (Client._fd c)] /\
  Client.Shutdown c1 = c1 /\
  (forall buff, Client.Send build_header buff c1 = (false, c1)) /\
  (forall addr_empty resolve prepare attempts,
      Client.Connect addr_empty resolve prepare attempts c1
      = Some (Client.err_not_initialized, c1)) /\
  Client.Init c = (Client.err_already_running, c) /\
  (Client.Init c1).1 = RAPTOR_ERROR_NONE.
Proof.
  intros Hsh c1. unfold c1, Client.Shutdown, Client.Init, Client.Send,
    Client.Connect, Client.IsOnline.
  rewrite Hsh. simpl. repeat split; reflexivity.
Qed.

Lemma client_send_all_online (build_header : Z -> Client.Slice)
      (buffs : list Client.Slice) :
  forall c : Client.TcpClient,
    Client.IsOnline c = true ->
    let r := Client.send_all build_header buffs c in
    r.1 = replicate (length buffs) true /\
    Client._snd_buffer r.2
    = Client._snd_buffer c ++ flat_map (Client.framed build_header) buffs /\
    Client._fd r.2 = Client._fd c /\
    Client._shutdown r.2 = Client._shutdown c /\
    Client._rcv_buffer r.2 = Client._rcv_buffer c /\
    Client.effects r.2 = Client.effects c.
Proof.
  induction buffs as [|buff buffs IH]; intros c Hon; cbn [Client.send_all].
  - simpl. rewrite app_nil_r. auto 10.
  - unfold Client.Send. rewrite Hon. cbn [negb].
    match goal with |- context [Client.send_all _ buffs ?c'] =>
      specialize (IH c' Hon); destruct (Client.send_all build_header buffs c')
        as [bs c2] end.
    simpl in *. destruct IH as (E1 & E2 & E3 & E4 & E5 & E6).
    rewrite E1, E2, E3, E4, E5, E6, <- !app_assoc. simpl. auto 10.
Qed.

(** X16.  Framing on the way out.  While the client is on line, every
    [Send] returns [true] and appends two slices to the send buffer: the
    header the protocol builds for the length of the payload, then the
    payload.  A sequence of calls leaves the buffer with what it held,
    followed by header and payload of each call in the order of the
    calls; the socket, the receive buffer and the lifecycle flag are not
    touched.  While the client is off line every [Send] returns [false]
    and changes nothing. *)
Theorem client_Send_frames_in_order (build_header : Z -> Client.Slice)
        (buffs : list Client.Slice) (c : Client.TcpClient) :
  Client.IsOnline c = true ->
  let r := Client.send_all build_header buffs c in
  r.1 = replicate (length buffs) true /\
  Client._snd_buffer r.2
  = Client._snd_buffer c ++ flat_map (Client.framed build_header) buffs /\
  Client._fd r.2 = Client._fd c /\
  Client._shutdown r.2 = Client._shutdown c /\
  Client._rcv_buffer r.2 = Client._rcv_buffer c /\
  Client.effects r.2 = Client.effects c /\
  (forall c0 : Client.TcpClient,
      Client.IsOnline c0 = false ->
      Client.send_all build_header buffs c0 = (replicate (length buffs) false, c0)).
Proof.
  intros Hon r.
  destruct (client_send_all_online build_header buffs c Hon)
    as (E1 & E2 & E3 & E4 & E5 & E6).
  repeat (split; [assumption|]).
  intros c0 Hoff. clear - Hoff.
  induction buffs as [|buff buffs IH]; cbn [Client.send_all]; [reflexivity|].
  unfold Client.Send. rewrite Hoff. cbn [negb]. rewrite IH. reflexivity.
Qed.

(** X17.  [Connect] on a client that holds no socket, when it returns and
    the socket that was prepared is a descriptor other than [-1]: the
    client is on line afterwards exactly when [Connect] returned no error,
    and then [_fd] is the prepared socket.  It returns no error exactly
    when the client is initialised, the address is not empty, resolution
    and socket preparation succeeded, and [errno] after the connect loop is
    [EWOULDBLOCK] or [EINPROGRESS]; what [connect] itself returned is not
    looked at, so that a connection established at once is reported as a
    failure unless [errno] holds one of these two values. *)
Theorem client_Connect_online_iff_no_error (addr_empty : bool)
        (resolve : raptor_error * nat) (prepare : raptor_error * Z)
        (attempts : list (Z * Client.errno))
        (c c' : Client.TcpClient) (e : raptor_error) :
  Client.IsOnline c = false ->
  prepare.2 <> -1 ->
  Client.Connect addr_empty resolve prepare attempts c = Some (e, c') ->
  (e = RAPTOR_ERROR_NONE <-> Client.IsOnline c' = true) /\
  (e = RAPTOR_ERROR_NONE -> Client._fd c' = prepare.2) /\
  (e = RAPTOR_ERROR_NONE <->
   Client._shutdown c = false /\ addr_empty = false /\
   is_error resolve.1 = false /\ (0 < resolve.2)%nat /\
   is_error prepare.1 = false /\
   exists (err : Z) (en : Client.errno),
     Client.connect_loop attempts = Some (err, en) /\
     (en = Client.EWOULDBLOCK \/ en = Client.EINPROGRESS)).
Proof.
  intros Hoff Hsock. unfold Client.IsOnline in *.
  apply negb_false_iff, Z.eqb_eq in Hoff.
  assert (Herr : forall x, is_error x = true -> x <> RAPTOR_ERROR_NONE).
  { intros [|n]; simpl; congruence. }
  assert (Hoffline : forall x : Client.TcpClient,
             Client._fd x = -1 -> negb (Client._fd x =? -1) = true -> False).
  { intros x ->. discriminate. }
  unfold Client.Connect, Client.AsyncConnect.
  destruct resolve as [re naddrs], prepare as [pe sock]. simpl in Hsock. simpl.
  destruct (Client._shutdown c) eqn:Hsh.
  { intros [= <- <-]. split; [|split]; [split| |split]; try discriminate.
    - intros H. exfalso. apply (Hoffline c Hoff H).
    - intros (H & _). discriminate. }
  destruct addr_empty.
  { intros [= <- <-]. split; [|split]; [split| |split]; try discriminate.
    - intros H. exfalso. apply (Hoffline c Hoff H).
    - intros (_ & H & _). discriminate. }
  destruct (is_error re) eqn:Hre.
  { intros [= <- <-]. pose proof (Herr _ Hre) as Hne.
    split; [|split]; [split| |split]; try contradiction.
    - intros H. exfalso. apply (Hoffline c Hoff H).
    - intros (_ & _ & H & _). discriminate. }
  destruct (Nat.ltb_spec 0 naddrs) as [Hn|Hn]; [|discriminate].
  destruct (is_error pe) eqn:Hpe.
  { intros [= <- <-]. pose proof (Herr _ Hpe) as Hne.
    split; [|split]; [split| |split]; try contradiction.
    - simpl. discriminate.
    - intros (_ & _ & _ & _ & H & _). discriminate. }
  destruct (Client.connect_loop attempts) as [[err en]|]; [|discriminate].
  destruct en; intros [= <- <-]; simpl.
  all: split; [|split]; [split| |split]; try discriminate; try reflexivity.
  all: try (intros _; apply negb_true_iff, Z.eqb_neq; exact Hsock).
  all: try (intros _; repeat split; try reflexivity; try assumption;
            eexists _, _; split; [reflexivity|auto]).
  all: intros (_ & _ & _ & _ & _ & err' & en' & [= _ <-] & [H|H]); discriminate.
Qed.

(** ** The handle operations on a consistent table *)

Lemma existsb_node (e : TimeoutEntry) (l : list TimeoutEntry) :
  e ∈ l -> existsb (is_node (te_node e)) l = true.
Proof.
  intros He. apply existsb_exists. exists e. split; [apply list_elem_of_In, He|].
  apply is_node_true. reflexivity.
Qed.

Lemma linux_DeleteConnection_live (i n : nat) (o : option Connection)
      (s : TcpServer) :
  _mgr s !! i = Some (o, It n) ->
  existsb (is_node n) (tr_entries (_timeout_record_list s)) = true ->
  Linux.DeleteConnection i s
  = Ok (push_free i
          (set_mgr (<[i := (None, End)]> (_mgr s))
             (set_timeout_record_list
                {| tr_entries := List.filter (fun x => negb (is_node n x))
                                   (tr_entries (_timeout_record_list s));
                   tr_fresh := tr_fresh (_timeout_record_list s) |} s))).
Proof.
  intros Hslot Hex. pose proof (lookup_lt_Some _ _ _ Hslot) as Hlt.
  unfold Linux.DeleteConnection, set_first, slot_at. rewrite Hslot. simpl.
  rewrite list_lookup_insert_eq by exact Hlt. simpl.
  unfold erase_timeout, tr_erase. simpl. rewrite Hex. simpl.
  unfold set_second, slot_at. simpl.
  rewrite list_lookup_insert_eq by exact Hlt. simpl.
  rewrite list_insert_insert_eq. reflexivity.
Qed.

(** On a consistent table the iterator of a live slot can be erased. *)
Lemma live_slot_iterator (s : TcpServer) (i : nat) (c : Connection) (it : iterator) :
  table_wf s -> _mgr s !! i = Some (Some c, it) ->
  exists n, it = It n /\
            existsb (is_node n) (tr_entries (_timeout_record_list s)) = true.
Proof.
  intros Hwf Hslot. destruct (twf_slots s Hwf i c it Hslot) as (e & He & -> & _).
  exists (te_node e). split; [reflexivity|apply existsb_node, He].
Qed.

Lemma refresh_returns (deadline : Z) (i : nat) (c : Connection) (it : iterator)
      (s : TcpServer) :
  table_wf s -> _mgr s !! i = Some (Some c, it) ->
  returns (s1 ← erase_timeout it s; insert_timeout deadline i s1).
Proof.
  intros Hwf Hslot. destruct (live_slot_iterator s i c it Hwf Hslot) as (n & -> & Hex).
  unfold erase_timeout, tr_erase. rewrite Hex. simpl.
  unfold insert_timeout, tr_insert, set_second, slot_at. simpl.
  rewrite Hslot. simpl. eexists. reflexivity.
Qed.

Section NoFault.
Variable InvalidConnectionId : ConnectionId.
Local Abbreviation validate := (CheckConnectionId InvalidConnectionId).

(** X18.  On a consistent table, the operations that take a handle run
    into no undefined behaviour as long as the validated index is within
    the table: [Send], [CloseConnection] and [OnErrorEvent] of both builds
    and the receive and send events of the IOCP build return for every
    handle, whatever the slot holds and whatever the connection answers;
    the receive and send events of the epoll build return when the slot
    holds a connection. *)
Theorem handle_operations_return (cid : ConnectionId) (s : TcpServer)
        (ok : bool) (now len hdr_len : Z) :
  table_wf s ->
  validate s cid = InvalidIndex \/
  (Z.to_nat (validate s cid) < length (_mgr s))%nat ->
  returns (Linux.Send InvalidConnectionId ok cid len s) /\
  returns (Linux.CloseConnection InvalidConnectionId cid s) /\
  returns (Linux.OnErrorEvent InvalidConnectionId cid s) /\
  returns (Windows.SendWithHeader InvalidConnectionId ok cid hdr_len len s) /\
  returns (Windows.CloseConnection InvalidConnectionId cid s) /\
  returns (Windows.OnErrorEvent InvalidConnectionId cid s) /\
  returns (Windows.OnRecvEvent InvalidConnectionId ok now cid s) /\
  returns (Windows.OnSendEvent InvalidConnectionId ok now cid s) /\
  ((validate s cid = InvalidIndex \/
    exists c it, _mgr s !! Z.to_nat (validate s cid) = Some (Some c, it)) ->
   returns (Linux.OnRecvEvent InvalidConnectionId ok now cid s) /\
   returns (Linux.OnSendEvent InvalidConnectionId ok now cid s)).
Proof.
  intros Hwf Hin.
  unfold Linux.Send, Linux.CloseConnection, Linux.OnErrorEvent,
    Windows.SendWithHeader, Windows.CloseConnection, Windows.OnErrorEvent,
    Windows.OnRecvEvent, Windows.OnSendEvent, Linux.OnRecvEvent, Linux.OnSendEvent,
    Windows.RefreshTime, Windows.GetConnection.
  destruct (Z.eqb_spec (validate s cid) InvalidIndex) as [Hv|Hv].
  { repeat match goal with |- _ /\ _ => split end;
      try (intros _; split); eexists; reflexivity. }
  destruct Hin as [?|Hlt]; [contradiction|].
  set (i := Z.to_nat (validate s cid)) in *.
  destruct (lookup_lt_is_Some_2 _ _ Hlt) as [[[c|] it] Hslot];
    unfold slot_at; simpl; rewrite Hslot; simpl.
  2: { repeat match goal with |- _ /\ _ => split end;
         try (eexists; reflexivity).
       intros [?|(c & it' & [=])]. contradiction. }
  destruct (live_slot_iterator s i c it Hwf Hslot) as (n & -> & Hex).
  assert (Hdel : forall t, _mgr t = _mgr s ->
                           _timeout_record_list t = _timeout_record_list s ->
                           returns (Linux.DeleteConnection i t)).
  { intros t Em Et. eexists. apply (linux_DeleteConnection_live i n (Some c)).
    - rewrite Em. exact Hslot.
    - rewrite Et. exact Hex. }
  assert (Hwdel : forall t, _mgr t = _mgr s ->
                            _timeout_record_list t = _timeout_record_list s ->
                            returns (Windows.DeleteConnection i t)).
  { intros t Em Et.
    rewrite (windows_DeleteConnection_live i t c (It n)) by (rewrite Em; exact Hslot).
    apply Hdel; assumption. }
  assert (Href : forall t, _mgr t = _mgr s ->
                           _timeout_record_list t = _timeout_record_list s ->
                           returns (x ← erase_timeout (It n) t;
                                    insert_timeout
                                      (now + connection_timeout (_options s)) i x)).
  { intros t Em Et. unfold erase_timeout, tr_erase. rewrite Et, Hex. simpl.
    unfold insert_timeout, tr_insert, set_second, slot_at. simpl.
    rewrite Em, Hslot. simpl. eexists. reflexivity. }
  assert (Hbind : forall (m : outcome TcpServer) (k : TcpServer -> bool * TcpServer),
             returns m -> returns (x ← m; Ok (k x))).
  { intros m k [a ->]. eexists. reflexivity. }
  assert (Hbind' : forall (m : outcome TcpServer) (k : TcpServer -> TcpServer),
             returns m -> returns (x ← m; Ok (k x))).
  { intros m k [a ->]. eexists. reflexivity. }
  unfold shutdown_conn, slot_at. simpl. rewrite Hslot. simpl.
  repeat match goal with |- _ /\ _ => split end.
  - eexists. reflexivity.
  - apply (Hbind _ (fun x => (true, x))). apply Hdel; reflexivity.
  - apply Hdel; reflexivity.
  - eexists. reflexivity.
  - apply (Hbind _ (fun x => (true, x))). apply Hwdel; reflexivity.
  - apply Hwdel; reflexivity.
  - destruct ok; [apply Href; reflexivity|].
    apply (Hbind' _ (fun x => emit LogPostRecvFailed x)). apply Hwdel; reflexivity.
  - destruct ok; [apply Href; reflexivity|].
    apply (Hbind' _ (fun x => emit LogPostSendFailed x)). apply Hwdel; reflexivity.
  - intros _. split; destruct ok; simpl;
      first [apply Href; reflexivity|apply Hdel; reflexivity].
Qed.
End NoFault.

(** ** When an accept is refused *)

Lemma length_resize (n : nat) (l : list ConnectionData) : length (resize n l) = n.
Proof.
  unfold resize. rewrite length_app, length_take, length_replicate. lia.
Qed.

Section ReservedSlots.
Variable InvalidConnectionId : ConnectionId.

(** A server that is not shut down has its reserved slots. *)
Lemma linux_reachable_reserved (s : TcpServer) :
  linux_reachable InvalidConnectionId s -> _shutdown s = false ->
  (RESERVED_CONNECTION_COUNT <= length (_mgr s))%nat.
Proof.
  induction 1 as [|s s' Hr IH Hstep]; [discriminate|].
  apply linux_step_cases in Hstep
    as [(le & re & se & now & o & ->)|[(lo & ro & so & e & H)|[H|[[m ->]|H]]]].
  - destruct (linux_Init_cases le re se now o s)
      as [(E1 & E2 & _)|(_ & _ & E2 & _)]; rewrite E2.
    + rewrite E1. exact IH.
    + intros _. rewrite length_resize. lia.
  - apply linux_Start_members in H as (E1 & E2 & _). rewrite E1, E2. exact IH.
  - apply linux_Shutdown_cases in H as [[_ ->]|[_ (E1 & _)]]; [exact IH|congruence].
  - exact IH.
  - destruct H as (U & L & _). unfold untouched in U.
    replace (_shutdown s') with (_shutdown s) by congruence.
    intros Hs. specialize (IH Hs). lia.
Qed.

Lemma windows_reachable_reserved (s : TcpServer) :
  windows_reachable InvalidConnectionId s -> _shutdown s = false ->
  (RESERVED_CONNECTION_COUNT <= length (_mgr s))%nat.
Proof.
  induction 1 as [|s s' Hr IH Hstep]; [discriminate|].
  apply windows_step_cases in Hstep
    as [(le & re & now & o & ->)|[(lo & ro & e & H)|[H|[[m ->]|H]]]].
  - destruct (windows_Init_cases le re now o s)
      as [(E1 & E2 & _)|(_ & _ & E2 & _)]; rewrite E2.
    + rewrite E1. exact IH.
    + intros _. rewrite length_resize. lia.
  - apply windows_Start_members in H as (E1 & E2 & _). rewrite E1, E2. exact IH.
  - apply windows_Shutdown_cases in H as [[_ ->]|[_ (E1 & _)]]; [exact IH|congruence].
  - exact IH.
  - destruct H as (U & L & _). unfold untouched in U.
    replace (_shutdown s') with (_shutdown s) by congruence.
    intros Hs. specialize (IH Hs). lia.
Qed.
End ReservedSlots.

(** The growth step returns when there is room, and adds a slot when the
    table is not empty. *)
Lemma grow_returns (s : TcpServer) :
  (0 < length (_mgr s))%nat ->
  Z.of_nat (length (_mgr s)) < max_connections (_options s) ->
  exists (s1 : TcpServer) (k : nat),
    grow s = Ok s1 /\ untouched s1 = untouched s /\
    _timeout_record_list s1 = _timeout_record_list s /\
    _mgr s1 = _mgr s ++ replicate (S k) (None, End) /\
    _free_index_list s1 = _free_index_list s ++ seq (length (_mgr s)) (S k).
Proof.
  intros Hpos Hroom.
  assert (Hg : exists s1 k, grow s = Ok s1 /\
                 _mgr s1 = _mgr s ++ replicate (S k) (None, End) /\
                 _free_index_list s1
                 = _free_index_list s ++ seq (length (_mgr s)) (S k) /\
                 _timeout_record_list s1 = _timeout_record_list s).
  { unfold grow.
    set (count := length (_mgr s)) in *.
    set (expand := if Z.of_nat count * 2 <? max_connections (_options s)
                   then (count * 2)%nat
                   else Z.to_nat (max_connections (_options s))).
    assert (Hlt : (count < expand)%nat).
    { unfold expand. destruct (Z.ltb_spec (Z.of_nat count * 2)
                                           (max_connections (_options s))); lia. }
    destruct (seed_slots_spec (expand - count)
                (set_mgr (resize expand (_mgr s)) s) (_mgr s))
      as (s' & H1 & H2 & H3 & H4 & _).
    { simpl. unfold resize. rewrite take_ge by (fold count; lia). reflexivity. }
    fold count in H1, H3. exists s', (expand - count - 1)%nat.
    replace (S (expand - count - 1)) with (expand - count)%nat by lia.
    auto. }
  destruct Hg as (s1 & k & Hg & Em & Ef & Et).
  exists s1, k. split; [exact Hg|]. split; [|auto].
  apply (grow_evolves s s1 Hroom Hg).
Qed.

Lemma all_live (s : TcpServer) :
  table_wf s -> _free_index_list s = [] -> live_count s = length (_mgr s).
Proof.
  intros Hwf Hf. unfold live_count. rewrite filter_all; [reflexivity|].
  apply list.Forall_forall. intros [[c|] it] Hd; [reflexivity|].
  apply list_elem_of_lookup in Hd as [i Hi].
  destruct (twf_empty s Hwf i it Hi) as [_ Hin].
  rewrite Hf in Hin. apply elem_of_nil in Hin. destruct Hin.
Qed.

Lemma live_count_grown (s s1 : TcpServer) (k : nat) (it : iterator) :
  _mgr s1 = _mgr s ++ replicate k (None, it) -> live_count s1 = live_count s.
Proof.
  intros Em. unfold live_count.
  rewrite Em, List.filter_app, filter_live_replicate, app_nil_r. reflexivity.
Qed.

(** The accept when a free index is at hand. *)
Lemma accept_returns (now sock listen_port : Z) (s : TcpServer)
      (m : outcome TcpServer) :
  table_wf s -> _free_index_list s <> [] ->
  m = Linux.OnNewConnection now sock listen_port s \/
  (m = Windows.OnNewConnection false now sock listen_port s /\
   is_Some (_rs_thread s)) ->
  exists s', m = Ok s' /\ live_count s' = S (live_count s).
Proof.
  intros Hwf Hne H.
  destruct (_free_index_list s) as [|index rest] eqn:Hf; [contradiction|].
  assert (Hin : index ∈ _free_index_list s) by (rewrite Hf; apply list_elem_of_here).
  destruct (proj1 (list.Forall_forall _ _) (twf_free s Hwf) index Hin) as [it Hit].
  pose proof (lookup_lt_Some _ _ _ Hit) as Hlt.
  destruct H as [->|[-> [w Hw]]].
  - destruct (linux_OnNewConnection_installs now sock listen_port s index rest
                Hf Hlt) as (s' & H1 & H2 & _).
    exists s'. split; [exact H1|]. unfold live_count. rewrite H2.
    apply (filter_live_insert _ _ _ it), Hit.
  - destruct (windows_OnNewConnection_branches false now sock listen_port s
                index rest w Hf Hlt Hw) as (s' & H1 & H2 & _).
    exists s'. split; [exact H1|]. unfold live_count. rewrite H2.
    apply (filter_live_insert _ _ _ it), Hit.
Qed.

(** The growth step returns when there is room: the table then has twice
    its slots, or [max_connections] slots if that is less, and the added
    slots are in the free list. *)
Lemma grow_doubles (s : TcpServer) :
  Z.of_nat (length (_mgr s)) < max_connections (_options s) ->
  exists s1 : TcpServer,
    grow s = Ok s1 /\
    Z.of_nat (length (_mgr s1))
    = Z.min (2 * Z.of_nat (length (_mgr s))) (max_connections (_options s)) /\
    _free_index_list s1
    = _free_index_list s
        ++ seq (length (_mgr s)) (length (_mgr s1) - length (_mgr s)) /\
    untouched s1 = untouched s /\
    (table_wf s -> table_wf s1).
Proof.
  intros Hroom.
  assert (Hg : exists s1, grow s = Ok s1 /\
                 Z.of_nat (length (_mgr s1))
                 = Z.min (2 * Z.of_nat (length (_mgr s)))
                         (max_connections (_options s)) /\
                 _free_index_list s1
                 = _free_index_list s
                     ++ seq (length (_mgr s)) (length (_mgr s1) - length (_mgr s))).
  { unfold grow.
    set (count := length (_mgr s)) in *.
    set (expand := if Z.of_nat count * 2 <? max_connections (_options s)
                   then (count * 2)%nat
                   else Z.to_nat (max_connections (_options s))).
    assert (Hle : (count <= expand)%nat /\
                  Z.of_nat expand
                  = Z.min (2 * Z.of_nat count) (max_connections (_options s))).
    { unfold expand. destruct (Z.ltb_spec (Z.of_nat count * 2)
                                           (max_connections (_options s))); lia. }
    destruct Hle as [Hle Hexp].
    destruct (seed_slots_spec (expand - count)
                (set_mgr (resize expand (_mgr s)) s) (_mgr s))
      as (s' & H1 & H2 & H3 & _).
    { simpl. unfold resize. rewrite take_ge by (fold count; lia). reflexivity. }
    fold count in H1, H3. exists s'. split; [exact H1|].
    assert (Hlen : length (_mgr s') = expand).
    { rewrite H2, length_app, length_replicate. fold count. lia. }
    rewrite Hlen. split; [exact Hexp|exact H3]. }
  destruct Hg as (s1 & Hg & Hlen & Ef).
  exists s1. split; [exact Hg|]. split; [exact Hlen|]. split; [exact Ef|]. split.
  - apply (grow_evolves s s1 Hroom Hg).
  - apply (grow_keeps s s1 Hroom Hg).
Qed.

(** With a free index at hand an accept returns and leaves the table at
    its size (both builds, both branches of the IOCP build). *)
Lemma accept_keeps_length (async_recv : bool) (now sock listen_port : Z)
      (s : TcpServer) (m : outcome TcpServer) :
  table_wf s -> _free_index_list s <> [] ->
  m = Linux.OnNewConnection now sock listen_port s \/
  (m = Windows.OnNewConnection async_recv now sock listen_port s /\
   is_Some (_rs_thread s)) ->
  exists s', m = Ok s' /\ length (_mgr s') = length (_mgr s).
Proof.
  intros Hwf Hne H.
  destruct (_free_index_list s) as [|index rest] eqn:Hf; [contradiction|].
  assert (Hin : index ∈ _free_index_list s) by (rewrite Hf; apply list_elem_of_here).
  destruct (proj1 (list.Forall_forall _ _) (twf_free s Hwf) index Hin) as [it Hit].
  pose proof (lookup_lt_Some _ _ _ Hit) as Hlt.
  destruct H as [->|[-> [w Hw]]].
  - destruct (linux_OnNewConnection_installs now sock listen_port s index rest
                Hf Hlt) as (s' & H1 & H2 & _).
    exists s'. split; [exact H1|]. rewrite H2. apply length_insert.
  - destruct (windows_OnNewConnection_branches async_recv now sock listen_port s
                index rest w Hf Hlt Hw) as (s' & H1 & H2).
    exists s'. split; [exact H1|].
    destruct async_recv; destruct H2 as (H2 & _); rewrite H2;
      [reflexivity|apply length_insert].
Qed.

(** An accept on an empty free list, with room: it is the accept on the
    grown table. *)
Lemma accept_after_grow (async_recv : bool) (now sock listen_port : Z)
      (s s1 : TcpServer) :
  _free_index_list s = [] ->
  Z.of_nat (length (_mgr s)) < max_connections (_options s) ->
  grow s = Ok s1 -> _free_index_list s1 <> [] ->
  Linux.OnNewConnection now sock listen_port s
  = Linux.OnNewConnection now sock listen_port s1 /\
  Windows.OnNewConnection async_recv now sock listen_port s
  = Windows.OnNewConnection async_recv now sock listen_port s1.
Proof.
  intros Hf Hroom Hg Hne.
  unfold Linux.OnNewConnection, Windows.OnNewConnection.
  rewrite (bool_decide_eq_true_2 _ Hf), (bool_decide_eq_false_2 _ Hne).
  destruct (Z.geb_spec (Z.of_nat (length (_mgr s)))
                       (max_connections (_options s))); [lia|].
  simpl. rewrite Hg. split; reflexivity.
Qed.

(** X2.  The size of the slot table.  In every state that either build
    reaches from the constructor the table has at most
    [max(RESERVED_CONNECTION_COUNT, max_connections)] slots, and so at most
    that many connections.  While the server is not shut down it has at
    least the [RESERVED_CONNECTION_COUNT] slots of [Init], and an accept
    returns (epoll build; IOCP build on either branch after
    [Connection::AsyncRecv]) with a table whose size follows the growth
    step: if the free list was empty and the table had fewer than
    [max_connections] slots, it now has twice as many slots, or
    [max_connections] slots if that is less; in every other case it has the
    slots it had. *)
Theorem table_capacity_and_growth (InvalidConnectionId : ConnectionId)
        (async_recv : bool) (now sock listen_port : Z) (s : TcpServer)
        (m : outcome TcpServer) :
  (linux_reachable InvalidConnectionId s /\
   m = Linux.OnNewConnection now sock listen_port s) \/
  (windows_reachable InvalidConnectionId s /\
   m = Windows.OnNewConnection async_recv now sock listen_port s) ->
  Z.of_nat (live_count s) <= Z.of_nat (length (_mgr s)) /\
  Z.of_nat (length (_mgr s))
  <= Z.max (Z.of_nat RESERVED_CONNECTION_COUNT) (max_connections (_options s)) /\
  (_shutdown s = false ->
   (RESERVED_CONNECTION_COUNT <= length (_mgr s))%nat /\
   exists s',
     m = Ok s' /\
     Z.of_nat (length (_mgr s'))
     = if bool_decide (_free_index_list s = [])
          && (Z.of_nat (length (_mgr s)) <? max_connections (_options s))
       then Z.min (2 * Z.of_nat (length (_mgr s))) (max_connections (_options s))
       else Z.of_nat (length (_mgr s))).
Proof.
  intros H.
  assert (Hr : linux_reachable InvalidConnectionId s \/
               windows_reachable InvalidConnectionId s)
    by (destruct H as [[Hr _]|[Hr _]]; auto).
  pose proof (reachable_slots InvalidConnectionId s Hr) as (_ & Hc & _).
  split; [pose proof (live_count_le s); lia|]. split; [exact Hc|].
  intros Hsh.
  assert (Hfacts : table_wf s /\
                   (RESERVED_CONNECTION_COUNT <= length (_mgr s))%nat /\
                   (m = Linux.OnNewConnection now sock listen_port s \/
                    (m = Windows.OnNewConnection async_recv now sock listen_port s /\
                     is_Some (_rs_thread s)))).
  { destruct H as [[Hl ->]|[Hw ->]].
    - split; [apply (linux_reachable_server_inv InvalidConnectionId s Hl)|].
      split; [apply (linux_reachable_reserved InvalidConnectionId s Hl Hsh)|].
      left. reflexivity.
    - split; [apply (windows_reachable_server_inv InvalidConnectionId s Hw)|].
      split; [apply (windows_reachable_reserved InvalidConnectionId s Hw Hsh)|].
      right. split; [reflexivity|].
      apply (windows_reachable_workers InvalidConnectionId s Hw Hsh). }
  clear H. destruct Hfacts as (Hwf & Hres & Hm). split; [exact Hres|].
  destruct (decide (_free_index_list s = [])) as [Hf|Hf].
  2: { rewrite (bool_decide_eq_false_2 _ Hf). cbn [andb].
       destruct (accept_keeps_length async_recv now sock listen_port s m
                   Hwf Hf Hm) as (s' & H1 & H2).
       exists s'. split; [exact H1|]. rewrite H2. reflexivity. }
  rewrite (bool_decide_eq_true_2 _ Hf). cbn [andb].
  destruct (Z.ltb_spec (Z.of_nat (length (_mgr s)))
                       (max_connections (_options s))) as [Hroom|Hfull].
  - destruct (grow_doubles s Hroom) as (s1 & Hg & Hlen & Efree & U & Hk).
    assert (Hne : _free_index_list s1 <> []).
    { rewrite Efree, Hf.
      destruct (length (_mgr s1) - length (_mgr s))%nat eqn:Hk0;
        [unfold RESERVED_CONNECTION_COUNT in Hres; lia|discriminate]. }
    destruct (accept_after_grow async_recv now sock listen_port s s1
                Hf Hroom Hg Hne) as [El Ew].
    assert (Hm1 : m = Linux.OnNewConnection now sock listen_port s1 \/
                  (m = Windows.OnNewConnection async_recv now sock listen_port s1 /\
                   is_Some (_rs_thread s1))).
    { destruct Hm as [->|[-> Hw]]; [left; exact El|right; split; [exact Ew|]].
      unfold untouched in U.
      replace (_rs_thread s1) with (_rs_thread s) by congruence. exact Hw. }
    destruct (accept_keeps_length async_recv now sock listen_port s1 m
                (Hk Hwf) Hne Hm1) as (s' & H1 & H2).
    exists s'. split; [exact H1|]. rewrite H2. exact Hlen.
  - destruct (OnNewConnection_refused async_recv now sock listen_port s Hf Hfull)
      as (H1 & H2 & _).
    eexists. split; [destruct Hm as [->|[-> _]]; [exact H1|exact H2]|].
    reflexivity.
Qed.

(** X19.  When an accept is refused.  In a reachable state in which the
    server is not shut down, an accept returns (epoll build; IOCP build on
    the branch that installs the connection, [Connection::AsyncRecv]
    returning [false]).  Either it has installed the connection, and the
    table holds one connection more; or it has refused it, and then every
    slot of the table held a connection and the table had at least
    [max_connections] slots: the table is unchanged, the refusal is logged
    and the socket is shut down. *)
Theorem accept_refuses_only_a_full_table (InvalidConnectionId : ConnectionId)
        (now sock listen_port : Z) (s : TcpServer) (m : outcome TcpServer) :
  (linux_reachable InvalidConnectionId s /\
   m = Linux.OnNewConnection now sock listen_port s) \/
  (windows_reachable InvalidConnectionId s /\
   m = Windows.OnNewConnection false now sock listen_port s) ->
  _shutdown s = false ->
  exists s',
    m = Ok s' /\
    (live_count s' = S (live_count s) \/
     (live_count s = length (_mgr s) /\
      max_connections (_options s) <= Z.of_nat (length (_mgr s)) /\
      _mgr s' = _mgr s /\
      effects s' = effects s ++ [LogMaxConnections (max_connections (_options s));
                                 SocketShutdown sock])).
Proof.
  intros H Hsh.
  assert (Hfacts : table_wf s /\
                   (RESERVED_CONNECTION_COUNT <= length (_mgr s))%nat /\
                   (m = Linux.OnNewConnection now sock listen_port s \/
                    (m = Windows.OnNewConnection false now sock listen_port s /\
                     is_Some (_rs_thread s)))).
  { destruct H as [[Hr ->]|[Hr ->]].
    - split; [apply (linux_reachable_server_inv InvalidConnectionId s Hr)|].
      split; [apply (linux_reachable_reserved InvalidConnectionId s Hr Hsh)|].
      left. reflexivity.
    - split; [apply (windows_reachable_server_inv InvalidConnectionId s Hr)|].
      split; [apply (windows_reachable_reserved InvalidConnectionId s Hr Hsh)|].
      right. split; [reflexivity|].
      apply (windows_reachable_workers InvalidConnectionId s Hr Hsh). }
  clear H. destruct Hfacts as (Hwf & Hres & Hm).
  destruct (decide (_free_index_list s = [])) as [Hf|Hf].
  2: { destruct (accept_returns now sock listen_port s m
                   Hwf Hf Hm) as (s' & H1 & H2).
       exists s'. auto. }
  destruct (Z.le_gt_cases (max_connections (_options s))
                          (Z.of_nat (length (_mgr s)))) as [Hfull|Hroom].
  - destruct (OnNewConnection_refused false now sock listen_port s Hf Hfull)
      as (H1 & H2 & _).
    eexists. split; [destruct Hm as [->|[-> _]]; [exact H1|exact H2]|].
    right. split; [apply all_live; assumption|]. split; [exact Hfull|].
    split; [reflexivity|]. simpl. rewrite <- app_assoc. reflexivity.
  - destruct (grow_returns s) as (s1 & k & Hg & U & Et & Em & Efree);
      [unfold RESERVED_CONNECTION_COUNT in Hres; lia|lia|].
    assert (Hwf1 : table_wf s1).
    { destruct (grow_keeps s s1 ltac:(lia) Hg) as (_ & Hk & _). apply Hk, Hwf. }
    assert (Hne : _free_index_list s1 <> []).
    { rewrite Efree, Hf. simpl. discriminate. }
    assert (Hm1 : m = Linux.OnNewConnection now sock listen_port s1 \/
                  (m = Windows.OnNewConnection false now sock listen_port s1 /\
                   is_Some (_rs_thread s1))).
    { destruct Hm as [->|[-> Hw]]; [left|right; split].
      - unfold Linux.OnNewConnection.
        rewrite (bool_decide_eq_true_2 _ Hf), (bool_decide_eq_false_2 _ Hne).
        destruct (Z.geb_spec (Z.of_nat (length (_mgr s)))
                             (max_connections (_options s))); [lia|].
        simpl. rewrite Hg. reflexivity.
      - unfold Windows.OnNewConnection.
        rewrite (bool_decide_eq_true_2 _ Hf), (bool_decide_eq_false_2 _ Hne).
        destruct (Z.geb_spec (Z.of_nat (length (_mgr s)))
                             (max_connections (_options s))); [lia|].
        simpl. rewrite Hg. reflexivity.
      - unfold untouched in U.
        replace (_rs_thread s1) with (_rs_thread s) by congruence. exact Hw. }
    destruct (accept_returns now sock listen_port s1 m
                Hwf1 Hne Hm1) as (s' & H1 & H2).
    exists s'. split; [exact H1|]. left.
    rewrite H2, (live_count_grown s s1 (S k) End Em). reflexivity.
Qed.

(** ** A failed event evicts *)

Section FailedEvent.
Variable InvalidConnectionId : ConnectionId.
Local Abbreviation validate := (CheckConnectionId InvalidConnectionId).

(** X20.  An error event, or a receive or send event the connection
    fails, for the handle of a live slot of a consistent table (either
    build): the connection is told [Shutdown(true)], its slot is emptied and
    no other slot is touched, its entry leaves the timeout index and no
    other does, its index goes to the back of the free list, and the table
    is consistent again.  The handle is dead from then on: [Send] with it
    returns [false] and changes nothing. *)
Theorem failed_event_evicts (cid : ConnectionId) (now : Z) (s s1 : TcpServer)
        (i : nat) (c : Connection) (it : iterator) :
  table_wf s ->
  validate s cid = Z.of_nat i -> Z.of_nat i <> InvalidIndex ->
  _mgr s !! i = Some (Some c, it) ->
  Linux.OnErrorEvent InvalidConnectionId cid s = Ok s1 \/
  Linux.OnRecvEvent InvalidConnectionId false now cid s = Ok s1 \/
  Linux.OnSendEvent InvalidConnectionId false now cid s = Ok s1 \/
  Windows.OnErrorEvent InvalidConnectionId cid s = Ok s1 \/
  Windows.OnRecvEvent InvalidConnectionId false now cid s = Ok s1 \/
  Windows.OnSendEvent InvalidConnectionId false now cid s = Ok s1 ->
  table_wf s1 /\
  _mgr s1 = <[i := (None, End)]> (_mgr s) /\
  _free_index_list s1 = _free_index_list s ++ [i] /\
  (forall e : TimeoutEntry,
      e ∈ tr_entries (_timeout_record_list s1) <->
      e ∈ tr_entries (_timeout_record_list s) /\ te_index e <> i) /\
  ConnShutdown (conn_cid c) true ∈ effects s1 /\
  (forall (conn_send : bool) (len : Z),
      Linux.Send InvalidConnectionId conn_send cid len s1 = Ok (false, s1) /\
      Windows.Send InvalidConnectionId conn_send cid len s1 = Ok (false, s1)).
Proof.
  intros Hwf Hv Hne Hslot H.
  pose proof (lookup_lt_Some _ _ _ Hslot) as Hlt.
  destruct (twf_slots s Hwf i c it Hslot) as (e0 & He0 & -> & Hi0).
  pose proof (existsb_node e0 _ He0) as Hex.
  set (n := te_node e0) in *.
  assert (Hdel : forall t, _mgr t = _mgr s ->
                           _timeout_record_list t = _timeout_record_list s ->
                           Linux.DeleteConnection i t
                           = Ok (push_free i
                                   (set_mgr (<[i := (None, End)]> (_mgr t))
                                      (set_timeout_record_list
                                         {| tr_entries :=
                                              List.filter
                                                (fun x => negb (is_node n x))
                                                (tr_entries (_timeout_record_list t));
                                            tr_fresh :=
                                              tr_fresh (_timeout_record_list t) |}
                                         t)))).
  { intros t Em Et. apply (linux_DeleteConnection_live i n (Some c)).
    - rewrite Em. exact Hslot.
    - rewrite Et. exact Hex. }
  assert (Hwdel : forall t, _mgr t = _mgr s ->
                            Windows.DeleteConnection i t = Linux.DeleteConnection i t).
  { intros t Em. apply (windows_DeleteConnection_live i t c (It n)).
    rewrite Em. exact Hslot. }
  assert (Hshape : _mgr s1 = <[i := (None, End)]> (_mgr s) /\
                   _timeout_record_list s1
                   = {| tr_entries := List.filter (fun x => negb (is_node n x))
                                        (tr_entries (_timeout_record_list s));
                        tr_fresh := tr_fresh (_timeout_record_list s) |} /\
                   _free_index_list s1 = _free_index_list s ++ [i] /\
                   untouched s1 = untouched s /\
                   ConnShutdown (conn_cid c) true ∈ effects s1).
  { unfold Linux.OnErrorEvent, Linux.OnRecvEvent, Linux.OnSendEvent,
      Windows.OnErrorEvent, Windows.OnRecvEvent, Windows.OnSendEvent,
      Windows.GetConnection, shutdown_conn in H.
    rewrite Hv, Nat2Z.id in H.
    destruct (Z.eqb_spec (Z.of_nat i) InvalidIndex) as [?|_]; [contradiction|].
    unfold slot_at in H. simpl in H. rewrite Hslot in H. simpl in H.
    rewrite !Hwdel, !Hdel in H by reflexivity. simpl in H.
    destruct H as [H|[H|[H|[H|[H|H]]]]]; injection H as <-; simpl;
      (repeat match goal with |- _ /\ _ => split end; try reflexivity);
      rewrite list_elem_of_In, ?in_app_iff; simpl; auto 10. }
  destruct Hshape as (Em & Et & Ef & U & Heff).
  assert (Hwf1 : table_wf s1).
  { apply (table_wf_remove s s1 i c n Hwf Hslot Em); [|rewrite Et; reflexivity|exact Ef].
    rewrite Et. reflexivity. }
  split; [exact Hwf1|]. split; [exact Em|]. split; [exact Ef|]. split.
  { intros e. rewrite Et. simpl. rewrite elem_of_filter_list. split.
    - intros [He Hn]. split; [exact He|]. intros Hi.
      assert (e = e0) by (apply (wf_index_inj s); [apply Hwf|assumption..|congruence]).
      subst e. unfold is_node, n in Hn. rewrite Nat.eqb_refl in Hn. discriminate.
    - intros [He Hi]. split; [exact He|].
      apply negb_true_iff. apply not_true_is_false. intros Hn.
      apply is_node_true in Hn. apply Hi.
      assert (e = e0) by (apply (node_inj _ e e0 (wf_nodes s (twf_timeouts s Hwf)));
                          assumption).
      subst e. exact Hi0. }
  split; [exact Heff|].
  intros conn_send len.
  unfold Linux.Send, Windows.Send, Windows.SendWithHeader, Windows.GetConnection.
  rewrite (Check_ext InvalidConnectionId s s1 cid U), Hv, Nat2Z.id.
  destruct (Z.eqb_spec (Z.of_nat i) InvalidIndex) as [?|_]; [contradiction|].
  unfold slot_at. rewrite Em, list_lookup_insert_eq by exact Hlt. simpl.
  split; reflexivity.
Qed.
End FailedEvent.

(** ** Handles over time *)

Lemma Build_index_inj (m p m' p' i j : Z) :
  0 <= i < 2 ^ 32 -> 0 <= j < 2 ^ 32 ->
  BuildConnectionId m p i = BuildConnectionId m' p' j -> i = j.
Proof.
  intros Hi Hj H. apply (f_equal GetUserId) in H.
  rewrite !GetUserId_Build, !u32_small in H by assumption. exact H.
Qed.

Lemma Build_same_port (m p p' i : Z) :
  u16 p = u16 p' -> BuildConnectionId m p i = BuildConnectionId m p' i.
Proof. intros H. unfold BuildConnectionId. rewrite H. reflexivity. Qed.

(** X21.  Handles are unique at an instant and reused over time.  In a
    reachable state with [max_connections] a [uint32_t], the connections
    of two different slots have different handles.  But a handle does not
    tell the successive occupants of a slot apart: in a later state of the
    same run (the magic number is the same), a connection found in the same
    slot and accepted on the same listening port carries the very handle
    of the earlier one, so that a handle kept from a closed connection
    addresses whichever connection has taken its slot. *)
Theorem handles_unique_now_reused_later (InvalidConnectionId : ConnectionId)
        (s s2 : TcpServer) (i : nat) (c : Connection) (it : iterator) :
  linux_reachable InvalidConnectionId s \/
  windows_reachable InvalidConnectionId s ->
  0 <= max_connections (_options s) < 2 ^ 32 ->
  _mgr s !! i = Some (Some c, it) ->
  (forall (j : nat) (cj : Connection) (itj : iterator),
      _mgr s !! j = Some (Some cj, itj) -> i <> j ->
      conn_cid c <> conn_cid cj) /\
  (linux_reachable InvalidConnectionId s2 \/
   windows_reachable InvalidConnectionId s2 ->
   _magic_number s2 = _magic_number s ->
   forall (c2 : Connection) (it2 : iterator),
     _mgr s2 !! i = Some (Some c2, it2) ->
     GetListenPort (conn_cid c2) = GetListenPort (conn_cid c) ->
     conn_cid c2 = conn_cid c).
Proof.
  intros Hr Hmax Hslot.
  pose proof (reachable_slots InvalidConnectionId s Hr) as (Hh & Hcap & _).
  destruct (Hh i c it Hslot) as [p Hc].
  assert (Hbound : forall k d, _mgr s !! k = Some d -> 0 <= Z.of_nat k < 2 ^ 32).
  { intros k d Hk. apply lookup_lt_Some in Hk.
    unfold within_capacity, RESERVED_CONNECTION_COUNT in Hcap. lia. }
  split.
  - intros j cj itj Hj Hij Heq.
    destruct (Hh j cj itj Hj) as [pj Hcj]. rewrite Hc, Hcj in Heq.
    apply Build_index_inj in Heq; [lia|eapply Hbound; eassumption..].
  - intros Hr2 Hmagic c2 it2 Hslot2 Hport.
    pose proof (reachable_slots InvalidConnectionId s2 Hr2) as (Hh2 & _).
    destruct (Hh2 i c2 it2 Hslot2) as [p2 Hc2].
    rewrite Hc, Hc2, !GetListenPort_Build in Hport.
    rewrite Hc, Hc2, Hmagic. apply Build_same_port, Hport.
Qed.

(** ** Instances of the further properties *)

Lemma live3_wf : table_wf live3.
Proof.
  apply (linux_reachable_server_inv sentinel_ones live3 three_live_reachable).
Qed.

Lemma live3_slot1 : _mgr live3 !! 1%nat = Some (Some conn1, It 1%nat).
Proof. vm_compute. reflexivity. Qed.

Lemma live3_handle1 :
  CheckConnectionId sentinel_ones live3 handle1 = Z.of_nat 1.
Proof. vm_compute. reflexivity. Qed.

Lemma reachable_slot_partition_witness :
  _mgr live3 !! 1%nat = Some (Some conn1, It 1%nat) /\
  1%nat ∉ _free_index_list live3.
Proof.
  split; [exact live3_slot1|].
  destruct (reachable_slot_partition sentinel_ones live3 1 (Some conn1, It 1%nat)
              (or_introl three_live_reachable) live3_slot1) as [_ [_ H]].
  exact H.
Defined.

Lemma live_handle_reaches_its_connection_witness :
  Linux.Send sentinel_ones true (conn_cid conn1) 7 live3
  = Ok (true, emit (ConnSend (conn_cid conn1) 7) live3).
Proof.
  destruct (live_handle_reaches_its_connection sentinel_ones live3 1 conn1
              (It 1%nat) true 7 (or_introl three_live_reachable) live3_slot1)
    as [_ H].
  destruct H as (_ & H & _).
  - vm_compute. split; [discriminate|reflexivity].
  - vm_compute. reflexivity.
  - vm_compute. discriminate.
  - exact H.
Defined.

Lemma accept_spares_the_connections_witness :
  Linux.OnNewConnection 1700000004 14 8080 live3 = Ok fourth_accepted /\
  _mgr fourth_accepted !! 1%nat = Some (Some conn1, It 1%nat).
Proof.
  assert (H : Linux.OnNewConnection 1700000004 14 8080 live3 = Ok fourth_accepted)
    by (vm_compute; reflexivity).
  split; [exact H|].
  destruct (accept_spares_the_connections false 1700000004 14 8080 live3
              fourth_accepted live3_wf (or_introl H)) as [Hkeep _].
  apply Hkeep, live3_slot1.
Defined.

Lemma sweep_rate_limit_witness :
  Linux.OnCheckingEvent 1700000062 live3 = Some (Ok swept) /\
  Linux.OnCheckingEvent 1700000062 swept = Some (Ok swept).
Proof.
  assert (H : Linux.OnCheckingEvent 1700000062 live3 = Some (Ok swept))
    by (vm_compute; reflexivity).
  assert (Hr : 1 <= 1700000062 - _last_timeout_time live3)
    by (vm_compute; discriminate).
  split; [exact H|].
  destruct (sweep_rate_limit 1700000062 live3 swept (or_introl (conj H Hr)))
    as (_ & Hl & _).
  apply Hl. lia.
Defined.

Lemma closed_handle_is_dead_witness :
  Linux.CloseConnection sentinel_ones handle1 live3 = Ok (true, closed_one) /\
  Linux.Send sentinel_ones true handle1 7 closed_one = Ok (false, closed_one).
Proof.
  assert (H : Linux.CloseConnection sentinel_ones handle1 live3
              = Ok (true, closed_one)) by (vm_compute; reflexivity).
  split; [exact H|].
  destruct (closed_handle_is_dead sentinel_ones handle1 live3 closed_one true
              true 7 (or_introl H)) as (_ & _ & Hs & _).
  exact Hs.
Defined.


Lemma idle_connection_is_evicted_at_its_deadline_witness :
  exists s2,
    Linux.OnCheckingEvent 1700000064 fourth_accepted = Some (Ok s2) /\
    _mgr s2 !! 3%nat = Some (None, End).
Proof.
  assert (H : Linux.OnNewConnection 1700000004 14 8080 live3 = Ok fourth_accepted)
    by (vm_compute; reflexivity).
  assert (H3 : _mgr fourth_accepted !! 3%nat = Some (Some conn3, It 3%nat))
    by (vm_compute; reflexivity).
  assert (Hn : _mgr live3 !! 3%nat <> Some (Some conn3, It 3%nat))
    by (vm_compute; discriminate).
  assert (Hr : 1 <= 1700000064 - _last_timeout_time fourth_accepted)
    by (vm_compute; discriminate).
  destruct (idle_connection_is_evicted_at_its_deadline false 1700000004 14 8080
              1700000064 live3 fourth_accepted 3 conn3 (It 3%nat)
              live3_wf (or_introl H) H3 Hn Hr) as (s2 & H1 & _ & Hd & _).
  exists s2. split; [exact H1|].
  apply Hd. vm_compute. discriminate.
Defined.

Lemma io_event_postpones_eviction_witness :
  exists s2,
    Linux.OnCheckingEvent 1700000062 refreshed_one = Some (Ok s2) /\
    exists it', _mgr s2 !! 1%nat = Some (Some conn1, it').
Proof.
  assert (H : Linux.OnRecvEvent sentinel_ones true 1700000010 handle1 live3
              = Ok refreshed_one) by (vm_compute; reflexivity).
  assert (Hne : Z.of_nat 1 <> InvalidIndex) by (vm_compute; discriminate).
  assert (Hr : 1 <= 1700000062 - _last_timeout_time refreshed_one)
    by (vm_compute; discriminate).
  destruct (io_event_postpones_eviction sentinel_ones 1700000010 1700000062
              handle1 live3 refreshed_one 1 conn1 (It 1%nat)
              live3_wf live3_handle1 Hne live3_slot1 (or_introl H) Hr)
    as (_ & s2 & H1 & _ & Hk & _).
  exists s2. split; [exact H1|].
  apply Hk. vm_compute. reflexivity.
Defined.

Lemma notified_serving : serving (linux_step sentinel_ones) notified.
Proof.
  apply (serving_call _ cap_thousand).
  - apply (serving_call _ constructed); [apply serving_constructed| |reflexivity].
    apply (lstep_Init _ RAPTOR_ERROR_NONE RAPTOR_ERROR_NONE RAPTOR_ERROR_NONE
                     1700000000 (options_of 1000 60) constructed).
  - apply lstep_OnConnectionArrived.
  - intros H. vm_compute in H. discriminate.
Qed.

Lemma queue_counter_matches_the_queue_witness :
  _count notified = u32 (Z.of_nat (length (_mpscq notified))).
Proof.
  destruct (queue_counter_matches_the_queue sentinel_ones notified
              (or_introl notified_serving)) as [H _].
  exact H.
Defined.

Lemma dispatcher_delivers_in_order_witness :
  (MessageQueueThread 3 (foldl notify cap_thousand three_notifications)).1
  = [OnConnected handle1; OnMessageReceived handle1 [104; 105] 2; OnClosed handle1].
Proof.
  destruct (dispatcher_delivers_in_order cap_thousand three_notifications 3)
    as [H _].
  - reflexivity.
  - reflexivity.
  - vm_compute. reflexivity.
  - vm_compute. lia.
  - rewrite H. reflexivity.
Defined.


Lemma handle_outlives_Shutdown_witness :
  Linux.Shutdown live3 = Ok shut_down /\
  Linux.Send sentinel_ones true (conn_cid conn1) 7 shut_down = Fault OutOfRange.
Proof.
  assert (H : Linux.Shutdown live3 = Ok shut_down) by (vm_compute; reflexivity).
  split; [exact H|].
  destruct (handle_outlives_Shutdown sentinel_ones live3 shut_down 1 conn1
              (It 1%nat) true 7 (or_introl three_live_reachable) live3_slot1)
    as (_ & _ & Hs & _).
  - vm_compute. split; [discriminate|reflexivity].
  - vm_compute. reflexivity.
  - vm_compute. discriminate.
  - left. exact H.
  - exact Hs.
Defined.

Lemma shut_down_reachable : linux_reachable sentinel_ones shut_down.
Proof.
  apply (lreach_step _ live3); [exact three_live_reachable|].
  apply lstep_Shutdown. vm_compute. reflexivity.
Qed.

Lemma queued_while_shut_down_reachable :
  linux_reachable sentinel_ones queued_while_shut_down.
Proof.
  apply (lreach_step _ shut_down); [exact shut_down_reachable|].
  apply lstep_OnConnectionArrived.
Qed.

Lemma Init_after_Shutdown_resets_all_but_the_queue_witness :
  _shutdown queued_while_shut_down = true /\
  initialised 1700000100 (options_of 8 60) initialised_over_a_queue /\
  _mpscq initialised_over_a_queue
  = [{| msg_type := kNewConnection; msg_cid := handle1; msg_slice := [] |}] /\
  _count initialised_over_a_queue = 0.
Proof.
  assert (H : _shutdown queued_while_shut_down = true) by (vm_compute; reflexivity).
  split; [exact H|].
  destruct (Init_after_Shutdown_resets_all_but_the_queue sentinel_ones
              RAPTOR_ERROR_NONE RAPTOR_ERROR_NONE RAPTOR_ERROR_NONE
              1700000100 (options_of 8 60) queued_while_shut_down
              (or_introl queued_while_shut_down_reachable) H)
    as (Hiff & _ & Hinit & _ & _ & _ & Hq & _).
  assert (Hi : initialised 1700000100 (options_of 8 60) initialised_over_a_queue).
  { apply Hinit, Hiff. repeat split; reflexivity. }
  split; [exact Hi|]. split.
  - unfold initialised_over_a_queue. rewrite Hq. reflexivity.
  - destruct Hi as (_ & _ & _ & _ & _ & Hc & _). exact Hc.
Defined.

Lemma AddListeningPort_reports_every_failure_witness :
  AddListeningPort false RAPTOR_ERROR_NONE
    [RAPTOR_ERROR_NONE; RAPTOR_ERROR 21; RAPTOR_ERROR_NONE; RAPTOR_ERROR 22]
    cap_thousand
  = Ok (StatusError 21 [22%nat]).
Proof.
  destruct (AddListeningPort_reports_every_failure
              [RAPTOR_ERROR_NONE; RAPTOR_ERROR 21; RAPTOR_ERROR_NONE; RAPTOR_ERROR 22]
              cap_thousand new_worker) as [H _].
  - reflexivity.
  - reflexivity.
  - exact H.
Defined.

Lemma client_Shutdown_is_final_witness :
  Client._shutdown client_running = false /\
  Client.Send length_header [1; 2; 3] (Client.Shutdown client_running)
  = (false, Client.Shutdown client_running).
Proof.
  assert (H : Client._shutdown client_running = false) by reflexivity.
  split; [exact H|].
  destruct (client_Shutdown_is_final length_header client_running H)
    as (_ & _ & _ & _ & _ & _ & _ & Hs & _).
  apply Hs.
Defined.

Lemma client_Send_frames_in_order_witness :
  Client.IsOnline client_running = true /\
  Client._snd_buffer
    (Client.send_all length_header [[7; 8]; [9]] client_running).2
  = [[2]; [7; 8]; [1]; [9]].
Proof.
  assert (H : Client.IsOnline client_running = true) by reflexivity.
  split; [exact H|].
  destruct (client_Send_frames_in_order length_header [[7; 8]; [9]]
              client_running H) as (_ & Hb & _).
  rewrite Hb. reflexivity.
Defined.

Lemma client_Connect_online_iff_no_error_witness :
  Client.Connect false (RAPTOR_ERROR_NONE, 1%nat) (RAPTOR_ERROR_NONE, 5)
                 [(0, Client.EOTHER)] client_initialised
  = Some (Client.err_posix_connect,
          Client.emit (SocketShutdown 5) (Client.set_fd (-1) client_initialised)) /\
  Client.IsOnline
    (Client.emit (SocketShutdown 5) (Client.set_fd (-1) client_initialised))
  <> true.
Proof.
  assert (H : Client.Connect false (RAPTOR_ERROR_NONE, 1%nat) (RAPTOR_ERROR_NONE, 5)
                             [(0, Client.EOTHER)] client_initialised
              = Some (Client.err_posix_connect,
                      Client.emit (SocketShutdown 5)
                                  (Client.set_fd (-1) client_initialised)))
    by reflexivity.
  split; [exact H|].
  destruct (client_Connect_online_iff_no_error false (RAPTOR_ERROR_NONE, 1%nat)
              (RAPTOR_ERROR_NONE, 5) [(0, Client.EOTHER)] client_initialised _ _
              ltac:(reflexivity) ltac:(simpl; lia) H) as (Hiff & _).
  intros Hon. apply Hiff in Hon. discriminate.
Defined.

Lemma handle_operations_return_witness :
  returns (Linux.CloseConnection sentinel_ones handle1 live3) /\
  returns (Windows.OnRecvEvent sentinel_ones false 1700000010 handle1 live3).
Proof.
  destruct (handle_operations_return sentinel_ones handle1 live3 false
              1700000010 7 0 live3_wf) as (_ & H1 & _ & _ & _ & _ & H2 & _).
  - right. vm_compute. lia.
  - split; [exact H1|exact H2].
Defined.

Lemma accept_refuses_only_a_full_table_witness :
  exists s',
    Linux.OnNewConnection 1700000004 14 8080 live3 = Ok s' /\
    live_count s' = S (live_count live3).
Proof.
  destruct (accept_refuses_only_a_full_table sentinel_ones 1700000004 14 8080
              live3 (Linux.OnNewConnection 1700000004 14 8080 live3)
              (or_introl (conj three_live_reachable eq_refl)))
    as (s' & H1 & [H2|(H2 & _)]).
  - vm_compute. reflexivity.
  - exists s'. split; [exact H1|exact H2].
  - exfalso. vm_compute in H2. discriminate.
Defined.

Lemma failed_event_evicts_witness :
  Linux.OnErrorEvent sentinel_ones handle1 live3 = Ok errored_one /\
  _mgr errored_one = <[1%nat := (None, End)]> (_mgr live3).
Proof.
  assert (H : Linux.OnErrorEvent sentinel_ones handle1 live3 = Ok errored_one)
    by (vm_compute; reflexivity).
  assert (Hne : Z.of_nat 1 <> InvalidIndex) by (vm_compute; discriminate).
  split; [exact H|].
  destruct (failed_event_evicts sentinel_ones handle1 0 live3 errored_one 1 conn1
              (It 1%nat) live3_wf live3_handle1 Hne live3_slot1 (or_introl H))
    as (_ & Hm & _).
  exact Hm.
Defined.

Lemma accept_each_reachable (now listen_port : Z) (socks : list Z) :
  forall s s' : TcpServer,
    linux_reachable sentinel_ones s ->
    accept_each now listen_port socks s = Ok s' ->
    linux_reachable sentinel_ones s'.
Proof.
  induction socks as [|sock rest IH]; intros s s' Hr; simpl.
  - intros [= <-]. exact Hr.
  - destruct (Linux.OnNewConnection now sock listen_port s) as [s1|] eqn:H1;
      simpl; [|discriminate].
    apply IH. apply (lreach_step _ s); [exact Hr|].
    apply (lstep_OnNewConnection _ now sock listen_port). exact H1.
Qed.

Lemma slot_reused_reachable : linux_reachable sentinel_ones slot_reused.
Proof.
  apply (accept_each_reachable 1700000020 8080 (map Z.of_nat (seq 101 98))
                               closed_one).
  - apply (lreach_step _ live3); [exact three_live_reachable|].
    apply (lstep_CloseConnection _ handle1 live3 true). vm_compute. reflexivity.
  - vm_compute. reflexivity.
Qed.

Lemma handles_unique_now_reused_later_witness :
  _mgr live3 !! 1%nat = Some (Some conn1, It 1%nat) /\
  _mgr slot_reused !! 1%nat = Some (Some conn1_again, It 100%nat) /\
  conn_cid conn1_again = conn_cid conn1.
Proof.
  assert (H2 : _mgr slot_reused !! 1%nat = Some (Some conn1_again, It 100%nat))
    by (vm_compute; reflexivity).
  split; [exact live3_slot1|]. split; [exact H2|].
  destruct (handles_unique_now_reused_later sentinel_ones live3 slot_reused 1
              conn1 (It 1%nat) (or_introl three_live_reachable)) as [_ H].
  - vm_compute. split; [discriminate|reflexivity].
  - exact live3_slot1.
  - apply (H (or_introl slot_reused_reachable)) with (it2 := It 100%nat).
    + vm_compute. reflexivity.
    + exact H2.
    + vm_compute. reflexivity.
Defined.

Lemma hundred_clients_reachable (s : TcpServer) :
  linux_reachable sentinel_ones s ->
  accept_each 1700000001 8080 (map Z.of_nat (seq 11 100)) s
  = Ok (hundred_clients s) ->
  linux_reachable sentinel_ones (hundred_clients s).
Proof.
  intros Hr H.
  apply (accept_each_reachable 1700000001 8080 (map Z.of_nat (seq 11 100)) s);
    assumption.
Qed.

Lemma cap_150_reachable : linux_reachable sentinel_ones cap_150.
Proof.
  apply (lreach_step _ constructed); [apply lreach_constructed|].
  apply (lstep_Init _ RAPTOR_ERROR_NONE RAPTOR_ERROR_NONE RAPTOR_ERROR_NONE
                   1700000000 (options_of 150 60) constructed).
Qed.

Lemma cap_thousand_reachable : linux_reachable sentinel_ones cap_thousand.
Proof.
  apply (lreach_step _ constructed); [apply lreach_constructed|].
  apply (lstep_Init _ RAPTOR_ERROR_NONE RAPTOR_ERROR_NONE RAPTOR_ERROR_NONE
                   1700000000 (options_of 1000 60) constructed).
Qed.

Lemma table_capacity_and_growth_witness :
  (length (_mgr (hundred_clients cap_thousand)) = 100%nat /\
   exists s',
     Linux.OnNewConnection 1700000002 111 8080 (hundred_clients cap_thousand)
     = Ok s' /\
     Z.of_nat (length (_mgr s')) = 200) /\
  (length (_mgr (hundred_clients cap_150)) = 100%nat /\
   exists s',
     Linux.OnNewConnection 1700000002 111 8080 (hundred_clients cap_150)
     = Ok s' /\
     Z.of_nat (length (_mgr s')) = 150).
Proof.
  split; (split; [vm_compute; reflexivity|]).
  - destruct (table_capacity_and_growth sentinel_ones false 1700000002 111 8080
                (hundred_clients cap_thousand)
                (Linux.OnNewConnection 1700000002 111 8080
                                       (hundred_clients cap_thousand)))
      as (_ & _ & H).
    + left. split; [|reflexivity].
      apply hundred_clients_reachable; [exact cap_thousand_reachable|].
      vm_compute. reflexivity.
    + destruct H as (_ & s' & H1 & H2); [vm_compute; reflexivity|].
      exists s'. split; [exact H1|]. rewrite H2. vm_compute. reflexivity.
  - destruct (table_capacity_and_growth sentinel_ones false 1700000002 111 8080
                (hundred_clients cap_150)
                (Linux.OnNewConnection 1700000002 111 8080
                                       (hundred_clients cap_150)))
      as (_ & _ & H).
    + left. split; [|reflexivity].
      apply hundred_clients_reachable; [exact cap_150_reachable|].
      vm_compute. reflexivity.
    + destruct H as (_ & s' & H1 & H2); [vm_compute; reflexivity|].
      exists s'. split; [exact H1|]. rewrite H2. vm_compute. reflexivity.
Defined.
